(** * The PyTeal ARC-4 router, embedded

    A shallow embedding of [pyteal/ast/router.py]: the call-permission
    lattice [CallConfig], the per-method [MethodConfig], bare-call actions,
    the handler wrapper with its argument marshaler, the dispatch-tree
    builder and the [Router] with its signature/selector registry.

    Conventions.
    - Python exceptions are values of [Result]; a method that mutates [self]
      returns the object as it stands when the method returns or raises,
      together with the [Result].
    - [Expr | int] guards are values of [CondVal].
    - Python [str] and [bytes] are both [string] (a sequence of 8-bit
      characters); a [str] is held as its UTF-8 bytes, so
      [bytes(s, "utf-8")] is the identity.
    - An [IntFlag] such as [CallConfig] may carry any integer, hence [Z].
    - dictionaries are [gmap]s.
    - Collaborators that live outside the file (the configuration constant,
      tuple indexing of the ABI library, the checksum, the ABI codec) are
      section variables. *)

From Stdlib Require Import ZArith String Bool Lia.
From stdpp Require Import base option list gmap strings.

Set Default Proof Using "Type".
#[local] Set Warnings "-register-all".

(** ** Exceptions *)

(** One constructor per [raise] of the file (line numbers of router.py). *)
Inductive Message :=
| unexpected_CallConfig                      (* 61 *)
| unexpected_condition_under_config          (* 124 *)
| action_and_call_config_contradicts         (* 146 *)
| Unexpected_CallConfig_of_bare_call         (* 232, 267 *)
| bare_expr_should_be_none                   (* 315 *)
| subroutine_should_return_none              (* 321 *)
| subroutine_should_take_0_arg               (* 325 *)
| abi_subroutine_should_return_void          (* 332 *)
| abi_subroutine_should_take_0_arg           (* 336 *)
| bare_appcall_can_only_accept               (* 342 *)
| method_call_should_be_ABIReturnSubroutine  (* 347 *)
| method_call_is_not_routable                (* 351 *)
| Invalid_condition_input                    (* 458 *)
| Cannot_build_program_with_an_empty_AST     (* 462 *)
| is_never_executed (sig : string)           (* 526 *)
| re_registering_method (sig : string)       (* 532 *)
| has_hash_collision (sig other : string)    (* 534 *)
| raised_outside (what : string).            (* by a collaborator *)

Inductive Error :=
| TealInputError (m : Message)
| TealInternalError (m : Message)
| IndexError.

Inductive Result (A : Type) :=
| Ok (a : A)
| Raise (e : Error).
Arguments Ok {A} a.
Arguments Raise {A} e.

#[global] Instance Result_ret : MRet Result := fun _ a => Ok a.
#[global] Instance Result_bind : MBind Result := fun _ _ f m =>
  match m with Ok a => f a | Raise e => Raise e end.

Definition is_Ok {A} (r : Result A) : bool :=
  match r with Ok _ => true | Raise _ => false end.

(** ** ABI types and values *)

Definition bytes := string.

(** [abi.TypeSpec]: the router only asks whether a type is a transaction
    type, and builds tuple types. *)
Inductive TypeSpec :=
| BasicTypeSpec (name : string)
| TransactionTypeSpec (name : string)
| TupleTypeSpec (value_specs : list TypeSpec).

(** The identity of an ABI value object made by [new_instance()]. *)
Inductive InstanceId :=
| arg_val (i : nat)      (* arg_vals[i] *)
| last_arg               (* the synthesized tuple, line 383 *)
| output_temp.           (* line 426 *)

#[global] Instance InstanceId_eq_dec : EqDecision InstanceId.
Proof. solve_decision. Defined.

(** [abi.BaseType]: an instance and its [type_spec()]. *)
Record BaseType := new_instance { instance : InstanceId; type_spec : TypeSpec }.

(** [isinstance(v, abi.Transaction)] *)
Definition is_Transaction (v : BaseType) : bool :=
  match type_spec v with TransactionTypeSpec _ => true | _ => false end.

(** [abi.TupleElement]: the value of [t[i]]. *)
Record TupleElement := Tuple_element { tuple : BaseType; index : nat }.

(** ** Handlers *)

Inductive TealType := TealType_uint64 | TealType_bytes | TealType_anytype | TealType_none.

#[global] Instance TealType_eq_dec : EqDecision TealType.
Proof. solve_decision. Defined.

(** A caller-supplied expression, as far as the router looks at it. *)
Record UserExpr := {
  expr_label : string;
  expr_type_of : TealType;
  expr_has_return : bool }.

Record SubroutineFnWrapper := {
  subroutine_name : string;
  subroutine_type_of : TealType;
  subroutine_argument_count : nat }.

(** [type_of] is [None] for "void". [method_signature] is the method
    [ABIReturnSubroutine.method_signature(overriding_name)]. *)
Record ABIReturnSubroutine := {
  abi_name : string;
  abi_type_of : option TypeSpec;
  abi_argument_count : nat;
  is_abi_routable : bool;
  expected_arg_types : list TypeSpec;
  method_signature : option string -> Result string }.

(** [Optional[Expr | SubroutineFnWrapper | ABIReturnSubroutine]] *)
Inductive Handler :=
| HNone
| HExpr (e : UserExpr)
| HSubroutine (s : SubroutineFnWrapper)
| HABIReturn (a : ABIReturnSubroutine).

(** ** Expressions *)

Inductive OnComplete := NoOp | OptIn | CloseOut | ClearState | UpdateApplication | DeleteApplication.

Inductive TxnField :=
| application_id | on_completion | application_args_length | group_index.

Inductive BinaryOp := op_eq | op_neq | op_minus.
Inductive NaryOp := op_and | op_or.

Inductive Expr :=
| Int (n : Z)
| EnumInt (oc : OnComplete)
| MethodSignature (sig : string)
| Txn (f : TxnField)
| Txn_application_args (i : nat)
| BinaryExpr (op : BinaryOp) (l r : Expr)
| NaryExpr (op : NaryOp) (args : list Expr)
| Assert (c : Expr)
| Seq (es : list Expr)
| Cond (arms : list (Expr * Expr))
| Approve
| Given (e : UserExpr)
| SubroutineCall (s : SubroutineFnWrapper)
| ABICall (a : ABIReturnSubroutine) (args : list BaseType)
| Decode (v : BaseType) (encoded : Expr)
| Transaction_set (v : BaseType) (idx : Expr)
| TupleElement_store_into (e : TupleElement) (target : BaseType)
| ReturnedValue_store_into (call : Expr) (target : BaseType)
| MethodReturn (v : BaseType).

Notation "a '==' b" := (BinaryExpr op_eq a b) (at level 70, no associativity).
Notation "a '!=' b" := (BinaryExpr op_neq a b) (at level 70, no associativity).
Definition And (a b : Expr) : Expr := NaryExpr op_and [a; b].
Definition Or (args : list Expr) : Expr := NaryExpr op_or args.

(** [Expr | int] *)
Inductive CondVal :=
| CInt (n : Z)
| CExpr (e : Expr).

(** ** CallConfig *)

Definition CallConfig := Z.
Definition NEVER : CallConfig := 0%Z.
Definition CALL : CallConfig := 1%Z.
Definition CREATE : CallConfig := 2%Z.
Definition ALL : CallConfig := 3%Z.

Definition condition_under_config (self : CallConfig) : Result CondVal :=
  if (self =? NEVER)%Z then Ok (CInt 0)
  else if (self =? CALL)%Z then Ok (CExpr (Txn application_id != Int 0))
  else if (self =? CREATE)%Z then Ok (CExpr (Txn application_id == Int 0))
  else if (self =? ALL)%Z then Ok (CInt 1)
  else Raise (TealInternalError unexpected_CallConfig).

(** ** MethodConfig *)

Record MethodConfig := {
  mc_no_op : CallConfig;
  mc_opt_in : CallConfig;
  mc_close_out : CallConfig;
  mc_clear_state : CallConfig;
  mc_update_application : CallConfig;
  mc_delete_application : CallConfig }.

(** [MethodConfig()] *)
Definition MethodConfig_default : MethodConfig :=
  {| mc_no_op := CALL; mc_opt_in := NEVER; mc_close_out := NEVER;
     mc_clear_state := NEVER; mc_update_application := NEVER;
     mc_delete_application := NEVER |}.

Definition astuple (self : MethodConfig) : list CallConfig :=
  [mc_no_op self; mc_opt_in self; mc_close_out self; mc_clear_state self;
   mc_update_application self; mc_delete_application self].

Definition is_never (self : MethodConfig) : bool :=
  forallb (fun cc => (cc =? NEVER)%Z) (astuple self).

Definition arc4_compliant : MethodConfig :=
  {| mc_no_op := ALL; mc_opt_in := ALL; mc_close_out := ALL;
     mc_clear_state := ALL; mc_update_application := ALL;
     mc_delete_application := ALL |}.

Definition is_arc4_compliant (self : MethodConfig) : bool :=
  forallb (fun p => (fst p =? snd p)%Z) (zip (astuple self) (astuple arc4_compliant)).

Definition config_oc_pairs (self : MethodConfig) : list (CallConfig * OnComplete) :=
  [(mc_no_op self, NoOp);
   (mc_opt_in self, OptIn);
   (mc_close_out self, CloseOut);
   (mc_update_application self, UpdateApplication);
   (mc_delete_application self, DeleteApplication)].

(** The [for] loop of [approval_cond] (lines 114-126), [cond_list] being
    the list built so far. *)
Fixpoint approval_cond_loop (pairs : list (CallConfig * OnComplete))
    (cond_list : list Expr) : Result (list Expr) :=
  match pairs with
  | [] => Ok cond_list
  | (config, oc) :: pairs =>
      config_cond ← condition_under_config config;
      match config_cond with
      | CExpr c =>
          approval_cond_loop pairs (cond_list ++ [And (Txn on_completion == EnumInt oc) c])
      | CInt 1 =>
          approval_cond_loop pairs (cond_list ++ [Txn on_completion == EnumInt oc])
      | CInt 0 => approval_cond_loop pairs cond_list
      | CInt _ => Raise (TealInternalError unexpected_condition_under_config)
      end
  end.

Definition approval_cond (self : MethodConfig) : Result CondVal :=
  let pairs := config_oc_pairs self in
  if forallb (fun p => (fst p =? NEVER)%Z) pairs then Ok (CInt 0)
  else if forallb (fun p => (fst p =? ALL)%Z) pairs then Ok (CInt 1)
  else
    cond_list ← approval_cond_loop pairs [];
    Ok (CExpr (Or cond_list)).

Definition clear_state_cond (self : MethodConfig) : Result CondVal :=
  condition_under_config (mc_clear_state self).

(** ** OnCompleteAction *)

Record OnCompleteAction := {
  action : Handler;
  call_config : CallConfig }.

(** [bool(self.action)] *)
Definition Handler_bool (h : Handler) : bool :=
  match h with HNone => false | _ => true end.

(** [bool(self.call_config)] *)
Definition CallConfig_bool (cc : CallConfig) : bool := negb (cc =? 0)%Z.

(** The dataclass constructor followed by [__post_init__]. *)
Definition OnCompleteAction_init (action : Handler) (call_config : CallConfig)
    : Result OnCompleteAction :=
  if xorb (CallConfig_bool call_config) (Handler_bool action)
  then Raise (TealInputError action_and_call_config_contradicts)
  else Ok {| action := action; call_config := call_config |}.

Definition OnCompleteAction_never : Result OnCompleteAction :=
  OnCompleteAction_init HNone NEVER.
Definition create_only (f : Handler) := OnCompleteAction_init f CREATE.
Definition call_only (f : Handler) := OnCompleteAction_init f CALL.
Definition always (f : Handler) := OnCompleteAction_init f ALL.

Definition OnCompleteAction_is_empty (self : OnCompleteAction) : bool :=
  negb (Handler_bool (action self)) && (call_config self =? NEVER)%Z.

(** ** Python list slicing *)

(** The position a slice bound [n] denotes in a list of length [len]:
    a negative bound counts from the end, and [drop]/[take] clamp the rest. *)
Definition slice_bound (n : Z) (len : nat) : nat :=
  if (n <? 0)%Z then Z.to_nat (Z.of_nat len + n) else Z.to_nat n.

(** [l[n:]] *)
Definition slice_from {A} (n : Z) (l : list A) : list A :=
  drop (slice_bound n (length l)) l.

(** [l[:n]] *)
Definition slice_to {A} (n : Z) (l : list A) : list A :=
  take (slice_bound n (length l)) l.

(** [l[-1]] *)
Definition list_last {A} (l : list A) : Result A :=
  match last l with Some x => Ok x | None => Raise IndexError end.

(** ** Dispatch entries *)

Record CondNode := { condition : Expr; branch : Expr }.

Record ASTBuilder := { conditions_n_branches : list CondNode }.

(** [[[n.condition, n.branch] for n in nodes]] *)
Definition cond_arms (nodes : list CondNode) : list (Expr * Expr) :=
  (fun n => (condition n, branch n)) <$> nodes.

Record BareCallActions := {
  bc_close_out : OnCompleteAction;
  bc_clear_state : OnCompleteAction;
  bc_delete_application : OnCompleteAction;
  bc_no_op : OnCompleteAction;
  bc_opt_in : OnCompleteAction;
  bc_update_application : OnCompleteAction }.

(** [fields(self)], in declaration order *)
Definition BareCallActions_fields (self : BareCallActions) : list OnCompleteAction :=
  [bc_close_out self; bc_clear_state self; bc_delete_application self;
   bc_no_op self; bc_opt_in self; bc_update_application self].

Definition BareCallActions_is_empty (self : BareCallActions) : bool :=
  forallb OnCompleteAction_is_empty (BareCallActions_fields self).

Record Contract := { contract_name : string; contract_methods : gset string }.

Record Router := {
  name : string;
  approval_ast : ASTBuilder;
  clear_state_ast : ASTBuilder;
  method_sig_to_selector : gmap string bytes;
  method_selector_to_sig : gmap bytes string }.

Section Router.

(** [pyteal.config.METHOD_ARG_NUM_CUTOFF] *)
Variable METHOD_ARG_NUM_CUTOFF : Z.

(** [abi.Tuple.__getitem__]: the element at an index, or an exception. *)
Variable Tuple_getitem : BaseType -> nat -> Result TupleElement.

(** [algosdk.encoding.checksum] *)
Variable checksum : bytes -> bytes.

(** *** ASTBuilder.wrap_handler *)

(** Lines 311-344: [is_method_call] is false. *)
Definition wrap_bare_handler (handler : Handler) : Result Expr :=
  match handler with
  | HExpr e =>
      if bool_decide (expr_type_of e ≠ TealType_none)
      then Raise (TealInputError bare_expr_should_be_none)
      else Ok (if expr_has_return e then Given e else Seq [Given e; Approve])
  | HSubroutine s =>
      if bool_decide (subroutine_type_of s ≠ TealType_none)
      then Raise (TealInputError subroutine_should_return_none)
      else if bool_decide (subroutine_argument_count s ≠ 0)
      then Raise (TealInputError subroutine_should_take_0_arg)
      else Ok (Seq [SubroutineCall s; Approve])
  | HABIReturn a =>
      if bool_decide (is_Some (abi_type_of a))
      then Raise (TealInputError abi_subroutine_should_return_void)
      else if bool_decide (abi_argument_count a ≠ 0)
      then Raise (TealInputError abi_subroutine_should_take_0_arg)
      else Ok (Seq [ABICall a []; Approve])
  | HNone => Raise (TealInputError bare_appcall_can_only_accept)
  end.

(** Line 364 *)
Definition arg_vals_of (arg_type_specs : list TypeSpec) : list BaseType :=
  imap (fun i typespec => new_instance (arg_val i) typespec) arg_type_specs.

(** Line 367: the arguments that appear in the application arguments. *)
Definition app_arg_vals_of (arg_vals : list BaseType) : list BaseType :=
  filter (fun ats => ¬ is_Transaction ats) arg_vals.

(** Line 373 *)
Definition txn_arg_vals_of (arg_vals : list BaseType) : list BaseType :=
  filter (fun ats => is_Transaction ats) arg_vals.

(** Line 370 *)
Definition tuplify_of (app_arg_vals : list BaseType) : bool :=
  bool_decide (METHOD_ARG_NUM_CUTOFF < Z.of_nat (length app_arg_vals))%Z.

(** Lines 378-386: [app_arg_vals] as it stands when decoding starts. *)
Definition app_arg_vals_tuplified (app_arg_vals : list BaseType) : list BaseType :=
  if tuplify_of app_arg_vals then
    let last_arg_specs_grouped :=
      type_spec <$> slice_from (METHOD_ARG_NUM_CUTOFF - 1) app_arg_vals in
    let app_arg_vals' := slice_to (METHOD_ARG_NUM_CUTOFF - 1) app_arg_vals in
    let last_arg_spec := new_instance last_arg (TupleTypeSpec last_arg_specs_grouped) in
    app_arg_vals' ++ [last_arg_spec]
  else app_arg_vals.

(** Lines 389-392 *)
Definition app_decode_instructions (app_arg_vals : list BaseType) : list Expr :=
  imap (fun i v => Decode v (Txn_application_args (i + 1))) app_arg_vals.

(** Lines 396-403 *)
Definition txn_decode_instructions (txn_arg_vals : list BaseType) : list Expr :=
  let txn_relative_pos := length txn_arg_vals in
  imap (fun i t =>
          Transaction_set t
            (BinaryExpr op_minus (Txn group_index)
               (Int (Z.of_nat txn_relative_pos - Z.of_nat i))))
       txn_arg_vals.

(** Lines 412-415: the comprehension over [range(len(tuple_abi_args))],
    from index [i] on. *)
Fixpoint de_tuple_instructions (last_tuple_arg : BaseType) (i : nat)
    (tuple_abi_args : list BaseType) : Result (list Expr) :=
  match tuple_abi_args with
  | [] => Ok []
  | target :: rest =>
      e ← Tuple_getitem last_tuple_arg i;
      instrs ← de_tuple_instructions last_tuple_arg (S i) rest;
      Ok (TupleElement_store_into e target :: instrs)
  end.

(** Lines 364-416: [decode_instructions] for given [arg_vals]. *)
Definition decode_instructions_of (arg_vals : list BaseType) : Result (list Expr) :=
  let app_arg_vals := app_arg_vals_of arg_vals in
  let tuplify := tuplify_of app_arg_vals in
  let txn_arg_vals := txn_arg_vals_of arg_vals in
  let app_arg_vals := app_arg_vals_tuplified app_arg_vals in
  let decode_instructions := app_decode_instructions app_arg_vals in
  let decode_instructions :=
    if bool_decide (0 < length txn_arg_vals)
    then decode_instructions ++ txn_decode_instructions txn_arg_vals
    else decode_instructions in
  if tuplify then
    let tuple_abi_args := slice_from (METHOD_ARG_NUM_CUTOFF - 1) arg_vals in
    last_tuple_arg ← list_last app_arg_vals;
    de_tuple ← de_tuple_instructions last_tuple_arg 0 tuple_abi_args;
    Ok (decode_instructions ++ de_tuple)
  else Ok decode_instructions.

(** Lines 346-437: [is_method_call] is true. *)
Definition wrap_method_handler (handler : Handler) : Result Expr :=
  match handler with
  | HABIReturn handler =>
      if negb (is_abi_routable handler)
      then Raise (TealInputError method_call_is_not_routable)
      else
        let arg_type_specs := expected_arg_types handler in
        let arg_vals := arg_vals_of arg_type_specs in
        decode_instructions ← decode_instructions_of arg_vals;
        match abi_type_of handler with
        | None =>
            Ok (Seq (decode_instructions ++ [ABICall handler arg_vals; Approve]))
        | Some abi_type =>
            let output := new_instance output_temp abi_type in
            let subroutine_call := ABICall handler arg_vals in
            Ok (Seq (decode_instructions ++
                     [ReturnedValue_store_into subroutine_call output;
                      MethodReturn output;
                      Approve]))
        end
  | _ => Raise (TealInputError method_call_should_be_ABIReturnSubroutine)
  end.

Definition wrap_handler (is_method_call : bool) (handler : Handler) : Result Expr :=
  if negb is_method_call then wrap_bare_handler handler
  else wrap_method_handler handler.

(** *** BareCallActions *)

(** The body guarded by one action's permission (lines 223-234, 254-269). *)
Definition bare_cond_body (call_config : CallConfig) (wrapped_handler : Expr)
    : Result Expr :=
  if (call_config =? ALL)%Z then Ok wrapped_handler
  else if (call_config =? CALL)%Z || (call_config =? CREATE)%Z then
    c ← condition_under_config call_config;
    match c with
    | CExpr c => Ok (Seq [Assert c; wrapped_handler])
    | CInt _ => Raise (TealInputError (raised_outside "Assert"))
    end
  else Raise (TealInternalError Unexpected_CallConfig_of_bare_call).

(** The [for] loop of [approval_construction] (lines 216-240). *)
Fixpoint approval_construction_loop (oc_action_pair : list (OnComplete * OnCompleteAction))
    (nodes : list CondNode) : Result (list CondNode) :=
  match oc_action_pair with
  | [] => Ok nodes
  | (oc, oca) :: rest =>
      if OnCompleteAction_is_empty oca then approval_construction_loop rest nodes
      else
        wrapped_handler ← wrap_handler false (action oca);
        cond_body ← bare_cond_body (call_config oca) wrapped_handler;
        approval_construction_loop rest
          (nodes ++ [{| condition := Txn on_completion == EnumInt oc;
                        branch := cond_body |}])
  end.

Definition approval_construction (self : BareCallActions) : Result (option Expr) :=
  let oc_action_pair :=
    [(NoOp, bc_no_op self);
     (OptIn, bc_opt_in self);
     (CloseOut, bc_close_out self);
     (UpdateApplication, bc_update_application self);
     (DeleteApplication, bc_delete_application self)] in
  if forallb (fun p => OnCompleteAction_is_empty (snd p)) oc_action_pair then Ok None
  else
    nodes ← approval_construction_loop oc_action_pair [];
    Ok (Some (Cond (cond_arms nodes))).

Definition clear_state_construction (self : BareCallActions) : Result (option Expr) :=
  if OnCompleteAction_is_empty (bc_clear_state self) then Ok None
  else
    wrapped_handler ← wrap_handler false (action (bc_clear_state self));
    body ← bare_cond_body (call_config (bc_clear_state self)) wrapped_handler;
    Ok (Some body).

(** *** ASTBuilder *)

Definition append_node (self : ASTBuilder) (n : CondNode) : ASTBuilder :=
  {| conditions_n_branches := conditions_n_branches self ++ [n] |}.

Definition walk_in_cond (method_signature : string) : Expr :=
  Txn_application_args 0 == MethodSignature method_signature.

Definition add_method_to_ast (self : ASTBuilder) (method_signature : string)
    (cond : CondVal) (handler : ABIReturnSubroutine) : ASTBuilder * Result unit :=
  match cond with
  | CExpr c =>
      match wrap_handler true (HABIReturn handler) with
      | Ok wrapped =>
          (append_node self {| condition := walk_in_cond method_signature;
                               branch := Seq [Assert c; wrapped] |}, Ok ())
      | Raise e => (self, Raise e)
      end
  | CInt 1 =>
      match wrap_handler true (HABIReturn handler) with
      | Ok wrapped =>
          (append_node self {| condition := walk_in_cond method_signature;
                               branch := wrapped |}, Ok ())
      | Raise e => (self, Raise e)
      end
  | CInt 0 => (self, Ok ())
  | CInt _ => (self, Raise (TealInputError Invalid_condition_input))
  end.

Definition program_construction (self : ASTBuilder) : Result Expr :=
  match conditions_n_branches self with
  | [] => Raise (TealInputError Cannot_build_program_with_an_empty_AST)
  | nodes => Ok (Cond (cond_arms nodes))
  end.

(** *** Router *)

Definition set_approval_ast (self : Router) (b : ASTBuilder) : Router :=
  {| name := name self; approval_ast := b; clear_state_ast := clear_state_ast self;
     method_sig_to_selector := method_sig_to_selector self;
     method_selector_to_sig := method_selector_to_sig self |}.

Definition set_clear_state_ast (self : Router) (b : ASTBuilder) : Router :=
  {| name := name self; approval_ast := approval_ast self; clear_state_ast := b;
     method_sig_to_selector := method_sig_to_selector self;
     method_selector_to_sig := method_selector_to_sig self |}.

(** Lines 538-539 *)
Definition record_method (self : Router) (method_signature : string)
    (method_selector : bytes) : Router :=
  {| name := name self; approval_ast := approval_ast self;
     clear_state_ast := clear_state_ast self;
     method_sig_to_selector := <[method_signature := method_selector]> (method_sig_to_selector self);
     method_selector_to_sig := <[method_selector := method_signature]> (method_selector_to_sig self) |}.

Definition zero_app_args : Expr := Txn application_args_length == Int 0.

(** [Router.__init__]; [bare_calls] is [None] by default. *)
Definition Router_init (name : string) (bare_calls : option BareCallActions)
    : Result Router :=
  let self :=
    {| name := name;
       approval_ast := {| conditions_n_branches := [] |};
       clear_state_ast := {| conditions_n_branches := [] |};
       method_sig_to_selector := ∅;
       method_selector_to_sig := ∅ |} in
  match bare_calls with
  | Some bare_calls =>
      if negb (BareCallActions_is_empty bare_calls) then
        bare_call_approval ← approval_construction bare_calls;
        let self :=
          match bare_call_approval with
          | Some e =>
              set_approval_ast self
                (append_node (approval_ast self)
                   {| condition := zero_app_args; branch := e |})
          | None => self
          end in
        bare_call_clear ← clear_state_construction bare_calls;
        let self :=
          match bare_call_clear with
          | Some e =>
              set_clear_state_ast self
                (append_node (clear_state_ast self)
                   {| condition := zero_app_args; branch := e |})
          | None => self
          end in
        Ok self
      else Ok self
  | None => Ok self
  end.

(** [encoding.checksum(bytes(method_signature, "utf-8"))[:4]] *)
Definition selector_of (method_signature : string) : bytes :=
  String.substring 0 4 (checksum method_signature).

(** Lines 541-553, once the method is recorded. *)
Definition feed_method (self : Router) (method_signature : string)
    (method_call : ABIReturnSubroutine) (method_config : MethodConfig)
    : Router * Result unit :=
  if is_arc4_compliant method_config then
    let '(ast, r) := add_method_to_ast (approval_ast self) method_signature (CInt 1) method_call in
    let self := set_approval_ast self ast in
    match r with
    | Raise e => (self, Raise e)
    | Ok _ =>
        let '(ast, r) := add_method_to_ast (clear_state_ast self) method_signature (CInt 1) method_call in
        (set_clear_state_ast self ast, r)
    end
  else
    match approval_cond method_config with
    | Raise e => (self, Raise e)
    | Ok method_approval_cond =>
        match clear_state_cond method_config with
        | Raise e => (self, Raise e)
        | Ok method_clear_state_cond =>
            let '(ast, r) :=
              add_method_to_ast (approval_ast self) method_signature
                method_approval_cond method_call in
            let self := set_approval_ast self ast in
            match r with
            | Raise e => (self, Raise e)
            | Ok _ =>
                let '(ast, r) :=
                  add_method_to_ast (clear_state_ast self) method_signature
                    method_clear_state_cond method_call in
                (set_clear_state_ast self ast, r)
            end
        end
    end.

Definition add_method_handler (self : Router) (method_call : ABIReturnSubroutine)
    (overriding_name : option string) (method_config : MethodConfig)
    : Router * Result unit :=
  match method_signature method_call overriding_name with
  | Raise e => (self, Raise e)
  | Ok method_signature =>
      if is_never method_config
      then (self, Raise (TealInputError (is_never_executed method_signature)))
      else
        let method_selector := selector_of method_signature in
        match method_sig_to_selector self !! method_signature with
        | Some _ => (self, Raise (TealInputError (re_registering_method method_signature)))
        | None =>
            match method_selector_to_sig self !! method_selector with
            | Some other =>
                (self, Raise (TealInputError (has_hash_collision method_signature other)))
            | None =>
                feed_method (record_method self method_signature method_selector)
                  method_signature method_call method_config
            end
        end
  end.

(** [Router.method]: the decorator, [func] already turned into an
    [ABIReturnSubroutine]. *)
Definition Router_method (self : Router) (wrapped_subroutine : ABIReturnSubroutine)
    (name : option string)
    (no_op opt_in close_out clear_state update_application delete_application : CallConfig)
    : Router * Result unit :=
  let call_configs :=
    {| mc_no_op := no_op; mc_opt_in := opt_in; mc_close_out := close_out;
       mc_clear_state := clear_state; mc_update_application := update_application;
       mc_delete_application := delete_application |} in
  add_method_handler self wrapped_subroutine name call_configs.

Definition contract_construct (self : Router) : Contract :=
  {| contract_name := name self; contract_methods := dom (method_sig_to_selector self) |}.

Definition build_program (self : Router) : Result (Expr * Expr * Contract) :=
  approval_program ← program_construction (approval_ast self);
  clear_state_program ← program_construction (clear_state_ast self);
  Ok (approval_program, clear_state_program, contract_construct self).

(** [OnCompleteAction.never()], as constructed. *)
Definition never_action : OnCompleteAction :=
  {| action := HNone; call_config := NEVER |}.

(** [BareCallActions(no_op=oca)]: every other action is the default. *)
Definition BareCallActions_no_op (oca : OnCompleteAction) : BareCallActions :=
  {| bc_close_out := never_action; bc_clear_state := never_action;
     bc_delete_application := never_action; bc_no_op := oca;
     bc_opt_in := never_action; bc_update_application := never_action |}.

(** The entry seeded for a bare-call construction (lines 499-512). *)
Definition bare_call_entry (e : Expr) : CondNode :=
  {| condition := zero_app_args; branch := e |}.

(** ** Sequences of registrations *)

(** The arguments of one call of [add_method_handler]. *)
Record Registration := {
  reg_method_call : ABIReturnSubroutine;
  reg_overriding_name : option string;
  reg_method_config : MethodConfig }.

(** The signature a registration computes, if it gets that far. *)
Definition registration_sig (c : Registration) : option string :=
  match method_signature (reg_method_call c) (reg_overriding_name c) with
  | Ok sig => Some sig
  | Raise _ => None
  end.

(** The two dictionaries agree: they hold the same pairs. *)
Definition registry_consistent (r : Router) : Prop :=
  ∀ sig sel,
    method_sig_to_selector r !! sig = Some sel ↔
    method_selector_to_sig r !! sel = Some sig.

(** The router after one call of [add_method_handler], whether it returned
    or raised. *)
Definition register (r : Router) (c : Registration) : Router :=
  fst (add_method_handler r (reg_method_call c) (reg_overriding_name c)
         (reg_method_config c)).

Definition register_all (r : Router) (cs : list Registration) : Router :=
  foldl register r cs.

(** [new] is [old], or [old] with one entry for the method [sig] at its end. *)
Definition appended (sig : string) (old new : list CondNode) : Prop :=
  new = old ∨
  ∃ body, new = old ++ [{| condition := walk_in_cond sig; branch := body |}].

(** [new] is [old] followed by one entry per signature of [sigs], in order. *)
Definition extended (sigs : list string) (old new : list CondNode) : Prop :=
  ∃ methods, new = old ++ methods ∧ condition <$> methods = walk_in_cond <$> sigs.

(** ** What the emitted expressions compute *)

(** The transaction under evaluation, as far as the router's expressions
    read it. *)
Record TxnCtx := {
  ctx_application_id : Z;
  ctx_on_completion : Z;
  ctx_application_args : list bytes;
  ctx_group_index : Z }.

Definition Txn_value (ctx : TxnCtx) (f : TxnField) : Z :=
  match f with
  | application_id => ctx_application_id ctx
  | on_completion => ctx_on_completion ctx
  | application_args_length => Z.of_nat (length (ctx_application_args ctx))
  | group_index => ctx_group_index ctx
  end.

(** Modelled from the spec: the expression library is a collaborator whose
    "boolean/equality/arithmetic combinators" the router only composes.
    This is the value of the integer expressions the router builds from
    transaction fields and literals: equality and disequality give 1 or 0,
    and an unsigned subtraction that would go below zero has no value.
    Expressions outside this fragment are given no value here. *)
Fixpoint eval (ctx : TxnCtx) (e : Expr) : option Z :=
  match e with
  | Int n => Some n
  | Txn f => Some (Txn_value ctx f)
  | BinaryExpr op l r =>
      a ← eval ctx l;
      b ← eval ctx r;
      match op with
      | op_eq => Some (Z.b2z (a =? b)%Z)
      | op_neq => Some (Z.b2z (negb (a =? b)%Z))
      | op_minus => if (b <=? a)%Z then Some (a - b)%Z else None
      end
  | _ => None
  end.

(** Modelled from the spec: the conditional-branch construct, "a single
    ordered conditional structure evaluated top-to-bottom, first matching
    guard wins". *)
Fixpoint select_branch (ctx : TxnCtx) (arms : list (Expr * Expr)) : option Expr :=
  match arms with
  | [] => None
  | (guard, body) :: arms =>
      v ← eval ctx guard;
      if (v =? 0)%Z then select_branch ctx arms else Some body
  end.

(** Typed ABI values: an atom (held as its canonical bytes), a tuple, or a
    transaction of the group given by its position. *)
Inductive AbiVal :=
| abi_atom (b : bytes)
| abi_tuple (elems : list AbiVal)
| abi_txn (group_pos : Z).

(** What each ABI value object holds. *)
Definition Store := InstanceId -> option AbiVal.

Definition store_set (i : InstanceId) (v : AbiVal) (σ : Store) : Store :=
  fun j => if decide (j = i) then Some v else σ j.

(** The per-type ABI codec, [decode(bytes_source) -> typed_value]. *)
Variable abi_decode : TypeSpec -> bytes -> option AbiVal.

(** Modelled from the spec: the ABI library's [decode], [set] and
    [store_into] are collaborators. A decode instruction reads one
    call-argument slot through the codec at the object's type; a
    transaction argument is set to the transaction at the computed group
    position; a tuple element is stored into its target. *)
Definition exec (ctx : TxnCtx) (e : Expr) (σ : Store) : option Store :=
  match e with
  | Decode v (Txn_application_args i) =>
      b ← ctx_application_args ctx !! i;
      x ← abi_decode (type_spec v) b;
      Some (store_set (instance v) x σ)
  | Transaction_set v idx =>
      n ← eval ctx idx;
      Some (store_set (instance v) (abi_txn n) σ)
  | TupleElement_store_into e target =>
      t ← σ (instance (tuple e));
      match t with
      | abi_tuple elems =>
          x ← elems !! index e;
          Some (store_set (instance target) x σ)
      | _ => None
      end
  | _ => None
  end.

Fixpoint exec_all (ctx : TxnCtx) (es : list Expr) (σ : Store) : option Store :=
  match es with
  | [] => Some σ
  | e :: es => σ' ← exec ctx e σ; exec_all ctx es σ'
  end.

(** ** The specification's wording of [approval_cond] *)

(** The five completion kinds of the approval program, each with the field
    of [MethodConfig] that holds its permission. *)
Definition approval_kinds : list (OnComplete * (MethodConfig -> CallConfig)) :=
  [(NoOp, mc_no_op); (OptIn, mc_opt_in); (CloseOut, mc_close_out);
   (UpdateApplication, mc_update_application);
   (DeleteApplication, mc_delete_application)].

(** One kind's disjunct: the equality test alone under a constant-true
    condition, the test and the condition otherwise, nothing under a
    constant-false condition. *)
Definition kind_disjunct (config : CallConfig) (oc : OnComplete) : option Expr :=
  match condition_under_config config with
  | Ok (CInt 1) => Some (Txn on_completion == EnumInt oc)
  | Ok (CExpr c) => Some (And (Txn on_completion == EnumInt oc) c)
  | _ => None
  end.

Definition approval_cond_by_spec (mc : MethodConfig) : CondVal :=
  if forallb (fun k => (snd k mc =? NEVER)%Z) approval_kinds then CInt 0
  else if forallb (fun k => (snd k mc =? ALL)%Z) approval_kinds then CInt 1
  else
    CExpr (Or (omap (fun k => kind_disjunct (snd k mc) (fst k))
                 (filter (fun k => snd k mc ≠ NEVER) approval_kinds))).

(** One of the four enumerants. *)
Definition is_enumerant (cc : CallConfig) : bool :=
  bool_decide (cc ∈ [NEVER; CALL; CREATE; ALL]).

(** ** Reading the marshaling instructions *)

Definition is_Decode (e : Expr) : bool :=
  match e with Decode _ _ => true | _ => false end.

Definition is_Transaction_set (e : Expr) : bool :=
  match e with Transaction_set _ _ => true | _ => false end.

Definition is_store_into (e : Expr) : bool :=
  match e with TupleElement_store_into _ _ => true | _ => false end.

(** The call-argument slot a decode instruction reads. *)
Definition decode_slot (e : Expr) : option nat :=
  match e with Decode _ (Txn_application_args i) => Some i | _ => None end.

(** The value object an instruction writes. *)
Definition written (e : Expr) : option BaseType :=
  match e with
  | Decode v _ | Transaction_set v _ | TupleElement_store_into _ v => Some v
  | _ => None
  end.

(** [v.decode(Txn.application_args[slot])] for a pair [(v, slot)]. *)
Definition decode_of (p : BaseType * nat) : Expr :=
  Decode (fst p) (Txn_application_args (snd p)).

(** [t.set(Txn.group_index() - Int(n))] for a pair [(t, n)]. *)
Definition set_of (p : BaseType * Z) : Expr :=
  Transaction_set (fst p) (BinaryExpr op_minus (Txn group_index) (Int (snd p))).

(** The number of elements of a tuple-typed value object. *)
Definition tuple_length (t : BaseType) : nat :=
  match type_spec t with
  | TupleTypeSpec value_specs => length value_specs
  | _ => 0
  end.

(** [t[i].store_into(target)] for the [i]-th target. *)
Definition store_of (t : BaseType) (i : nat) (target : BaseType) : Expr :=
  TupleElement_store_into (Tuple_element t i) target.

(** What is left of the handler body after the marshaling instructions
    (lines 419-437). *)
Definition call_and_approve (handler : ABIReturnSubroutine) (arg_vals : list BaseType)
    : list Expr :=
  match abi_type_of handler with
  | None => [ABICall handler arg_vals; Approve]
  | Some abi_type =>
      let output := new_instance output_temp abi_type in
      [ReturnedValue_store_into (ABICall handler arg_vals) output;
       MethodReturn output;
       Approve]
  end.

(** ** Concrete collaborators and handlers *)

(** An indexing that rejects an index outside the tuple. *)
Definition Tuple_getitem_checked (t : BaseType) (i : nat) : Result TupleElement :=
  if decide (i < tuple_length t) then Ok (Tuple_element t i)
  else Raise (TealInputError (raised_outside "Index out of bounds")).

(** An indexing that never rejects. *)
Definition Tuple_getitem_unchecked (t : BaseType) (i : nat) : Result TupleElement :=
  Ok (Tuple_element t i).

(** A stand-in checksum and codec for worked examples. *)
Definition example_checksum (b : bytes) : bytes := b.
Definition example_decode (ts : TypeSpec) (b : bytes) : option AbiVal :=
  Some (abi_atom b).

Definition uint64 : TypeSpec := BasicTypeSpec "uint64".

(** [add(uint64,uint64)uint64] *)
Definition add_method : ABIReturnSubroutine :=
  {| abi_name := "add";
     abi_type_of := Some uint64;
     abi_argument_count := 2;
     is_abi_routable := true;
     expected_arg_types := [uint64; uint64];
     method_signature := fun overriding_name =>
       Ok (default "add" overriding_name +:+ "(uint64,uint64)uint64") |}.

(** A void method taking a transaction and then sixteen [uint64]. *)
Definition txn_then_16 : ABIReturnSubroutine :=
  {| abi_name := "f";
     abi_type_of := None;
     abi_argument_count := 17;
     is_abi_routable := true;
     expected_arg_types := TransactionTypeSpec "txn" :: replicate 16 uint64;
     method_signature := fun overriding_name =>
       Ok (default "f" overriding_name +:+
           "(txn,uint64,uint64,uint64,uint64,uint64,uint64,uint64,uint64,"
           +:+ "uint64,uint64,uint64,uint64,uint64,uint64,uint64,uint64)void") |}.

(** A void method taking sixteen [uint64]. *)
Definition sixteen_uint64 : ABIReturnSubroutine :=
  {| abi_name := "g";
     abi_type_of := None;
     abi_argument_count := 16;
     is_abi_routable := true;
     expected_arg_types := replicate 16 uint64;
     method_signature := fun overriding_name =>
       Ok (default "g" overriding_name +:+
           "(uint64,uint64,uint64,uint64,uint64,uint64,uint64,uint64,"
           +:+ "uint64,uint64,uint64,uint64,uint64,uint64,uint64,uint64)void") |}.

(** A void method taking a [uint64], a payment and an asset transfer. *)
Definition pay_and_transfer : ABIReturnSubroutine :=
  {| abi_name := "swap";
     abi_type_of := None;
     abi_argument_count := 3;
     is_abi_routable := true;
     expected_arg_types :=
       [uint64; TransactionTypeSpec "pay"; TransactionTypeSpec "axfer"];
     method_signature := fun overriding_name =>
       Ok (default "swap" overriding_name +:+ "(uint64,pay,axfer)void") |}.

(** [deposit(pay,uint64)void] *)
Definition deposit_method : ABIReturnSubroutine :=
  {| abi_name := "deposit";
     abi_type_of := None;
     abi_argument_count := 2;
     is_abi_routable := true;
     expected_arg_types := [TransactionTypeSpec "pay"; uint64];
     method_signature := fun overriding_name =>
       Ok (default "deposit" overriding_name +:+ "(pay,uint64)void") |}.

(** An expression handler of type none that does not return by itself. *)
Definition log_expr : UserExpr :=
  {| expr_label := "Log"; expr_type_of := TealType_none; expr_has_return := false |}.

(** A router with nothing in it: [Router(name)]. *)
Definition empty_router (name : string) : Router :=
  {| name := name;
     approval_ast := {| conditions_n_branches := [] |};
     clear_state_ast := {| conditions_n_branches := [] |};
     method_sig_to_selector := ∅;
     method_selector_to_sig := ∅ |}.

(** ** Further readings of the code *)

(** The handlers the bare mode of [wrap_handler] accepts (lines 313-340):
    an expression of type none, a subroutine of type none with no
    argument, an ABI subroutine that is void with no argument. *)
Definition bare_handler_ok (h : Handler) : bool :=
  match h with
  | HNone => false
  | HExpr e => bool_decide (expr_type_of e = TealType_none)
  | HSubroutine s =>
      bool_decide (subroutine_type_of s = TealType_none) &&
      bool_decide (subroutine_argument_count s = 0)
  | HABIReturn a =>
      negb (bool_decide (is_Some (abi_type_of a))) &&
      bool_decide (abi_argument_count a = 0)
  end.

(** An action the bare-call constructions accept: an empty one, or one
    whose handler the bare mode of [wrap_handler] accepts and whose
    permission is CALL, CREATE or ALL (lines 217-234, 244-269). *)
Definition bare_action_ok (oca : OnCompleteAction) : bool :=
  OnCompleteAction_is_empty oca ||
  (bare_handler_ok (action oca) &&
   bool_decide (call_config oca ∈ [CALL; CREATE; ALL])).

(** The five completion kinds [approval_construction] walks through, in
    its order, each with the field of [BareCallActions] it reads. *)
Definition bare_approval_kinds : list (OnComplete * (BareCallActions -> OnCompleteAction)) :=
  [(NoOp, bc_no_op); (OptIn, bc_opt_in); (CloseOut, bc_close_out);
   (UpdateApplication, bc_update_application);
   (DeleteApplication, bc_delete_application)].

(** What [add_method_to_ast] adds to a tree for a guard and a wrapped
    handler when it returns (lines 443-456). *)
Definition method_entries (sig : string) (cond : CondVal) (wrapped : Expr)
    : list CondNode :=
  match cond with
  | CExpr c =>
      [{| condition := walk_in_cond sig; branch := Seq [Assert c; wrapped] |}]
  | CInt 1 => [{| condition := walk_in_cond sig; branch := wrapped |}]
  | CInt _ => []
  end.

(** The router once both trees have taken the entries of a method
    (lines 541-553, when [add_method_to_ast] returns twice). *)
Definition with_method_entries (self : Router) (sig : string) (ca cc : CondVal)
    (wrapped : Expr) : Router :=
  {| name := name self;
     approval_ast :=
       {| conditions_n_branches :=
            conditions_n_branches (approval_ast self) ++ method_entries sig ca wrapped |};
     clear_state_ast :=
       {| conditions_n_branches :=
            conditions_n_branches (clear_state_ast self) ++ method_entries sig cc wrapped |};
     method_sig_to_selector := method_sig_to_selector self;
     method_selector_to_sig := method_selector_to_sig self |}.

(** The signature a method entry of a tree dispatches on. *)
Definition entry_sig (n : CondNode) : option string :=
  match condition n with
  | BinaryExpr op_eq (Txn_application_args 0) (MethodSignature sig) => Some sig
  | _ => None
  end.


(** * Properties *)

(** ** CallConfig *)

Lemma is_enumerant_cases cc :
  is_enumerant cc = true -> cc = NEVER ∨ cc = CALL ∨ cc = CREATE ∨ cc = ALL.
Proof.
  unfold is_enumerant. intros H%bool_decide_eq_true.
  rewrite !elem_of_cons, elem_of_nil in H. tauto.
Qed.

Lemma condition_under_config_outside cc :
  is_enumerant cc = false ->
  condition_under_config cc = Raise (TealInternalError unexpected_CallConfig).
Proof.
  unfold is_enumerant. intros H%bool_decide_eq_false.
  rewrite !not_elem_of_cons in H. destruct H as (? & ? & ? & ? & _).
  unfold condition_under_config.
  destruct (Z.eqb_spec cc NEVER); [done|].
  destruct (Z.eqb_spec cc CALL); [done|].
  destruct (Z.eqb_spec cc CREATE); [done|].
  destruct (Z.eqb_spec cc ALL); [done|].
  reflexivity.
Qed.

(** C6: [condition_under_config] sends NEVER to the constant 0, ALL to the
    constant 1, CALL to the test "application id is not 0" and CREATE to the
    test "application id is 0"; whatever the application id, exactly one of
    the two tests holds; and a value that is none of the four enumerants
    raises [TealInternalError], never [TealInputError]. *)
Theorem condition_under_config_spec :
  condition_under_config NEVER = Ok (CInt 0) ∧
  condition_under_config ALL = Ok (CInt 1) ∧
  condition_under_config CALL = Ok (CExpr (Txn application_id != Int 0)) ∧
  condition_under_config CREATE = Ok (CExpr (Txn application_id == Int 0)) ∧
  (∀ ctx,
     (ctx_application_id ctx ≠ 0%Z ∧
      eval ctx (Txn application_id != Int 0) = Some 1%Z ∧
      eval ctx (Txn application_id == Int 0) = Some 0%Z) ∨
     (ctx_application_id ctx = 0%Z ∧
      eval ctx (Txn application_id != Int 0) = Some 0%Z ∧
      eval ctx (Txn application_id == Int 0) = Some 1%Z)) ∧
  (∀ cc, is_enumerant cc = false ->
     condition_under_config cc = Raise (TealInternalError unexpected_CallConfig)).
Proof.
  repeat split; try reflexivity.
  - intros ctx. cbn.
    destruct (Z.eqb_spec (ctx_application_id ctx) 0) as [->|Hne]; cbn; auto.
  - apply condition_under_config_outside.
Qed.

(** ** MethodConfig *)

Lemma config_oc_pairs_kinds mc :
  config_oc_pairs mc = (fun k => (snd k mc, fst k)) <$> approval_kinds.
Proof. reflexivity. Qed.

Lemma kind_disjunct_NEVER oc : kind_disjunct NEVER oc = None.
Proof. reflexivity. Qed.

Lemma omap_filter_None {A B} (f : A -> option B) (P : A -> Prop)
    `{∀ x, Decision (P x)} (l : list A) :
  (∀ x, ¬ P x -> f x = None) -> omap f (filter P l) = omap f l.
Proof.
  intros Hf. induction l as [|x l IH]; [done|].
  rewrite filter_cons. destruct (decide (P x)) as [HP|HP]; cbn.
  - by rewrite IH.
  - by rewrite (Hf x HP).
Qed.

(** The loop adds one disjunct per kind, in order, and skips the kinds
    whose condition is the constant 0. *)
Lemma approval_cond_loop_spec mc (kinds : list (OnComplete * (MethodConfig -> CallConfig)))
    (cond_list : list Expr) :
  forallb (fun k => is_enumerant (snd k mc)) kinds = true ->
  approval_cond_loop ((fun k => (snd k mc, fst k)) <$> kinds) cond_list =
  Ok (cond_list ++ omap (fun k => kind_disjunct (snd k mc) (fst k)) kinds).
Proof.
  revert cond_list. induction kinds as [|[oc field] kinds IH]; intros cond_list Hv.
  - cbn. by rewrite app_nil_r.
  - cbn in Hv. apply andb_true_iff in Hv as [Hcc Hv].
    cbn [fmap list_fmap approval_cond_loop fst snd omap list_omap].
    destruct (is_enumerant_cases _ Hcc) as [E|[E|[E|E]]]; rewrite E; cbn;
      rewrite IH by done; try done; by rewrite <- app_assoc.
Qed.

(** Outside the enumerants the loop raises, at the first such field. *)
Lemma approval_cond_loop_outside mc (kinds : list (OnComplete * (MethodConfig -> CallConfig)))
    (cond_list : list Expr) :
  forallb (fun k => is_enumerant (snd k mc)) kinds = false ->
  approval_cond_loop ((fun k => (snd k mc, fst k)) <$> kinds) cond_list =
  Raise (TealInternalError unexpected_CallConfig).
Proof.
  revert cond_list. induction kinds as [|[oc field] kinds IH]; intros cond_list Hv;
    [done|].
  cbn in Hv. cbn [fmap list_fmap approval_cond_loop fst snd].
  destruct (is_enumerant (field mc)) eqn:Hcc.
  - destruct (is_enumerant_cases _ Hcc) as [E|[E|[E|E]]]; rewrite E; cbn;
      by rewrite IH.
  - by rewrite (condition_under_config_outside _ Hcc).
Qed.

Lemma approval_cond_all mc (c : CallConfig) :
  forallb (fun p : CallConfig * OnComplete => (fst p =? c)%Z) (config_oc_pairs mc) =
  forallb (fun k => (snd k mc =? c)%Z) approval_kinds.
Proof. reflexivity. Qed.

(** Over the enumerants [approval_cond] is the guard of the specification. *)
Lemma approval_cond_of_enumerants mc :
  forallb (fun k => is_enumerant (snd k mc)) approval_kinds = true ->
  approval_cond mc = Ok (approval_cond_by_spec mc).
Proof.
  intros Hv. unfold approval_cond, approval_cond_by_spec.
  rewrite !approval_cond_all.
  destruct (forallb (fun k => (snd k mc =? NEVER)%Z) approval_kinds); [done|].
  destruct (forallb (fun k => (snd k mc =? ALL)%Z) approval_kinds); [done|].
  rewrite config_oc_pairs_kinds, approval_cond_loop_spec by done.
  cbn [mbind Result_bind app].
  rewrite omap_filter_None; [done|].
  intros k Hk. apply dec_stable in Hk. rewrite Hk. apply kind_disjunct_NEVER.
Qed.

Lemma approval_cond_outside mc :
  forallb (fun k => is_enumerant (snd k mc)) approval_kinds = false ->
  approval_cond mc = Raise (TealInternalError unexpected_CallConfig).
Proof.
  intros Hv. unfold approval_cond. rewrite !approval_cond_all.
  destruct (forallb (fun k => (snd k mc =? NEVER)%Z) approval_kinds) eqn:Hn.
  { exfalso. cbn in Hv, Hn. rewrite !andb_true_iff in Hn.
    destruct Hn as (H1 & H2 & H3 & H4 & H5 & _).
    apply Z.eqb_eq in H1, H2, H3, H4, H5. by rewrite H1, H2, H3, H4, H5 in Hv. }
  destruct (forallb (fun k => (snd k mc =? ALL)%Z) approval_kinds) eqn:Ha.
  { exfalso. cbn in Hv, Ha. rewrite !andb_true_iff in Ha.
    destruct Ha as (H1 & H2 & H3 & H4 & H5 & _).
    apply Z.eqb_eq in H1, H2, H3, H4, H5. by rewrite H1, H2, H3, H4, H5 in Hv. }
  by rewrite config_oc_pairs_kinds, approval_cond_loop_outside.
Qed.

(** C5: [approval_cond] looks at the five approval kinds NoOp, OptIn,
    CloseOut, UpdateApplication and DeleteApplication (not ClearState).
    When their permissions are enumerants it is the guard the
    specification describes: the constant 0 when all five are NEVER, the
    constant 1 when all five are ALL, and otherwise the disjunction, over
    the kinds that are not NEVER and in that order, of the test
    [on_completion == kind] together with the kind's condition, the test
    alone when the condition is the constant 1. (With a permission that is
    no enumerant it raises [TealInternalError].) [clear_state_cond] is the
    condition of the ClearState field. *)
Theorem approval_cond_spec (mc : MethodConfig) :
  fst <$> approval_kinds =
    [NoOp; OptIn; CloseOut; UpdateApplication; DeleteApplication] ∧
  config_oc_pairs mc = (fun k => (snd k mc, fst k)) <$> approval_kinds ∧
  (forallb (fun k => is_enumerant (snd k mc)) approval_kinds = true ->
   approval_cond mc = Ok (approval_cond_by_spec mc)) ∧
  (forallb (fun k => is_enumerant (snd k mc)) approval_kinds = false ->
   approval_cond mc = Raise (TealInternalError unexpected_CallConfig)) ∧
  (forallb (fun k => (snd k mc =? NEVER)%Z) approval_kinds = true ->
   approval_cond mc = Ok (CInt 0)) ∧
  (forallb (fun k => (snd k mc =? ALL)%Z) approval_kinds = true ->
   approval_cond mc = Ok (CInt 1)) ∧
  clear_state_cond mc = condition_under_config (mc_clear_state mc).
Proof.
  split; [done|]. split; [done|].
  split; [apply approval_cond_of_enumerants|].
  split; [apply approval_cond_outside|].
  split; [|split; [|done]].
  - intros Hn. unfold approval_cond. by rewrite approval_cond_all, Hn.
  - intros Ha. unfold approval_cond. rewrite !approval_cond_all, Ha.
    destruct (forallb (fun k => (snd k mc =? NEVER)%Z) approval_kinds) eqn:Hn; [|done].
    cbn in Ha, Hn. apply andb_true_iff in Ha as [Ha _], Hn as [Hn _].
    apply Z.eqb_eq in Ha, Hn. unfold ALL, NEVER in *. lia.
Qed.

(** ** OnCompleteAction *)

(** C9: constructing an [OnCompleteAction] succeeds exactly when a handler
    is given if and only if the permission is not NEVER. A handler with
    NEVER, and a permission other than NEVER with no handler, both raise
    [TealInputError]; so an action that was constructed has a handler if and
    only if its permission is not NEVER. *)
Theorem OnCompleteAction_init_spec (a : Handler) (cc : CallConfig) :
  (is_Ok (OnCompleteAction_init a cc) = true ↔ (a ≠ HNone ↔ cc ≠ NEVER)) ∧
  (a ≠ HNone ∧ cc = NEVER ->
   OnCompleteAction_init a cc =
   Raise (TealInputError action_and_call_config_contradicts)) ∧
  (a = HNone ∧ cc ≠ NEVER ->
   OnCompleteAction_init a cc =
   Raise (TealInputError action_and_call_config_contradicts)) ∧
  (∀ oca, OnCompleteAction_init a cc = Ok oca ->
     action oca = a ∧ call_config oca = cc ∧
     (action oca ≠ HNone ↔ call_config oca ≠ NEVER)).
Proof.
  assert (Hh : Handler_bool a = true ↔ a ≠ HNone) by (by destruct a).
  assert (Hc : CallConfig_bool cc = true ↔ cc ≠ NEVER).
  { unfold CallConfig_bool, NEVER. by destruct (Z.eqb_spec cc 0). }
  unfold OnCompleteAction_init.
  destruct (Handler_bool a), (CallConfig_bool cc); cbn;
    (split; [|split; [|split]]);
    try (intros oca [= <-]; cbn); intuition congruence.
Qed.

Lemma OnCompleteAction_never_action : OnCompleteAction_never = Ok never_action.
Proof. reflexivity. Qed.

(** ** The argument marshaler *)

Lemma slice_from_nonneg {A} (n : Z) (l : list A) :
  (0 <= n)%Z -> slice_from n l = drop (Z.to_nat n) l.
Proof.
  intros Hn. unfold slice_from, slice_bound.
  by destruct (Z.ltb_spec n 0); [lia|].
Qed.

Lemma slice_to_nonneg {A} (n : Z) (l : list A) :
  (0 <= n)%Z -> slice_to n l = take (Z.to_nat n) l.
Proof.
  intros Hn. unfold slice_to, slice_bound.
  by destruct (Z.ltb_spec n 0); [lia|].
Qed.

Lemma list_last_snoc {A} (l : list A) (x : A) : list_last (l ++ [x]) = Ok x.
Proof. unfold list_last. by rewrite last_snoc. Qed.

Lemma filter_all {A} (P : A -> Prop) `{∀ x, Decision (P x)} (l : list A) :
  Forall P l -> filter P l = l.
Proof.
  induction 1 as [|x l Hx _ IH]; [done|].
  by rewrite filter_cons_True, IH.
Qed.

Lemma filter_none {A} (P : A -> Prop) `{∀ x, Decision (P x)} (l : list A) :
  Forall (fun x => ¬ P x) l -> filter P l = [].
Proof.
  induction 1 as [|x l Hx _ IH]; [done|].
  by rewrite filter_cons_False.
Qed.

(** A filter leaves a prefix alone when all of the prefix passes. *)
Lemma filter_lookup_prefix {A} (P : A -> Prop) `{∀ x, Decision (P x)}
    (l : list A) (p : nat) :
  Forall P (take (S p) l) -> filter P l !! p = l !! p.
Proof.
  revert p. induction l as [|x l IH]; intros p Hp; [done|].
  cbn [take] in Hp. apply Forall_cons in Hp as [Hx Hp].
  rewrite filter_cons_True by done.
  destruct p as [|p]; [done|]. cbn. apply IH, Hp.
Qed.

#[local] Instance arg_val_inj : Inj (=) (=) arg_val.
Proof. by intros i j [= ->]. Qed.

Lemma arg_vals_of_lookup ts i v :
  arg_vals_of ts !! i = Some v ↔
  ∃ t, ts !! i = Some t ∧ v = new_instance (arg_val i) t.
Proof.
  unfold arg_vals_of. rewrite list_lookup_imap_Some. reflexivity.
Qed.

Lemma arg_vals_of_length ts : length (arg_vals_of ts) = length ts.
Proof. apply length_imap. Qed.

Lemma arg_vals_of_instances ts :
  instance <$> arg_vals_of ts = arg_val <$> seq 0 (length ts).
Proof.
  unfold arg_vals_of. rewrite fmap_imap.
  rewrite <- (imap_seq_0 ts arg_val). by apply imap_ext.
Qed.

(** The value objects of the arguments are pairwise distinct. *)
Lemma arg_vals_of_NoDup ts : NoDup (instance <$> arg_vals_of ts).
Proof.
  rewrite arg_vals_of_instances. apply NoDup_fmap_2; [apply _|apply NoDup_seq].
Qed.

Lemma app_arg_vals_of_NoDup ts :
  NoDup (instance <$> app_arg_vals_of (arg_vals_of ts)).
Proof.
  apply (sublist_NoDup _ _ (arg_vals_of_NoDup ts)).
  apply fmap_sublist, sublist_filter.
Qed.

Lemma txn_arg_vals_of_NoDup ts :
  NoDup (instance <$> txn_arg_vals_of (arg_vals_of ts)).
Proof.
  apply (sublist_NoDup _ _ (arg_vals_of_NoDup ts)).
  apply fmap_sublist, sublist_filter.
Qed.

Lemma app_decode_instructions_pairs l :
  app_decode_instructions l = decode_of <$> imap (fun i v => (v, i + 1)) l.
Proof. unfold app_decode_instructions. by rewrite fmap_imap. Qed.

Lemma app_decode_instructions_length l :
  length (app_decode_instructions l) = length l.
Proof. apply length_imap. Qed.

Lemma app_decode_instructions_all_Decode l :
  Forall (fun e => is_Decode e) (app_decode_instructions l).
Proof.
  apply Forall_forall. intros e He.
  apply elem_of_lookup_imap_1 in He as (i & v & -> & _). done.
Qed.

Lemma txn_decode_instructions_no_Decode l :
  Forall (fun e => ¬ is_Decode e) (txn_decode_instructions l).
Proof.
  apply Forall_forall. intros e He.
  apply elem_of_lookup_imap_1 in He as (i & v & -> & _). by intros [].
Qed.

Lemma call_and_approve_no_Decode handler arg_vals :
  Forall (fun e => ¬ is_Decode e) (call_and_approve handler arg_vals).
Proof.
  unfold call_and_approve. destruct (abi_type_of handler);
    repeat constructor; by intros [].
Qed.

(** The slots read by the decode instructions are 1, 2, ... in order. *)
Lemma app_decode_instructions_slots l :
  omap decode_slot (app_decode_instructions l) = seq 1 (length l).
Proof.
  unfold app_decode_instructions.
  assert (G : ∀ (f : nat -> nat) s,
             (∀ i, f i = s + i) ->
             omap decode_slot (imap (fun i v => Decode v (Txn_application_args (f i))) l)
             = seq s (length l)).
  { induction l as [|x l IH]; intros f s Hf; [done|].
    rewrite imap_cons. cbn. rewrite Hf, Nat.add_0_r. f_equal.
    apply (IH (f ∘ S) (S s)). intros i. cbn. rewrite Hf. lia. }
  apply (G (fun i => i + 1) 1). intros i. lia.
Qed.

Lemma omap_decode_slot_none l :
  Forall (fun e => ¬ is_Decode e) l -> omap decode_slot l = [].
Proof.
  induction 1 as [|e l He _ IH]; [done|].
  cbn. rewrite IH. by destruct e.
Qed.

(** With at most [METHOD_ARG_NUM_CUTOFF] direct arguments nothing is
    packed: the instructions are the decodes of the direct arguments and
    then the settings of the transaction arguments. *)
Lemma decode_instructions_of_plain arg_vals :
  tuplify_of (app_arg_vals_of arg_vals) = false ->
  decode_instructions_of arg_vals =
  Ok (app_decode_instructions (app_arg_vals_of arg_vals) ++
      txn_decode_instructions (txn_arg_vals_of arg_vals)).
Proof.
  intros Ht. unfold decode_instructions_of, app_arg_vals_tuplified. rewrite Ht.
  case_bool_decide as Hk; [done|].
  destruct (txn_arg_vals_of arg_vals); [by rewrite app_nil_r|cbn in Hk; lia].
Qed.

Lemma wrap_method_handler_body handler instrs :
  is_abi_routable handler = true ->
  decode_instructions_of (arg_vals_of (expected_arg_types handler)) = Ok instrs ->
  wrap_handler true (HABIReturn handler) =
  Ok (Seq (instrs ++
           call_and_approve handler (arg_vals_of (expected_arg_types handler)))).
Proof.
  intros Hr Hi. unfold wrap_handler, wrap_method_handler, call_and_approve.
  cbn. rewrite Hr, Hi. cbn. by destruct (abi_type_of handler).
Qed.

Lemma exec_all_app ctx l1 l2 σ :
  exec_all ctx (l1 ++ l2) σ = exec_all ctx l1 σ ≫= exec_all ctx l2.
Proof.
  revert σ. induction l1 as [|e l1 IH]; intros σ; [done|].
  cbn. destruct (exec ctx e σ); cbn; [apply IH|done].
Qed.

(** Running decode instructions on pairwise distinct value objects: each
    object ends up holding what the codec reads from its slot, and no other
    object is touched. *)
Lemma exec_all_decode_of ctx (ps : list (BaseType * nat)) σ σ' :
  NoDup ((fun p => instance (fst p)) <$> ps) ->
  exec_all ctx (decode_of <$> ps) σ = Some σ' ->
  (∀ v s, (v, s) ∈ ps ->
     ∃ b x, ctx_application_args ctx !! s = Some b ∧
            abi_decode (type_spec v) b = Some x ∧
            σ' (instance v) = Some x) ∧
  (∀ j, j ∉ (fun p => instance (fst p)) <$> ps -> σ' j = σ j).
Proof.
  revert σ. induction ps as [|[v s] ps IH]; intros σ Hnd Hex.
  - cbn in Hex. injection Hex as <-. split; [|done].
    intros ? ? H. by apply elem_of_nil in H.
  - rewrite fmap_cons in Hnd. apply NoDup_cons in Hnd as [Hv Hnd].
    cbn in Hex.
    destruct (ctx_application_args ctx !! s) as [b|] eqn:Hb; [|done]. cbn in Hex.
    destruct (abi_decode (type_spec v) b) as [x|] eqn:Hx; [|done]. cbn in Hex.
    destruct (IH _ Hnd Hex) as [IH1 IH2]. split.
    + intros v' s' [[= -> ->]|Hin]%elem_of_cons; [|by apply IH1].
      exists b, x. repeat split; try done.
      rewrite IH2 by done. unfold store_set. by rewrite decide_True.
    + intros j Hj. rewrite fmap_cons in Hj. apply not_elem_of_cons in Hj as [Hj1 Hj2].
      rewrite IH2 by done. unfold store_set. by rewrite decide_False.
Qed.

Lemma exec_all_decode_of_runs ctx (ps : list (BaseType * nat)) σ :
  (∀ v s, (v, s) ∈ ps ->
     ∃ b x, ctx_application_args ctx !! s = Some b ∧
            abi_decode (type_spec v) b = Some x) ->
  is_Some (exec_all ctx (decode_of <$> ps) σ).
Proof.
  revert σ. induction ps as [|[v s] ps IH]; intros σ Hps; [by eexists|].
  destruct (Hps v s) as (b & x & Hb & Hx); [by left|].
  cbn. rewrite Hb. cbn. rewrite Hx. cbn. apply IH.
  intros v' s' Hin. apply Hps. by right.
Qed.

Lemma imap_pairs_instances (l : list BaseType) (f : nat -> nat) :
  (fun p => instance (fst p)) <$> imap (fun i v => (v, f i)) l = instance <$> l.
Proof.
  rewrite fmap_imap, <- imap_const. by apply imap_ext.
Qed.

Lemma elem_of_imap_pairs (l : list BaseType) (f : nat -> nat) v s :
  (v, s) ∈ imap (fun i v => (v, f i)) l ↔ ∃ i, l !! i = Some v ∧ s = f i.
Proof.
  rewrite elem_of_lookup_imap. split.
  - intros (i & w & [= -> ->] & Hi). by exists i.
  - intros (i & Hi & ->). by exists i, v.
Qed.

(** C2, amended: a routable method whose number [d] of direct
    (non-transaction) arguments is at most the cutoff is wrapped into a
    sequence that holds exactly [d] decode instructions. They come first, in
    the order of the direct arguments; the [i]-th (from 0) decodes the
    [i]-th direct argument from call-argument slot [i + 1], its position
    among the direct arguments plus one, so the slots read are 1, ..., [d];
    this is its parameter position plus one when no transaction argument
    comes before it. Run on a transaction, each decode leaves in its value
    object what the codec reads from its slot at the argument's type, and
    the decodes run whenever every slot 1..d holds such an encoding. *)
Theorem wrap_handler_decodes_direct_args (handler : ABIReturnSubroutine) :
  let arg_vals := arg_vals_of (expected_arg_types handler) in
  let direct := app_arg_vals_of arg_vals in
  let d := length direct in
  is_abi_routable handler = true ->
  (Z.of_nat d <= METHOD_ARG_NUM_CUTOFF)%Z ->
  ∃ body,
    wrap_handler true (HABIReturn handler) = Ok (Seq body) ∧
    filter (fun e => is_Decode e) body =
      imap (fun i v => Decode v (Txn_application_args (i + 1))) direct ∧
    take d body = filter (fun e => is_Decode e) body ∧
    length (filter (fun e => is_Decode e) body) = d ∧
    omap decode_slot body = seq 1 d ∧
    (∀ p v, arg_vals !! p = Some v ->
       Forall (fun w => ¬ is_Transaction w) (take (S p) arg_vals) ->
       body !! p = Some (Decode v (Txn_application_args (p + 1)))) ∧
    (∀ ctx σ σ', exec_all ctx (take d body) σ = Some σ' ->
       ∀ i v, direct !! i = Some v ->
         ∃ b x, ctx_application_args ctx !! (i + 1) = Some b ∧
                abi_decode (type_spec v) b = Some x ∧
                σ' (instance v) = Some x) ∧
    (∀ ctx σ,
       (∀ i v, direct !! i = Some v ->
          ∃ b x, ctx_application_args ctx !! (i + 1) = Some b ∧
                 abi_decode (type_spec v) b = Some x) ->
       is_Some (exec_all ctx (take d body) σ)).
Proof.
  intros arg_vals direct d Hr Hd.
  assert (Ht : tuplify_of direct = false).
  { unfold tuplify_of. apply bool_decide_eq_false. fold d. lia. }
  set (decodes := app_decode_instructions direct).
  set (rest := txn_decode_instructions (txn_arg_vals_of arg_vals) ++
               call_and_approve handler arg_vals).
  assert (Hrest : Forall (fun e => ¬ is_Decode e) rest).
  { apply Forall_app. split;
      [apply txn_decode_instructions_no_Decode|apply call_and_approve_no_Decode]. }
  assert (Hfilter : filter (fun e => is_Decode e) (decodes ++ rest) = decodes).
  { rewrite filter_app, (filter_none _ rest Hrest), app_nil_r.
    apply filter_all, app_decode_instructions_all_Decode. }
  assert (Htake : take d (decodes ++ rest) = decodes).
  { apply take_app_length'. symmetry. apply app_decode_instructions_length. }
  exists (decodes ++ rest). split; [|split; [|split; [|split; [|split; [|split; [|split]]]]]].
  - rewrite (wrap_method_handler_body handler _ Hr (decode_instructions_of_plain _ Ht)).
    unfold decodes, rest. by rewrite <- app_assoc.
  - apply Hfilter.
  - by rewrite Htake, Hfilter.
  - rewrite Hfilter. apply app_decode_instructions_length.
  - rewrite omap_app, (omap_decode_slot_none rest Hrest), app_nil_r.
    apply app_decode_instructions_slots.
  - intros p v Hp Hpre.
    assert (Hdp : direct !! p = Some v).
    { unfold direct, app_arg_vals_of. by rewrite filter_lookup_prefix. }
    rewrite lookup_app_l.
    + unfold decodes, app_decode_instructions. by rewrite list_lookup_imap, Hdp.
    + unfold decodes. rewrite app_decode_instructions_length.
      by eapply lookup_lt_Some.
  - intros ctx σ σ' Hex i v Hi. rewrite Htake in Hex.
    unfold decodes in Hex. rewrite app_decode_instructions_pairs in Hex.
    apply exec_all_decode_of in Hex as [Hex _].
    + apply Hex. apply elem_of_imap_pairs. by exists i.
    + rewrite imap_pairs_instances. apply app_arg_vals_of_NoDup.
  - intros ctx σ Hall. rewrite Htake.
    unfold decodes. rewrite app_decode_instructions_pairs.
    apply exec_all_decode_of_runs.
    intros v s (i & Hi & ->)%elem_of_imap_pairs. by apply Hall.
Qed.

(** *** Transaction arguments *)

Lemma txn_decode_instructions_pairs l :
  txn_decode_instructions l =
  set_of <$> imap (fun i t => (t, (Z.of_nat (length l) - Z.of_nat i)%Z)) l.
Proof. unfold txn_decode_instructions. by rewrite fmap_imap. Qed.

Lemma txn_decode_instructions_length l :
  length (txn_decode_instructions l) = length l.
Proof. apply length_imap. Qed.

Lemma txn_decode_instructions_all_set l :
  Forall (fun e => is_Transaction_set e) (txn_decode_instructions l).
Proof.
  apply Forall_forall. intros e He.
  apply elem_of_lookup_imap_1 in He as (i & v & -> & _). done.
Qed.

Lemma app_decode_instructions_no_set l :
  Forall (fun e => ¬ is_Transaction_set e) (app_decode_instructions l).
Proof.
  apply Forall_forall. intros e He.
  apply elem_of_lookup_imap_1 in He as (i & v & -> & _). by intros [].
Qed.

Lemma call_and_approve_no_set handler arg_vals :
  Forall (fun e => ¬ is_Transaction_set e) (call_and_approve handler arg_vals).
Proof.
  unfold call_and_approve. destruct (abi_type_of handler);
    repeat constructor; by intros [].
Qed.

Lemma store_into_no_set l :
  Forall (fun e => is_store_into e) l -> Forall (fun e => ¬ is_Transaction_set e) l.
Proof. intros H. eapply Forall_impl; [exact H|]. intros e He Hs. by destruct e. Qed.

Lemma store_into_no_Decode l :
  Forall (fun e => is_store_into e) l -> Forall (fun e => ¬ is_Decode e) l.
Proof. intros H. eapply Forall_impl; [exact H|]. intros e He Hs. by destruct e. Qed.

(** The destructuring instructions, when they are built, are stores into
    the given targets, in order. *)
Lemma de_tuple_instructions_shape last_tuple_arg i targets l :
  de_tuple_instructions last_tuple_arg i targets = Ok l ->
  Forall (fun e => is_store_into e) l ∧ omap written l = targets.
Proof.
  revert i l. induction targets as [|target targets IH]; intros i l H; cbn in H.
  - by injection H as <-.
  - destruct (Tuple_getitem last_tuple_arg i) as [e|]; [|done]. cbn in H.
    destruct (de_tuple_instructions last_tuple_arg (S i) targets) as [l'|] eqn:Hl;
      [|done].
    cbn in H. injection H as <-. destruct (IH _ _ Hl) as [IH1 IH2].
    split; [by constructor|]. cbn. by rewrite IH2.
Qed.

(** Whatever [decode_instructions] holds in the end: the decodes of the
    application arguments, the settings of the transaction arguments, and
    the destructuring stores (none unless arguments were packed). *)
Lemma decode_instructions_of_shape arg_vals instrs :
  decode_instructions_of arg_vals = Ok instrs ->
  ∃ de_tuple,
    instrs =
      app_decode_instructions (app_arg_vals_tuplified (app_arg_vals_of arg_vals)) ++
      txn_decode_instructions (txn_arg_vals_of arg_vals) ++ de_tuple ∧
    Forall (fun e => is_store_into e) de_tuple.
Proof.
  unfold decode_instructions_of. intros H.
  set (decodes := app_decode_instructions _) in *.
  set (sets := txn_decode_instructions _) in *.
  assert (E : (if bool_decide (0 < length (txn_arg_vals_of arg_vals))
               then decodes ++ sets else decodes) = decodes ++ sets).
  { case_bool_decide as Hk; [done|]. unfold sets.
    destruct (txn_arg_vals_of arg_vals); [by rewrite app_nil_r|cbn in Hk; lia]. }
  rewrite E in H. clear E.
  destruct (tuplify_of (app_arg_vals_of arg_vals)).
  - destruct (list_last _) as [t|]; [|done]. cbn in H.
    destruct (de_tuple_instructions _ _ _) as [l|] eqn:Hl; [|done].
    cbn in H. injection H as <-. exists l. rewrite <- app_assoc.
    split; [done|]. by apply de_tuple_instructions_shape in Hl as [? _].
  - injection H as <-. exists []. by rewrite app_nil_r.
Qed.

Lemma wrap_method_handler_inv handler body :
  wrap_handler true (HABIReturn handler) = Ok (Seq body) ->
  is_abi_routable handler = true ∧
  ∃ instrs,
    decode_instructions_of (arg_vals_of (expected_arg_types handler)) = Ok instrs ∧
    body = instrs ++ call_and_approve handler (arg_vals_of (expected_arg_types handler)).
Proof.
  unfold wrap_handler, wrap_method_handler, call_and_approve. cbn.
  destruct (is_abi_routable handler); [|done]. cbn.
  destruct (decode_instructions_of _) as [instrs|]; [|done]. cbn.
  intros H. split; [done|]. exists instrs. split; [done|].
  destruct (abi_type_of handler); by injection H as <-.
Qed.

(** No decoded application argument is a transaction. *)
Lemma app_arg_vals_tuplified_no_txn arg_vals :
  Forall (fun v => ¬ is_Transaction v)
    (app_arg_vals_tuplified (app_arg_vals_of arg_vals)).
Proof.
  assert (H : Forall (fun v => ¬ is_Transaction v) (app_arg_vals_of arg_vals)).
  { apply Forall_forall. by intros v [? _]%list_elem_of_filter. }
  unfold app_arg_vals_tuplified. destruct (tuplify_of _); [|done].
  apply Forall_app. split; [by apply Forall_take|].
  constructor; [by intros []|constructor].
Qed.

Lemma eval_group_offset ctx n :
  eval ctx (BinaryExpr op_minus (Txn group_index) (Int n)) =
  if (n <=? ctx_group_index ctx)%Z then Some (ctx_group_index ctx - n)%Z else None.
Proof. reflexivity. Qed.

(** Running the settings of pairwise distinct transaction arguments. *)
Lemma exec_all_set_of ctx (ps : list (BaseType * Z)) σ σ' :
  NoDup ((fun p => instance (fst p)) <$> ps) ->
  exec_all ctx (set_of <$> ps) σ = Some σ' ->
  (∀ t n, (t, n) ∈ ps ->
     (n <= ctx_group_index ctx)%Z ∧
     σ' (instance t) = Some (abi_txn (ctx_group_index ctx - n))) ∧
  (∀ j, j ∉ (fun p => instance (fst p)) <$> ps -> σ' j = σ j).
Proof.
  revert σ. induction ps as [|[t n] ps IH]; intros σ Hnd Hex.
  - cbn in Hex. injection Hex as <-. split; [|done].
    intros ? ? H. by apply elem_of_nil in H.
  - rewrite fmap_cons in Hnd. apply NoDup_cons in Hnd as [Hv Hnd].
    cbn in Hex. destruct (Z.leb_spec n (ctx_group_index ctx)) as [Hn|Hn]; [|done].
    cbn in Hex. destruct (IH _ Hnd Hex) as [IH1 IH2]. split.
    + intros t' n' [[= -> ->]|Hin]%elem_of_cons; [|by apply IH1].
      split; [done|]. rewrite IH2 by done. unfold store_set. by rewrite decide_True.
    + intros j Hj. rewrite fmap_cons in Hj. apply not_elem_of_cons in Hj as [Hj1 Hj2].
      rewrite IH2 by done. unfold store_set. by rewrite decide_False.
Qed.

Lemma exec_all_set_of_runs ctx (ps : list (BaseType * Z)) σ :
  (∀ t n, (t, n) ∈ ps -> (n <= ctx_group_index ctx)%Z) ->
  is_Some (exec_all ctx (set_of <$> ps) σ).
Proof.
  revert σ. induction ps as [|[t n] ps IH]; intros σ Hps; [by eexists|].
  cbn. destruct (Z.leb_spec n (ctx_group_index ctx)) as [Hn|Hn].
  - cbn. apply IH. intros t' n' Hin. apply (Hps t' n'). by right.
  - assert (n <= ctx_group_index ctx)%Z by (apply (Hps t); by left). lia.
Qed.

Lemma imap_pairs_instances_Z (l : list BaseType) (f : nat -> Z) :
  (fun p => instance (fst p)) <$> imap (fun i v => (v, f i)) l = instance <$> l.
Proof.
  rewrite fmap_imap, <- imap_const. by apply imap_ext.
Qed.

Lemma elem_of_imap_pairs_Z (l : list BaseType) (f : nat -> Z) v s :
  (v, s) ∈ imap (fun i v => (v, f i)) l ↔ ∃ i, l !! i = Some v ∧ s = f i.
Proof.
  rewrite elem_of_lookup_imap. split.
  - intros (i & w & [= -> ->] & Hi). by exists i.
  - intros (i & Hi & ->). by exists i, v.
Qed.

Lemma length_filter_Forall {A} (P : A -> Prop) `{∀ x, Decision (P x)} (l : list A) :
  length (filter P l) = length l -> Forall P l.
Proof.
  induction l as [|x l IH]; [done|].
  rewrite filter_cons. destruct (decide (P x)) as [HP|HP]; cbn.
  - intros [= Hl]. constructor; [done|by apply IH].
  - assert (length (filter P l) <= length l) by apply length_filter. lia.
Qed.

(** An indexing that rejects the indexes outside the tuple builds the
    destructuring only when every target has an element. *)
Lemma de_tuple_instructions_bounds t i targets l :
  (∀ j, tuple_length t <= j -> is_Ok (Tuple_getitem t j) = false) ->
  de_tuple_instructions t i targets = Ok l ->
  ∀ j, j < length targets -> i + j < tuple_length t.
Proof.
  intros Hget. revert i l. induction targets as [|target targets IH]; intros i l H j Hj.
  - cbn in Hj. lia.
  - cbn in H. destruct (Tuple_getitem t i) as [e|] eqn:He; [|done]. cbn in H.
    destruct (de_tuple_instructions t (S i) targets) as [l'|] eqn:Hl; [|done].
    destruct j as [|j].
    + destruct (decide (tuple_length t <= i)) as [Hle|]; [|lia].
      apply Hget in Hle. by rewrite He in Hle.
    + cbn in Hj. specialize (IH (S i) l' Hl j). lia.
Qed.

Lemma elem_of_omap_written (l : list Expr) e target :
  TupleElement_store_into e target ∈ l -> target ∈ omap written l.
Proof.
  intros H. apply list_elem_of_omap. by exists (TupleElement_store_into e target).
Qed.

(** With such an indexing (and a cutoff of at least 1) no destructuring
    store writes a transaction argument. *)
Lemma decode_instructions_of_stores_no_txn arg_vals instrs :
  (1 <= METHOD_ARG_NUM_CUTOFF)%Z ->
  (∀ t j, tuple_length t <= j -> is_Ok (Tuple_getitem t j) = false) ->
  decode_instructions_of arg_vals = Ok instrs ->
  ∀ e target, TupleElement_store_into e target ∈ instrs -> ¬ is_Transaction target.
Proof.
  intros Hc Hget Hi e target Hin.
  pose proof (decode_instructions_of_shape _ _ Hi) as (de_tuple & Hinstrs & _).
  unfold decode_instructions_of in Hi.
  destruct (tuplify_of (app_arg_vals_of arg_vals)) eqn:Ht.
  - unfold app_arg_vals_tuplified in Hi. rewrite Ht in Hi.
    rewrite slice_to_nonneg, !slice_from_nonneg in Hi by lia.
    set (c := Z.to_nat (METHOD_ARG_NUM_CUTOFF - 1)) in *.
    rewrite list_last_snoc in Hi. cbn [mbind Result_bind] in Hi.
    destruct (de_tuple_instructions _ 0 (drop c arg_vals)) as [l|] eqn:Hl; [|done].
    cbn in Hi.
    assert (Hinl : TupleElement_store_into e target ∈ l).
    { injection Hi as <-.
      rewrite elem_of_app in Hin. destruct Hin as [Hin|Hin]; [|done].
      exfalso. destruct (bool_decide _).
      - rewrite elem_of_app in Hin. destruct Hin as [Hin|Hin].
        + by apply elem_of_lookup_imap_1 in Hin as (? & ? & [=] & _).
        + by apply elem_of_lookup_imap_1 in Hin as (? & ? & [=] & _).
      - by apply elem_of_lookup_imap_1 in Hin as (? & ? & [=] & _). }
    pose proof (de_tuple_instructions_shape _ _ _ _ Hl) as [_ Hw].
    apply elem_of_omap_written in Hinl. rewrite Hw in Hinl.
    pose proof (de_tuple_instructions_bounds _ _ _ _ (Hget _) Hl) as Hb.
    unfold tuple_length in Hb. cbn in Hb. rewrite length_fmap, !length_drop in Hb.
    assert (Hd : c < length (app_arg_vals_of arg_vals)).
    { unfold tuplify_of in Ht. apply bool_decide_eq_true in Ht. unfold c. lia. }
    assert (Hle : length (app_arg_vals_of arg_vals) <= length arg_vals)
      by apply length_filter.
    assert (Hall : Forall (fun ats => ¬ is_Transaction ats) arg_vals).
    { apply (length_filter_Forall (fun ats => ¬ is_Transaction ats)).
      fold (app_arg_vals_of arg_vals).
      destruct (decide (length arg_vals - c = 0)) as [|Hne]; [lia|].
      specialize (Hb (length arg_vals - c - 1)). lia. }
    rewrite Forall_forall in Hall. apply Hall.
    apply list_elem_of_lookup in Hinl as [j Hj]. rewrite lookup_drop in Hj.
    apply list_elem_of_lookup. by eexists.
  - injection Hi as <-. exfalso. destruct (bool_decide _).
    + rewrite elem_of_app in Hin. destruct Hin as [Hin|Hin].
      * by apply elem_of_lookup_imap_1 in Hin as (? & ? & [=] & _).
      * by apply elem_of_lookup_imap_1 in Hin as (? & ? & [=] & _).
    + by apply elem_of_lookup_imap_1 in Hin as (? & ? & [=] & _).
Qed.

(** C3: transaction arguments are not wire-decoded. Whenever a method is
    wrapped, no decode instruction of the result writes a transaction
    argument (nor does a store of a tuple element, when tuple indexing
    rejects the indexes outside the tuple), and its transaction settings
    are, in declared order, one per transaction argument: the [i]-th of [k]
    (from 0) is set to [Txn.group_index() - Int(k - i)]. A routable method
    with at most the cutoff of direct arguments is wrapped into the decodes,
    then these settings, then the call; running them leaves the [i]-th
    transaction argument at group position [group_index - (k - i)], and
    they run whenever the slots decode and the group index is at least
    [k]. *)
Theorem wrap_handler_resolves_txn_args (handler : ABIReturnSubroutine) :
  let arg_vals := arg_vals_of (expected_arg_types handler) in
  let direct := app_arg_vals_of arg_vals in
  let txns := txn_arg_vals_of arg_vals in
  let k := length txns in
  let offset i := (Z.of_nat k - Z.of_nat i)%Z in
  let resolve i t :=
    Transaction_set t (BinaryExpr op_minus (Txn group_index) (Int (offset i))) in
  (∀ body, wrap_handler true (HABIReturn handler) = Ok (Seq body) ->
     filter (fun e => is_Transaction_set e) body = imap resolve txns ∧
     (∀ v src, Decode v src ∈ body -> ¬ is_Transaction v) ∧
     ((1 <= METHOD_ARG_NUM_CUTOFF)%Z ->
      (∀ t j, tuple_length t <= j -> is_Ok (Tuple_getitem t j) = false) ->
      ∀ e target, TupleElement_store_into e target ∈ body -> ¬ is_Transaction target)) ∧
  (is_abi_routable handler = true ->
   (Z.of_nat (length direct) <= METHOD_ARG_NUM_CUTOFF)%Z ->
   ∃ body,
     wrap_handler true (HABIReturn handler) = Ok (Seq body) ∧
     body = app_decode_instructions direct ++ imap resolve txns ++
            call_and_approve handler arg_vals ∧
     (∀ ctx σ σ',
        exec_all ctx (take (length direct + k) body) σ = Some σ' ->
        ∀ i t, txns !! i = Some t ->
          (offset i <= ctx_group_index ctx)%Z ∧
          σ' (instance t) = Some (abi_txn (ctx_group_index ctx - offset i))) ∧
     (∀ ctx σ,
        (∀ i v, direct !! i = Some v ->
           ∃ b x, ctx_application_args ctx !! (i + 1) = Some b ∧
                  abi_decode (type_spec v) b = Some x) ->
        (Z.of_nat k <= ctx_group_index ctx)%Z ->
        is_Some (exec_all ctx (take (length direct + k) body) σ))) ∧
  (∀ ctx i,
     eval ctx (BinaryExpr op_minus (Txn group_index) (Int (offset i))) =
     if (offset i <=? ctx_group_index ctx)%Z
     then Some (ctx_group_index ctx - offset i)%Z else None).
Proof.
  intros arg_vals direct txns k offset resolve.
  assert (Hsets : txn_decode_instructions txns = imap resolve txns) by done.
  split; [|split].
  - intros body Hw.
    apply wrap_method_handler_inv in Hw as (_ & instrs & Hi & ->).
    pose proof (decode_instructions_of_shape _ _ Hi) as (de_tuple & -> & Hst).
    fold arg_vals direct txns in Hi |- *. split; [|split].
    + rewrite !filter_app.
      rewrite (filter_none _ _ (app_decode_instructions_no_set _)).
      rewrite (filter_all _ _ (txn_decode_instructions_all_set _)).
      rewrite (filter_none _ _ (store_into_no_set _ Hst)).
      rewrite (filter_none _ _ (call_and_approve_no_set _ _)).
      by rewrite !app_nil_r.
    + intros v src Hin.
      rewrite !elem_of_app in Hin. destruct Hin as [[Hin|[Hin|Hin]]|Hin].
      * apply elem_of_lookup_imap_1 in Hin as (i & w & [= -> _] & Hw).
        pose proof (app_arg_vals_tuplified_no_txn arg_vals) as Hno.
        rewrite Forall_forall in Hno. apply Hno.
        apply list_elem_of_lookup. by exists i.
      * pose proof (txn_decode_instructions_no_Decode txns) as Hno.
        rewrite Forall_forall in Hno. by destruct (Hno _ Hin).
      * pose proof (store_into_no_Decode _ Hst) as Hno.
        rewrite Forall_forall in Hno. by destruct (Hno _ Hin).
      * pose proof (call_and_approve_no_Decode handler arg_vals) as Hno.
        rewrite Forall_forall in Hno. by destruct (Hno _ Hin).
    + intros Hc Hget e target Hin.
      apply (decode_instructions_of_stores_no_txn _ _ Hc Hget Hi e target).
      rewrite elem_of_app in Hin. destruct Hin as [Hin|Hin]; [done|].
      exfalso. unfold call_and_approve in Hin.
      destruct (abi_type_of handler);
        repeat (apply elem_of_cons in Hin as [[=]|Hin]); by apply elem_of_nil in Hin.
  - intros Hr Hd.
    assert (Ht : tuplify_of direct = false).
    { unfold tuplify_of. apply bool_decide_eq_false. lia. }
    set (decodes := app_decode_instructions direct).
    set (rest := call_and_approve handler arg_vals).
    assert (Htake : take (length direct + k) (decodes ++ imap resolve txns ++ rest)
                    = decodes ++ imap resolve txns).
    { rewrite app_assoc. apply take_app_length'.
      rewrite length_app, length_imap. unfold decodes.
      by rewrite app_decode_instructions_length. }
    exists (decodes ++ imap resolve txns ++ rest).
    split; [|split; [done|split]].
    + rewrite (wrap_method_handler_body handler _ Hr (decode_instructions_of_plain _ Ht)).
      fold arg_vals direct txns decodes rest. by rewrite Hsets, <- app_assoc.
    + intros ctx σ σ' Hex i t Hi. rewrite Htake, exec_all_app in Hex.
      destruct (exec_all ctx decodes σ) as [σ1|]; [|done]. cbn in Hex.
      rewrite <- Hsets, txn_decode_instructions_pairs in Hex.
      apply exec_all_set_of in Hex as [Hex _].
      * apply (Hex t (offset i)). apply elem_of_imap_pairs_Z. by exists i.
      * rewrite imap_pairs_instances_Z. apply txn_arg_vals_of_NoDup.
    + intros ctx σ Hall Hg. rewrite Htake, exec_all_app.
      unfold decodes. rewrite app_decode_instructions_pairs.
      destruct (exec_all_decode_of_runs ctx
                  (imap (fun i v => (v, i + 1)) direct) σ) as [σ1 ->].
      { intros v s (i & Hi & ->)%elem_of_imap_pairs. by apply Hall. }
      cbn. rewrite <- Hsets, txn_decode_instructions_pairs.
      apply exec_all_set_of_runs.
      intros t n (i & Hi & ->)%elem_of_imap_pairs_Z. fold txns k. lia.
  - intros ctx i. apply eval_group_offset.
Qed.

(** *** Packed arguments *)

(** With an indexing that returns the element inside the tuple, the
    destructuring stores element [i + j] into the [j]-th target. *)
Lemma de_tuple_instructions_in_range t i targets :
  (∀ j, j < tuple_length t -> Tuple_getitem t j = Ok (Tuple_element t j)) ->
  i + length targets <= tuple_length t ->
  de_tuple_instructions t i targets =
  Ok (imap (fun j target => store_of t (i + j) target) targets).
Proof.
  intros Hget. revert i. induction targets as [|target targets IH]; intros i Hi; [done|].
  cbn in Hi. cbn [de_tuple_instructions]. rewrite Hget by lia. cbn.
  rewrite IH by lia. cbn. rewrite Nat.add_0_r. do 2 f_equal.
  apply imap_ext. intros j x _. cbn. f_equal. lia.
Qed.

(** More direct arguments than the cutoff and no transaction argument: the
    arguments before position [METHOD_ARG_NUM_CUTOFF - 1] are decoded from
    their own slots, the rest from one tuple in the next slot, which is
    then taken apart into them in order. *)
Lemma decode_instructions_of_packed arg_vals :
  (1 <= METHOD_ARG_NUM_CUTOFF)%Z ->
  Forall (fun v => ¬ is_Transaction v) arg_vals ->
  (METHOD_ARG_NUM_CUTOFF < Z.of_nat (length arg_vals))%Z ->
  (∀ t j, j < tuple_length t -> Tuple_getitem t j = Ok (Tuple_element t j)) ->
  let c := Z.to_nat (METHOD_ARG_NUM_CUTOFF - 1) in
  let packed := drop c arg_vals in
  let tup := new_instance last_arg (TupleTypeSpec (type_spec <$> packed)) in
  decode_instructions_of arg_vals =
  Ok (app_decode_instructions (take c arg_vals ++ [tup]) ++
      imap (store_of tup) packed).
Proof.
  intros Hc Hno Hlen Hget c packed tup.
  assert (Happ : app_arg_vals_of arg_vals = arg_vals) by by apply filter_all.
  assert (Htxn : txn_arg_vals_of arg_vals = []).
  { by apply filter_none. }
  unfold decode_instructions_of, app_arg_vals_tuplified.
  rewrite Happ, Htxn.
  assert (Ht : tuplify_of arg_vals = true).
  { unfold tuplify_of. by apply bool_decide_eq_true. }
  rewrite Ht. cbn [length]. rewrite bool_decide_eq_false_2 by lia.
  rewrite !slice_from_nonneg, slice_to_nonneg by lia. fold c packed tup.
  rewrite list_last_snoc. cbn.
  rewrite (de_tuple_instructions_in_range tup 0 packed (Hget tup)).
  - done.
  - unfold tuple_length, tup. cbn. by rewrite length_fmap.
Qed.

(** Running the stores of a tuple's elements into pairwise distinct targets
    other than the tuple. *)
Lemma exec_all_store_of ctx t elems i (targets : list BaseType) σ σ' :
  NoDup (instance <$> targets) ->
  instance t ∉ instance <$> targets ->
  σ (instance t) = Some (abi_tuple elems) ->
  exec_all ctx (imap (fun j target => store_of t (i + j) target) targets) σ = Some σ' ->
  (∀ j target, targets !! j = Some target ->
     ∃ x, elems !! (i + j) = Some x ∧ σ' (instance target) = Some x) ∧
  (∀ k, k ∉ instance <$> targets -> σ' k = σ k).
Proof.
  revert i σ. induction targets as [|target targets IH]; intros i σ Hnd Ht Hσ Hex.
  - cbn in Hex. injection Hex as <-. by split.
  - rewrite fmap_cons in Hnd, Ht. apply NoDup_cons in Hnd as [Hv Hnd].
    apply not_elem_of_cons in Ht as [Ht1 Ht2].
    rewrite imap_cons in Hex. cbn in Hex. rewrite Hσ in Hex. cbn in Hex.
    rewrite Nat.add_0_r in Hex.
    destruct (elems !! i) as [x|] eqn:Hx; [|done]. cbn in Hex.
    assert (Hex' : exec_all ctx
                     (imap (fun j target => store_of t (S i + j) target) targets)
                     (store_set (instance target) x σ) = Some σ').
    { rewrite <- Hex. f_equal. apply imap_ext. intros j y _. cbn.
      by rewrite Nat.add_succ_r. }
    apply IH in Hex' as [IH1 IH2]; [|done|done|].
    2:{ unfold store_set. by rewrite decide_False. }
    split.
    + intros [|j] target' Hj; cbn in Hj.
      * injection Hj as <-. exists x. rewrite Nat.add_0_r. split; [done|].
        rewrite IH2 by done. unfold store_set. by rewrite decide_True.
      * destruct (IH1 j target' Hj) as (y & Hy & Hσ'). exists y.
        by rewrite Nat.add_succ_r.
    + intros k Hk. rewrite fmap_cons in Hk. apply not_elem_of_cons in Hk as [Hk1 Hk2].
      rewrite IH2 by done. unfold store_set. by rewrite decide_False.
Qed.

Lemma exec_all_store_of_tuple ctx t (targets : list BaseType) σ σ' v :
  targets ≠ [] ->
  σ (instance t) = Some v ->
  exec_all ctx (imap (store_of t) targets) σ = Some σ' ->
  ∃ elems, v = abi_tuple elems.
Proof.
  destruct targets as [|target targets]; [done|]. intros _ Hσ Hex.
  rewrite imap_cons in Hex. cbn in Hex. rewrite Hσ in Hex. cbn in Hex.
  destruct v; try done. by eexists.
Qed.

(** X21: for a method without transaction arguments and with more direct
    arguments than the cutoff, wrapping packs as the documentation of
    [wrap_handler] says: the arguments from position
    [METHOD_ARG_NUM_CUTOFF - 1] on (the [METHOD_ARG_NUM_CUTOFF]-th argument
    onward) are read as one tuple from slot [METHOD_ARG_NUM_CUTOFF], the
    earlier ones from their own slots, and the tuple's elements are stored
    back into the packed arguments in declared order. *)
Theorem wrap_handler_packs_trailing_args (handler : ABIReturnSubroutine) :
  let arg_vals := arg_vals_of (expected_arg_types handler) in
  let c := Z.to_nat (METHOD_ARG_NUM_CUTOFF - 1) in
  let packed := drop c arg_vals in
  let tup := new_instance last_arg (TupleTypeSpec (type_spec <$> packed)) in
  is_abi_routable handler = true ->
  (1 <= METHOD_ARG_NUM_CUTOFF)%Z ->
  Forall (fun v => ¬ is_Transaction v) arg_vals ->
  (METHOD_ARG_NUM_CUTOFF < Z.of_nat (length arg_vals))%Z ->
  (∀ t j, j < tuple_length t -> Tuple_getitem t j = Ok (Tuple_element t j)) ->
  wrap_handler true (HABIReturn handler) =
    Ok (Seq (app_decode_instructions (take c arg_vals ++ [tup]) ++
             imap (store_of tup) packed ++
             call_and_approve handler arg_vals)) ∧
  omap decode_slot (app_decode_instructions (take c arg_vals ++ [tup])) =
    seq 1 (Z.to_nat METHOD_ARG_NUM_CUTOFF) ∧
  (∀ ctx σ σ',
     exec_all ctx (app_decode_instructions (take c arg_vals ++ [tup]) ++
                   imap (store_of tup) packed) σ = Some σ' ->
     (∀ i v, arg_vals !! i = Some v -> i < c ->
        ∃ b x, ctx_application_args ctx !! (i + 1) = Some b ∧
               abi_decode (type_spec v) b = Some x ∧
               σ' (instance v) = Some x) ∧
     ∃ b elems,
       ctx_application_args ctx !! Z.to_nat METHOD_ARG_NUM_CUTOFF = Some b ∧
       abi_decode (TupleTypeSpec (type_spec <$> packed)) b = Some (abi_tuple elems) ∧
       ∀ j v, arg_vals !! (c + j) = Some v ->
         ∃ x, elems !! j = Some x ∧ σ' (instance v) = Some x).
Proof.
  intros arg_vals c packed tup Hr Hc Hno Hlen Hget.
  assert (Hlc : length (take c arg_vals) = c).
  { rewrite length_take. unfold c. lia. }
  assert (Hnd : NoDup (instance <$> arg_vals)) by apply arg_vals_of_NoDup.
  assert (Hlast : last_arg ∉ instance <$> arg_vals).
  { unfold arg_vals. rewrite arg_vals_of_instances.
    intros (i & [=] & _)%list_elem_of_fmap. }
  rewrite <- (take_drop c arg_vals) in Hnd, Hlast. fold packed in Hnd, Hlast.
  rewrite fmap_app in Hnd, Hlast. apply NoDup_app in Hnd as (Hnd1 & Hdisj & Hnd2).
  apply not_elem_of_app in Hlast as [Hlast1 Hlast2].
  split; [|split].
  - rewrite (wrap_method_handler_body handler _ Hr
               (decode_instructions_of_packed _ Hc Hno Hlen Hget)).
    fold arg_vals c packed tup. by rewrite <- app_assoc.
  - rewrite app_decode_instructions_slots, length_app, Hlc. cbn. f_equal.
    unfold c. lia.
  - intros ctx σ σ' Hex. rewrite exec_all_app in Hex.
    destruct (exec_all ctx _ σ) as [σ1|] eqn:Hdec; [|done]. cbn in Hex.
    rewrite app_decode_instructions_pairs in Hdec.
    apply exec_all_decode_of in Hdec as [Hdec _].
    2:{ rewrite imap_pairs_instances, fmap_app. cbn.
        apply NoDup_app. split; [done|]. split; [|apply NoDup_singleton].
        intros k Hk [->|[]%elem_of_nil]%elem_of_cons. done. }
    destruct (Hdec tup (c + 1)) as (b & tv & Hb & Htv & Hσ1).
    { apply elem_of_imap_pairs. exists c. split; [|done].
      by rewrite lookup_app_r, Hlc, Nat.sub_diag by lia. }
    destruct (exec_all ctx (imap (store_of tup) packed) σ1) as [σ2|] eqn:Hst;
      [|done].
    injection Hex as ->.
    assert (Hpacked : packed ≠ []).
    { intros Hempty. apply (f_equal length) in Hempty. unfold packed in Hempty.
      rewrite length_drop in Hempty. cbn in Hempty. unfold c in Hempty. lia. }
    destruct (exec_all_store_of_tuple ctx tup packed σ1 σ' tv Hpacked Hσ1 Hst)
      as [elems ->].
    apply (exec_all_store_of ctx tup elems 0 packed σ1 σ') in Hst
      as [Hst1 Hst2]; [|done|done|done].
    split.
    + intros i v Hi Hic.
      destruct (Hdec v (i + 1)) as (b' & x & Hb' & Hx & Hσv).
      { apply elem_of_imap_pairs. exists i. split; [|done].
        rewrite lookup_app_l by lia. by rewrite lookup_take_lt. }
      exists b', x. repeat split; try done. rewrite Hst2; [done|].
      intros Hin. apply (Hdisj (instance v)); [|done].
      apply list_elem_of_fmap. exists v. split; [done|].
      apply list_elem_of_lookup. exists i. by rewrite lookup_take_lt.
    + exists b, elems. replace (Z.to_nat METHOD_ARG_NUM_CUTOFF) with (c + 1)
        by (unfold c; lia).
      split; [done|]. split; [done|].
      intros j v Hj. apply (Hst1 j v). unfold packed. by rewrite lookup_drop.
Qed.

(** ** The dispatch-tree builder and the router *)

Lemma add_method_to_ast_appended self sig cond handler :
  appended sig (conditions_n_branches self)
    (conditions_n_branches (fst (add_method_to_ast self sig cond handler))).
Proof.
  unfold add_method_to_ast.
  destruct cond as [n|c].
  - destruct n as [|[| |]|]; try (by left).
    destruct (wrap_handler true (HABIReturn handler)); [|by left].
    right. by eexists.
  - destruct (wrap_handler true (HABIReturn handler)); [|by left].
    right. by eexists.
Qed.

Lemma add_method_to_ast_CInt_0 self sig handler :
  add_method_to_ast self sig (CInt 0) handler = (self, Ok ()).
Proof. reflexivity. Qed.

(** What [add_method_to_ast] does when the handler wraps. *)
Lemma add_method_to_ast_wrapped self sig cond handler wrapped :
  wrap_handler true (HABIReturn handler) = Ok wrapped ->
  (∃ c, cond = CExpr c) ∨ cond = CInt 1 ∨ cond = CInt 0 ->
  snd (add_method_to_ast self sig cond handler) = Ok ().
Proof.
  intros Hw [[c ->]|[->| ->]]; unfold add_method_to_ast; by rewrite ?Hw.
Qed.

(** Feeding a method into the two trees leaves the registry alone and adds
    at most one entry, for that method, at the end of each tree. *)
Lemma feed_method_spec r sig handler cfg :
  let r' := fst (feed_method r sig handler cfg) in
  name r' = name r ∧
  method_sig_to_selector r' = method_sig_to_selector r ∧
  method_selector_to_sig r' = method_selector_to_sig r ∧
  appended sig (conditions_n_branches (approval_ast r))
    (conditions_n_branches (approval_ast r')) ∧
  appended sig (conditions_n_branches (clear_state_ast r))
    (conditions_n_branches (clear_state_ast r')).
Proof.
  unfold feed_method.
  assert (Hstep : ∀ ca cc,
    let r' := fst (let '(ast, res) := add_method_to_ast (approval_ast r) sig ca handler in
                   let self := set_approval_ast r ast in
                   match res with
                   | Raise e => (self, Raise e)
                   | Ok _ =>
                       let '(ast, res) :=
                         add_method_to_ast (clear_state_ast self) sig cc handler in
                       (set_clear_state_ast self ast, res)
                   end) in
    name r' = name r ∧
    method_sig_to_selector r' = method_sig_to_selector r ∧
    method_selector_to_sig r' = method_selector_to_sig r ∧
    appended sig (conditions_n_branches (approval_ast r))
      (conditions_n_branches (approval_ast r')) ∧
    appended sig (conditions_n_branches (clear_state_ast r))
      (conditions_n_branches (clear_state_ast r'))).
  { intros ca cc.
    pose proof (add_method_to_ast_appended (approval_ast r) sig ca handler) as Ha.
    destruct (add_method_to_ast (approval_ast r) sig ca handler) as [ast res].
    cbn in Ha. destruct res as [[]|e]; cbn.
    - pose proof (add_method_to_ast_appended (clear_state_ast r) sig cc handler) as Hc.
      destruct (add_method_to_ast (clear_state_ast r) sig cc handler) as [ast' res'].
      cbn in Hc. cbn. done.
    - repeat split; try done. by left. }
  destruct (is_arc4_compliant cfg); [apply Hstep|].
  destruct (approval_cond cfg) as [ca|]; [|cbn; repeat split; by left].
  destruct (clear_state_cond cfg) as [cc|]; [|cbn; repeat split; by left].
  apply Hstep.
Qed.

(** One registration: either nothing changes, or the pair of the computed
    signature and its selector is recorded, both being new, and each tree
    grows by at most one entry for that signature. *)
Lemma add_method_handler_cases self handler overriding_name cfg :
  let r' := fst (add_method_handler self handler overriding_name cfg) in
  (r' = self ∧ is_Ok (snd (add_method_handler self handler overriding_name cfg)) = false) ∨
  (∃ sig,
     method_signature handler overriding_name = Ok sig ∧
     is_never cfg = false ∧
     method_sig_to_selector self !! sig = None ∧
     method_selector_to_sig self !! selector_of sig = None ∧
     name r' = name self ∧
     method_sig_to_selector r' =
       <[sig := selector_of sig]> (method_sig_to_selector self) ∧
     method_selector_to_sig r' =
       <[selector_of sig := sig]> (method_selector_to_sig self) ∧
     appended sig (conditions_n_branches (approval_ast self))
       (conditions_n_branches (approval_ast r')) ∧
     appended sig (conditions_n_branches (clear_state_ast self))
       (conditions_n_branches (clear_state_ast r'))).
Proof.
  unfold add_method_handler.
  destruct (method_signature handler overriding_name) as [sig|]; [|by left].
  destruct (is_never cfg) eqn:Hn; [by left|].
  destruct (method_sig_to_selector self !! sig) eqn:Hs; [by left|].
  destruct (method_selector_to_sig self !! selector_of sig) eqn:Hsel; [by left|].
  right. exists sig.
  pose proof (feed_method_spec (record_method self sig (selector_of sig)) sig handler cfg)
    as (H1 & H2 & H3 & H4 & H5).
  cbn in *. by rewrite H1, H2, H3.
Qed.

Lemma substring_0_length (n : nat) (s : string) :
  String.length (String.substring 0 n s) = Nat.min n (String.length s).
Proof.
  revert s. induction n as [|n IH]; intros s.
  - by destruct s.
  - destruct s as [|c s]; [done|]. cbn. by rewrite IH.
Qed.

(** A selector is the first four bytes of the checksum. *)
Lemma selector_of_length sig :
  String.length (selector_of sig) = Nat.min 4 (String.length (checksum sig)).
Proof. apply substring_0_length. Qed.

Lemma record_method_consistent r sig sel :
  registry_consistent r ->
  method_sig_to_selector r !! sig = None ->
  method_selector_to_sig r !! sel = None ->
  registry_consistent (record_method r sig sel).
Proof.
  intros Hc Hsig Hsel g s. cbn.
  destruct (decide (g = sig)) as [->|Hg], (decide (s = sel)) as [->|Hs].
  - by rewrite !lookup_insert_eq.
  - rewrite lookup_insert_eq, lookup_insert_ne by done. split.
    + intros [= ->]. done.
    + intros H. apply Hc in H. congruence.
  - rewrite lookup_insert_eq, lookup_insert_ne by done. split.
    + intros H. apply Hc in H. congruence.
    + intros [= ->]. done.
  - rewrite !lookup_insert_ne by done. apply Hc.
Qed.

Lemma Router_init_registry name bare_calls r :
  Router_init name bare_calls = Ok r ->
  method_sig_to_selector r = ∅ ∧ method_selector_to_sig r = ∅.
Proof.
  unfold Router_init. destruct bare_calls as [bc|]; [|by intros [= <-]].
  destruct (BareCallActions_is_empty bc); cbn; [by intros [= <-]|].
  destruct (approval_construction bc) as [oa|]; [|done]. cbn.
  destruct (clear_state_construction bc) as [oc|]; [|done]. cbn.
  intros [= <-]. by destruct oa, oc.
Qed.

Lemma add_method_handler_consistent self handler overriding_name cfg :
  registry_consistent self ->
  registry_consistent (fst (add_method_handler self handler overriding_name cfg)).
Proof.
  intros Hc.
  destruct (add_method_handler_cases self handler overriding_name cfg)
    as [[-> _]|(sig & _ & _ & Hsig & Hsel & _ & H1 & H2 & _)]; [done|].
  intros g s. rewrite H1, H2.
  apply (record_method_consistent self sig (selector_of sig) Hc Hsig Hsel g s).
Qed.

(** A router as constructed, and after any registrations, has a consistent
    registry. *)
Lemma register_all_consistent name bare_calls r cs :
  Router_init name bare_calls = Ok r ->
  registry_consistent (register_all r cs).
Proof.
  intros Hi. apply Router_init_registry in Hi as [H1 H2].
  assert (Hc : registry_consistent r).
  { intros g s. by rewrite H1, H2, !lookup_empty. }
  clear H1 H2. revert r Hc. induction cs as [|c cs IH]; intros r Hc; [done|].
  cbn. apply IH. by apply add_method_handler_consistent.
Qed.

(** C4: a registration whose signature is [sig] is rejected with a
    [TealInputError], the router (so the registry) being left as it was,
    when the configuration is NEVER for every completion kind, when [sig]
    is already registered, or when the selector of [sig] (the first four
    bytes of the checksum of its bytes) is the selector of another
    registered signature. When the registration returns, [sig] and its
    selector were both new and the registry has gained exactly this pair,
    in both directions. The registry stays consistent either way. *)
Theorem add_method_handler_registry (self : Router) (method_call : ABIReturnSubroutine)
    (overriding_name : option string) (method_config : MethodConfig) (sig : string) :
  method_signature method_call overriding_name = Ok sig ->
  registry_consistent self ->
  let out := add_method_handler self method_call overriding_name method_config in
  selector_of sig = String.substring 0 4 (checksum sig) ∧
  (is_never method_config = true ->
   out = (self, Raise (TealInputError (is_never_executed sig)))) ∧
  (is_Some (method_sig_to_selector self !! sig) ->
   ∃ m, out = (self, Raise (TealInputError m))) ∧
  (∀ other, other ≠ sig ->
     method_sig_to_selector self !! other = Some (selector_of sig) ->
     ∃ m, out = (self, Raise (TealInputError m))) ∧
  (snd out = Ok () ->
   method_sig_to_selector self !! sig = None ∧
   method_selector_to_sig self !! selector_of sig = None ∧
   method_sig_to_selector (fst out) =
     <[sig := selector_of sig]> (method_sig_to_selector self) ∧
   method_selector_to_sig (fst out) =
     <[selector_of sig := sig]> (method_selector_to_sig self)) ∧
  registry_consistent (fst out).
Proof.
  intros Hsig Hc out.
  assert (Hsel : is_Some (method_selector_to_sig self !! selector_of sig) ->
                 ∃ m, out = (self, Raise (TealInputError m))).
  { intros [other Ho]. unfold out, add_method_handler. rewrite Hsig.
    destruct (is_never method_config); [by eexists|].
    destruct (method_sig_to_selector self !! sig); [by eexists|].
    rewrite Ho. by eexists. }
  split; [done|]. split; [|split; [|split; [|split]]].
  - intros Hn. unfold out, add_method_handler. by rewrite Hsig, Hn.
  - intros [sel Hs]. unfold out, add_method_handler. rewrite Hsig.
    destruct (is_never method_config); [by eexists|].
    rewrite Hs. by eexists.
  - intros other _ Ho. apply Hsel. exists other. by apply Hc.
  - intros Hok.
    destruct (add_method_handler_cases self method_call overriding_name method_config)
      as [[_ Hno]|(sig' & Hsig' & _ & H1 & H2 & _ & H3 & H4 & _)].
    + fold out in Hno. by rewrite Hok in Hno.
    + rewrite Hsig in Hsig'. injection Hsig' as <-. done.
  - by apply add_method_handler_consistent.
Qed.

(** *** Seeding and ordering *)

Lemma eval_zero_app_args ctx :
  eval ctx zero_app_args = Some 1%Z ↔ ctx_application_args ctx = [].
Proof.
  cbn. destruct (ctx_application_args ctx) as [|a args]; cbn; [done|].
  split; [|done]. destruct (Z.eqb_spec (Z.pos (Pos.of_succ_nat (length args))) 0); [lia|done].
Qed.

Lemma eval_zero_app_args_nonzero ctx :
  ctx_application_args ctx ≠ [] -> eval ctx zero_app_args = Some 0%Z.
Proof.
  cbn. destruct (ctx_application_args ctx) as [|a args]; cbn; [done|]. intros _.
  destruct (Z.eqb_spec (Z.pos (Pos.of_succ_nat (length args))) 0); [lia|done].
Qed.

(** What the constructor leaves in the two trees. *)
Lemma Router_init_trees name bc r :
  BareCallActions_is_empty bc = false ->
  Router_init name (Some bc) = Ok r ->
  ∃ oa oc,
    approval_construction bc = Ok oa ∧
    clear_state_construction bc = Ok oc ∧
    conditions_n_branches (approval_ast r) = bare_call_entry <$> option_list oa ∧
    conditions_n_branches (clear_state_ast r) = bare_call_entry <$> option_list oc.
Proof.
  intros He. unfold Router_init. rewrite He. cbn.
  destruct (approval_construction bc) as [oa|]; [|done]. cbn.
  destruct (clear_state_construction bc) as [oc|]; [|done]. cbn.
  intros [= <-]. exists oa, oc. by destruct oa, oc.
Qed.

(** A bare-call value that is not empty yields a construction for at least
    one of the two programs, unless building it raises. *)
Lemma bare_calls_some_construction bc oa oc :
  BareCallActions_is_empty bc = false ->
  approval_construction bc = Ok oa ->
  clear_state_construction bc = Ok oc ->
  is_Some oa ∨ is_Some oc.
Proof.
  intros He Ha Hc. unfold approval_construction in Ha.
  match type of Ha with (if ?b then _ else _) = _ => destruct b eqn:Hall end.
  - right. unfold clear_state_construction in Hc.
    destruct (OnCompleteAction_is_empty (bc_clear_state bc)) eqn:Hcs.
    + exfalso. cbn [forallb snd] in Hall. rewrite !andb_true_iff in Hall.
      destruct Hall as (H1 & H2 & H3 & H4 & H5 & _).
      unfold BareCallActions_is_empty in He. cbn [BareCallActions_fields forallb] in He.
      by rewrite H1, H2, H3, H4, H5, Hcs in He.
    + destruct (wrap_handler false _); [|done]. cbn in Hc.
      destruct (bare_cond_body _ _); [|done]. cbn in Hc. injection Hc as <-.
      by eexists.
  - left. destruct (approval_construction_loop _ _); [|done]. cbn in Ha.
    injection Ha as <-. by eexists.
Qed.

Lemma extended_refl old : extended [] old old.
Proof. exists []. by rewrite app_nil_r. Qed.

Lemma extended_app s1 s2 a b c :
  extended s1 a b -> extended s2 b c -> extended (s1 ++ s2) a c.
Proof.
  intros (m1 & -> & H1) (m2 & -> & H2). exists (m1 ++ m2).
  by rewrite app_assoc, !fmap_app, H1, H2.
Qed.

Lemma appended_extended sig old new :
  appended sig old new ->
  ∃ sigs, sigs `sublist_of` [sig] ∧ extended sigs old new.
Proof.
  intros [->|[body ->]].
  - exists []. split; [apply sublist_nil_l|apply extended_refl].
  - exists [sig]. split; [done|]. by eexists.
Qed.

Lemma omap_registration_sig_cons c cs :
  omap registration_sig (c :: cs) =
  option_list (registration_sig c) ++ omap registration_sig cs.
Proof. cbn. by destruct (registration_sig c). Qed.

(** One registration adds at most one entry, for its own signature, at the
    end of each tree. *)
Lemma register_extended r c :
  ∃ sigs_a sigs_c,
    sigs_a `sublist_of` option_list (registration_sig c) ∧
    sigs_c `sublist_of` option_list (registration_sig c) ∧
    extended sigs_a (conditions_n_branches (approval_ast r))
      (conditions_n_branches (approval_ast (register r c))) ∧
    extended sigs_c (conditions_n_branches (clear_state_ast r))
      (conditions_n_branches (clear_state_ast (register r c))).
Proof.
  unfold register.
  destruct (add_method_handler_cases r (reg_method_call c) (reg_overriding_name c)
              (reg_method_config c))
    as [[-> _]|(sig & Hsig & _ & _ & _ & _ & _ & _ & Ha & Hc)].
  - exists [], []. repeat split; try apply sublist_nil_l; apply extended_refl.
  - apply appended_extended in Ha as (sa & Hsa & Ha).
    apply appended_extended in Hc as (sc & Hsc & Hc).
    exists sa, sc. unfold registration_sig. rewrite Hsig. done.
Qed.

(** Registrations add their entries at the end of each tree, in the order
    of the registrations. *)
Lemma register_all_extended r cs :
  ∃ sigs_a sigs_c,
    sigs_a `sublist_of` omap registration_sig cs ∧
    sigs_c `sublist_of` omap registration_sig cs ∧
    extended sigs_a (conditions_n_branches (approval_ast r))
      (conditions_n_branches (approval_ast (register_all r cs))) ∧
    extended sigs_c (conditions_n_branches (clear_state_ast r))
      (conditions_n_branches (clear_state_ast (register_all r cs))).
Proof.
  revert r. induction cs as [|c cs IH]; intros r.
  - exists [], []. repeat split; try done; apply extended_refl.
  - destruct (register_extended r c) as (sa & sc & Hsa & Hsc & Ha & Hc).
    destruct (IH (register r c)) as (sa' & sc' & Hsa' & Hsc' & Ha' & Hc').
    exists (sa ++ sa'), (sc ++ sc'). rewrite omap_registration_sig_cons.
    repeat split; try (by apply sublist_app); by eapply extended_app.
Qed.

(** C7: a router constructed with a bare-call value that is not empty holds,
    in each tree, exactly the construction for that program when there is
    one, as the entry guarded by [Txn.application_args.length() == Int(0)],
    a guard that holds exactly when no call argument is supplied; at least
    one of the two constructions exists. After any registrations each tree
    is this seed followed by entries of registered methods, guarded by
    their selector test, in the order of the registrations: the bare-call
    entry stays first. *)
Theorem Router_init_bare_call_entry_first (name : string) (bare_calls : BareCallActions)
    (r : Router) :
  BareCallActions_is_empty bare_calls = false ->
  Router_init name (Some bare_calls) = Ok r ->
  ∃ oa oc,
    approval_construction bare_calls = Ok oa ∧
    clear_state_construction bare_calls = Ok oc ∧
    (is_Some oa ∨ is_Some oc) ∧
    conditions_n_branches (approval_ast r) =
      (fun e => {| condition := Txn application_args_length == Int 0; branch := e |})
        <$> option_list oa ∧
    conditions_n_branches (clear_state_ast r) =
      (fun e => {| condition := Txn application_args_length == Int 0; branch := e |})
        <$> option_list oc ∧
    (∀ ctx, eval ctx (Txn application_args_length == Int 0) = Some 1%Z ↔
            ctx_application_args ctx = []) ∧
    ∀ cs : list Registration,
      ∃ sigs_a sigs_c methods_a methods_c,
        sigs_a `sublist_of` omap registration_sig cs ∧
        sigs_c `sublist_of` omap registration_sig cs ∧
        conditions_n_branches (approval_ast (register_all r cs)) =
          conditions_n_branches (approval_ast r) ++ methods_a ∧
        condition <$> methods_a =
          (fun sig => Txn_application_args 0 == MethodSignature sig) <$> sigs_a ∧
        conditions_n_branches (clear_state_ast (register_all r cs)) =
          conditions_n_branches (clear_state_ast r) ++ methods_c ∧
        condition <$> methods_c =
          (fun sig => Txn_application_args 0 == MethodSignature sig) <$> sigs_c.
Proof.
  intros He Hi.
  destruct (Router_init_trees name bare_calls r He Hi) as (oa & oc & Hoa & Hoc & Ha & Hc).
  exists oa, oc. split; [done|]. split; [done|].
  split; [by eapply bare_calls_some_construction|].
  split; [done|]. split; [done|]. split; [apply eval_zero_app_args|].
  intros cs.
  destruct (register_all_extended r cs)
    as (sa & sc & Hsa & Hsc & (ma & Hma & Hca) & (mc & Hmc & Hcc)).
  by exists sa, sc, ma, mc.
Qed.

(** *** Building the programs *)

(** The first entry whose guard holds gives the branch, the guards before
    it being false. *)
Lemma select_branch_first_match ctx pre n post v :
  Forall (fun m => eval ctx (condition m) = Some 0%Z) pre ->
  eval ctx (condition n) = Some v -> v ≠ 0%Z ->
  select_branch ctx (cond_arms (pre ++ n :: post)) = Some (branch n).
Proof.
  intros Hpre Hn Hv. induction Hpre as [|m pre Hm _ IH].
  - cbn. rewrite Hn. cbn. by destruct (Z.eqb_spec v 0).
  - cbn. rewrite Hm. cbn. apply IH.
Qed.

Lemma wrap_bare_handler_not_None h wrapped :
  wrap_handler false h = Ok wrapped -> Handler_bool h = true.
Proof. by destruct h. Qed.

Lemma bare_cond_body_not_NEVER cc wrapped body :
  bare_cond_body cc wrapped = Ok body -> CallConfig_bool cc = true.
Proof.
  unfold bare_cond_body, CallConfig_bool.
  by destruct (Z.eqb_spec cc 0) as [->|].
Qed.

(** A router given only a bare NoOp action. *)
Lemma Router_init_bare_no_op name h cc wrapped body :
  wrap_handler false h = Ok wrapped ->
  bare_cond_body cc wrapped = Ok body ->
  Router_init name (Some (BareCallActions_no_op {| action := h; call_config := cc |})) =
  Ok {| name := name;
        approval_ast :=
          {| conditions_n_branches :=
               [bare_call_entry (Cond [(Txn on_completion == EnumInt NoOp, body)])] |};
        clear_state_ast := {| conditions_n_branches := [] |};
        method_sig_to_selector := ∅;
        method_selector_to_sig := ∅ |}.
Proof.
  intros Hw Hb. pose proof (wrap_bare_handler_not_None _ _ Hw) as Hh.
  unfold Router_init, BareCallActions_is_empty, approval_construction,
    clear_state_construction, OnCompleteAction_is_empty.
  cbn -[wrap_handler bare_cond_body Handler_bool]. rewrite !Hh.
  cbn -[wrap_handler bare_cond_body]. rewrite Hw.
  cbn -[wrap_handler bare_cond_body]. rewrite Hb.
  unfold OnCompleteAction_is_empty. cbn. by rewrite Hh.
Qed.

(** C8: [program_construction] raises exactly when the tree has no entry,
    and the error is the empty-AST [TealInputError]; otherwise it returns
    the conditional over all entries in their order, of which the first
    entry whose guard holds gives the branch. So a router given only a bare
    NoOp action has an approval program with the single entry guarded by
    "no call argument", taken exactly when none is supplied, while its
    clear-state tree is empty, its clear-state program does not build, and
    [build_program] raises. *)
Theorem program_construction_spec :
  (∀ self, (∃ e, program_construction self = Raise e) ↔ conditions_n_branches self = []) ∧
  (∀ self, conditions_n_branches self = [] ->
     program_construction self =
     Raise (TealInputError Cannot_build_program_with_an_empty_AST)) ∧
  (∀ self, conditions_n_branches self ≠ [] ->
     program_construction self =
     Ok (Cond ((fun n => (condition n, branch n)) <$> conditions_n_branches self))) ∧
  (∀ ctx pre n post v,
     Forall (fun m => eval ctx (condition m) = Some 0%Z) pre ->
     eval ctx (condition n) = Some v -> v ≠ 0%Z ->
     select_branch ctx ((fun n => (condition n, branch n)) <$> (pre ++ n :: post)) =
     Some (branch n)) ∧
  (∀ name h cc wrapped body,
     wrap_handler false h = Ok wrapped ->
     bare_cond_body cc wrapped = Ok body ->
     let on_no_op := Cond [(Txn on_completion == EnumInt NoOp, body)] in
     ∃ oca r,
       OnCompleteAction_init h cc = Ok oca ∧
       Router_init name (Some (BareCallActions_no_op oca)) = Ok r ∧
       program_construction (approval_ast r) =
         Ok (Cond [(Txn application_args_length == Int 0, on_no_op)]) ∧
       (∀ ctx, select_branch ctx [(Txn application_args_length == Int 0, on_no_op)] =
               if decide (ctx_application_args ctx = []) then Some on_no_op else None) ∧
       conditions_n_branches (clear_state_ast r) = [] ∧
       program_construction (clear_state_ast r) =
         Raise (TealInputError Cannot_build_program_with_an_empty_AST) ∧
       build_program r =
         Raise (TealInputError Cannot_build_program_with_an_empty_AST)).
Proof.
  split; [|split; [|split; [|split]]].
  - intros [[|n nodes]]; unfold program_construction; cbn; split; try done.
    + by eexists.
    + by intros [e He].
  - intros [nodes] H. cbn in H. by subst.
  - intros [[|n nodes]] H; [done|reflexivity].
  - apply select_branch_first_match.
  - intros name h cc wrapped body Hw Hb on_no_op.
    exists {| action := h; call_config := cc |}. eexists.
    split; [|split; [by apply (Router_init_bare_no_op name h cc wrapped body)|]].
    { unfold OnCompleteAction_init.
      by rewrite (wrap_bare_handler_not_None _ _ Hw), (bare_cond_body_not_NEVER _ _ _ Hb). }
    split; [reflexivity|]. split; [|split; [reflexivity|split; reflexivity]].
    intros ctx. change (Txn application_args_length == Int 0) with zero_app_args.
    cbn [select_branch].
    destruct (decide (ctx_application_args ctx = [])) as [He|He].
    + apply eval_zero_app_args in He. by rewrite He.
    + apply eval_zero_app_args_nonzero in He. by rewrite He.
Qed.

(** *** Methods that are never run on clear state *)

Lemma is_arc4_compliant_clear_state cfg :
  is_arc4_compliant cfg = true -> mc_clear_state cfg = ALL.
Proof.
  unfold is_arc4_compliant. cbn. rewrite !andb_true_iff.
  intros (_ & _ & _ & H & _). by apply Z.eqb_eq in H.
Qed.

(** A method whose ClearState permission is NEVER leaves the clear-state
    tree as it is. *)
Lemma add_method_handler_clear_state_NEVER self handler overriding_name cfg :
  mc_clear_state cfg = NEVER ->
  clear_state_ast (fst (add_method_handler self handler overriding_name cfg)) =
  clear_state_ast self.
Proof.
  intros Hcs. unfold add_method_handler.
  destruct (method_signature handler overriding_name) as [sig|]; [|done].
  destruct (is_never cfg); [done|].
  destruct (method_sig_to_selector self !! sig); [done|].
  destruct (method_selector_to_sig self !! selector_of sig); [done|].
  unfold feed_method.
  destruct (is_arc4_compliant cfg) eqn:Harc.
  { apply is_arc4_compliant_clear_state in Harc. rewrite Hcs in Harc. done. }
  destruct (approval_cond cfg) as [ca|]; [|done].
  unfold clear_state_cond. rewrite Hcs. cbn.
  destruct (add_method_to_ast _ sig ca handler) as [ast [[]|]]; done.
Qed.

Lemma register_all_clear_state_NEVER r cs :
  Forall (fun c => mc_clear_state (reg_method_config c) = NEVER) cs ->
  clear_state_ast (register_all r cs) = clear_state_ast r.
Proof.
  intros H. revert r. induction H as [|c cs Hc _ IH]; intros r; [done|].
  cbn. rewrite IH. unfold register. by apply add_method_handler_clear_state_NEVER.
Qed.

Lemma Router_init_no_clear_state name bare_calls r :
  Router_init name bare_calls = Ok r ->
  (bare_calls = None ∨
   ∃ bc, bare_calls = Some bc ∧ OnCompleteAction_is_empty (bc_clear_state bc) = true) ->
  conditions_n_branches (clear_state_ast r) = [].
Proof.
  unfold Router_init. intros Hi [->|(bc & -> & He)]; [by injection Hi as <-|].
  destruct (BareCallActions_is_empty bc); cbn in Hi; [by injection Hi as <-|].
  destruct (approval_construction bc) as [oa|]; [|done]. cbn in Hi.
  unfold clear_state_construction in Hi. rewrite He in Hi. cbn in Hi.
  injection Hi as <-. by destruct oa.
Qed.

Lemma build_program_empty_clear_state r :
  conditions_n_branches (clear_state_ast r) = [] ->
  build_program r = Raise (TealInputError Cannot_build_program_with_an_empty_AST).
Proof.
  intros H. unfold build_program, program_construction. rewrite H.
  by destruct (conditions_n_branches (approval_ast r)).
Qed.

(** C10: a registration whose configuration has NEVER for ClearState (the
    default configuration is one) leaves the clear-state tree as it was;
    when it returns, its signature and selector are recorded in the
    registry; and it does return when the configuration holds enumerants
    and is not NEVER throughout, the signature and selector are new and the
    handler wraps. So a router constructed without a bare clear-state
    action, after any registrations that all have such configurations,
    raises the empty-AST error from [build_program]. *)
Theorem clear_state_NEVER_builds_no_clear_state_program :
  mc_clear_state MethodConfig_default = NEVER ∧
  (∀ self handler overriding_name cfg,
     mc_clear_state cfg = NEVER ->
     let out := add_method_handler self handler overriding_name cfg in
     clear_state_ast (fst out) = clear_state_ast self ∧
     (snd out = Ok () ->
      ∃ sig, method_signature handler overriding_name = Ok sig ∧
             method_sig_to_selector (fst out) !! sig = Some (selector_of sig) ∧
             method_selector_to_sig (fst out) !! selector_of sig = Some sig) ∧
     (∀ sig wrapped,
        method_signature handler overriding_name = Ok sig ->
        is_never cfg = false ->
        forallb (fun k => is_enumerant (snd k cfg)) approval_kinds = true ->
        method_sig_to_selector self !! sig = None ->
        method_selector_to_sig self !! selector_of sig = None ->
        wrap_handler true (HABIReturn handler) = Ok wrapped ->
        snd out = Ok ())) ∧
  (∀ name bare_calls r cs,
     Router_init name bare_calls = Ok r ->
     (bare_calls = None ∨
      ∃ bc, bare_calls = Some bc ∧ OnCompleteAction_is_empty (bc_clear_state bc) = true) ->
     Forall (fun c => mc_clear_state (reg_method_config c) = NEVER) cs ->
     build_program (register_all r cs) =
     Raise (TealInputError Cannot_build_program_with_an_empty_AST)).
Proof.
  split; [done|]. split.
  - intros self handler overriding_name cfg Hcs out.
    split; [by apply add_method_handler_clear_state_NEVER|]. split.
    + intros Hok.
      destruct (add_method_handler_cases self handler overriding_name cfg)
        as [[_ Hno]|(sig & Hsig & _ & _ & _ & _ & H1 & H2 & _)].
      * fold out in Hno. by rewrite Hok in Hno.
      * exists sig. fold out in H1, H2. by rewrite H1, H2, !lookup_insert_eq.
    + intros sig wrapped Hsig Hn Hv Hs Hsel Hw.
      unfold out, add_method_handler. rewrite Hsig, Hn, Hs, Hsel.
      unfold feed_method.
      destruct (is_arc4_compliant cfg) eqn:Harc.
      { apply is_arc4_compliant_clear_state in Harc. rewrite Hcs in Harc. done. }
      rewrite (approval_cond_of_enumerants cfg Hv).
      unfold clear_state_cond. rewrite Hcs. cbn -[add_method_to_ast].
      pose proof (add_method_to_ast_wrapped
                    (approval_ast (record_method self sig (selector_of sig)))
                    sig (approval_cond_by_spec cfg) handler wrapped Hw) as Hres.
      destruct (add_method_to_ast _ sig (approval_cond_by_spec cfg) handler)
        as [ast res]. cbn in Hres. rewrite Hres; [reflexivity|].
      unfold approval_cond_by_spec.
      destruct (forallb (fun k => (snd k cfg =? NEVER)%Z) approval_kinds);
        [right; by right|].
      destruct (forallb (fun k => (snd k cfg =? ALL)%Z) approval_kinds);
        [right; by left|].
      left. by eexists.
  - intros name bare_calls r cs Hi Hb Hcs.
    apply build_program_empty_clear_state.
    rewrite register_all_clear_state_NEVER by done.
    by eapply Router_init_no_clear_state.
Qed.

(** * Further properties *)

(** ** Constructed actions *)

(** X1: for an [OnCompleteAction] that the constructor returned, [is_empty]
    holds exactly when the permission is NEVER, and exactly when there is
    no handler. [never()] is constructed and empty; [create_only],
    [call_only] and [always] are constructed exactly for a handler that is
    not None, and then give an action that is not empty, with that handler
    and the permission CREATE, CALL or ALL. *)
Theorem OnCompleteAction_constructed_is_empty :
  (∀ a cc oca,
     OnCompleteAction_init a cc = Ok oca ->
     (OnCompleteAction_is_empty oca = true ↔ call_config oca = NEVER) ∧
     (OnCompleteAction_is_empty oca = true ↔ action oca = HNone)) ∧
  (∃ oca, OnCompleteAction_never = Ok oca ∧ OnCompleteAction_is_empty oca = true) ∧
  (∀ f,
     is_Ok (create_only f) = Handler_bool f ∧
     is_Ok (call_only f) = Handler_bool f ∧
     is_Ok (always f) = Handler_bool f ∧
     (Handler_bool f = true ->
      create_only f = Ok {| action := f; call_config := CREATE |} ∧
      call_only f = Ok {| action := f; call_config := CALL |} ∧
      always f = Ok {| action := f; call_config := ALL |} ∧
      OnCompleteAction_is_empty {| action := f; call_config := CREATE |} = false ∧
      OnCompleteAction_is_empty {| action := f; call_config := CALL |} = false ∧
      OnCompleteAction_is_empty {| action := f; call_config := ALL |} = false)).
Proof.
  split; [|split].
  - intros a cc oca. unfold OnCompleteAction_init, OnCompleteAction_is_empty,
      CallConfig_bool, NEVER.
    destruct (Z.eqb_spec cc 0) as [->|Hcc]; destruct a; cbn; try done;
      intros [= <-]; cbn; (split; split; try done);
      try (by destruct (Z.eqb_spec cc 0)).
  - by eexists.
  - intros f. by destruct f.
Qed.

(** ** Bare-call handlers *)

(** X2: without a method call, [wrap_handler] returns exactly for an
    expression of type none, a subroutine of type none without arguments
    and a void ABI subroutine without arguments. What it returns is the
    expression itself when that already returns, and otherwise the
    handler (called, for a subroutine) followed by [Approve]; what it
    raises is always a [TealInputError]. *)
Theorem wrap_handler_bare_spec (h : Handler) :
  is_Ok (wrap_handler false h) = bare_handler_ok h ∧
  (∀ e, wrap_handler false h = Raise e -> ∃ m, e = TealInputError m) ∧
  (∀ w, wrap_handler false h = Ok w ->
     match h with
     | HNone => False
     | HExpr e => w = if expr_has_return e then Given e else Seq [Given e; Approve]
     | HSubroutine s => w = Seq [SubroutineCall s; Approve]
     | HABIReturn a => w = Seq [ABICall a []; Approve]
     end).
Proof.
  unfold wrap_handler. cbn [negb]. destruct h as [|e|s|a]; cbn.
  - split; [done|]. split; [|done]. intros e [= <-]. by eexists.
  - destruct (decide (expr_type_of e = TealType_none)) as [He|He].
    + rewrite bool_decide_eq_false_2, bool_decide_eq_true_2 by (by try intros []).
      split; [done|]. split; [done|]. by intros w [= <-].
    + rewrite bool_decide_eq_true_2, bool_decide_eq_false_2 by done.
      split; [done|]. split; [|done]. intros ? [= <-]. by eexists.
  - destruct (decide (subroutine_type_of s = TealType_none)) as [He|He].
    + rewrite bool_decide_eq_false_2, (bool_decide_eq_true_2 _ He) by (by intros []).
      destruct (decide (subroutine_argument_count s = 0)) as [Hc|Hc].
      * rewrite bool_decide_eq_false_2, (bool_decide_eq_true_2 _ Hc) by (by intros []).
        split; [done|]. split; [done|]. by intros w [= <-].
      * rewrite (bool_decide_eq_true_2 _ Hc), bool_decide_eq_false_2 by done.
        split; [done|]. split; [|done]. intros ? [= <-]. by eexists.
    + rewrite (bool_decide_eq_true_2 _ He), bool_decide_eq_false_2 by done.
      split; [done|]. split; [|done]. intros ? [= <-]. by eexists.
  - destruct (bool_decide (is_Some (abi_type_of a))); cbn.
    + split; [done|]. split; [|done]. intros ? [= <-]. by eexists.
    + destruct (decide (abi_argument_count a = 0)) as [Hc|Hc].
      * rewrite bool_decide_eq_false_2, (bool_decide_eq_true_2 _ Hc) by (by intros []).
        split; [done|]. split; [done|]. by intros w [= <-].
      * rewrite (bool_decide_eq_true_2 _ Hc), bool_decide_eq_false_2 by done.
        split; [done|]. split; [|done]. intros ? [= <-]. by eexists.
Qed.

(** ** Guards of a configuration *)

Lemma condition_under_config_CInt cc n :
  condition_under_config cc = Ok (CInt n) ->
  (n = 0%Z ∧ cc = NEVER) ∨ (n = 1%Z ∧ cc = ALL).
Proof.
  unfold condition_under_config.
  destruct (Z.eqb_spec cc NEVER); [intros [= <-]; by left|].
  destruct (Z.eqb_spec cc CALL); [done|].
  destruct (Z.eqb_spec cc CREATE); [done|].
  destruct (Z.eqb_spec cc ALL); [intros [= <-]; by right|done].
Qed.

Lemma approval_cond_CInt mc n :
  approval_cond mc = Ok (CInt n) ->
  (n = 0%Z ∧ forallb (fun k => (snd k mc =? NEVER)%Z) approval_kinds = true) ∨
  (n = 1%Z ∧ forallb (fun k => (snd k mc =? ALL)%Z) approval_kinds = true).
Proof.
  unfold approval_cond. rewrite !approval_cond_all.
  destruct (forallb (fun k => (snd k mc =? NEVER)%Z) approval_kinds);
    [intros [= <-]; by left|].
  destruct (forallb (fun k => (snd k mc =? ALL)%Z) approval_kinds);
    [intros [= <-]; by right|].
  by destruct (approval_cond_loop _ _).
Qed.

Lemma is_never_fields mc :
  is_never mc = true ↔
  forallb (fun k => (snd k mc =? NEVER)%Z) approval_kinds = true ∧
  mc_clear_state mc = NEVER.
Proof.
  unfold is_never, astuple, approval_kinds. cbn [forallb snd].
  rewrite !andb_true_iff, !Z.eqb_eq.
  split; [intros (?&?&?&?&?&?&_)|intros ((?&?&?&?&?&_)&?)];
    repeat split; assumption.
Qed.

Lemma is_arc4_compliant_fields mc :
  is_arc4_compliant mc = true ↔
  forallb (fun k => (snd k mc =? ALL)%Z) approval_kinds = true ∧
  mc_clear_state mc = ALL.
Proof.
  unfold is_arc4_compliant, astuple, approval_kinds, arc4_compliant.
  cbn [forallb snd fst zip zip_with mc_no_op mc_opt_in mc_close_out
       mc_clear_state mc_update_application mc_delete_application].
  rewrite !andb_true_iff, !Z.eqb_eq.
  split; [intros (?&?&?&?&?&?&_)|intros ((?&?&?&?&?&_)&?)];
    repeat split; assumption.
Qed.

Lemma approval_cond_all_NEVER mc :
  forallb (fun k => (snd k mc =? NEVER)%Z) approval_kinds = true ->
  approval_cond mc = Ok (CInt 0).
Proof. intros H. unfold approval_cond. by rewrite approval_cond_all, H. Qed.

Lemma approval_cond_all_ALL mc :
  forallb (fun k => (snd k mc =? ALL)%Z) approval_kinds = true ->
  approval_cond mc = Ok (CInt 1).
Proof.
  intros Ha. unfold approval_cond. rewrite !approval_cond_all, Ha.
  destruct (forallb (fun k => (snd k mc =? NEVER)%Z) approval_kinds) eqn:Hn; [|done].
  cbn in Ha, Hn. apply andb_true_iff in Ha as [Ha _], Hn as [Hn _].
  apply Z.eqb_eq in Ha, Hn. unfold ALL, NEVER in *. lia.
Qed.

(** X3: a configuration is the one [add_method_handler] rejects as never
    executed exactly when both of its guards, the approval guard and the
    clear-state guard, are the constant 0. *)
Theorem is_never_iff_both_guards_0 (mc : MethodConfig) :
  is_never mc = true ↔
  approval_cond mc = Ok (CInt 0) ∧ clear_state_cond mc = Ok (CInt 0).
Proof.
  rewrite is_never_fields. unfold clear_state_cond. split.
  - intros [Hn Hc]. rewrite Hc. split; [by apply approval_cond_all_NEVER|done].
  - intros [Ha Hc]. split.
    + apply approval_cond_CInt in Ha as [[_ Hn]|[[=] _]]. done.
    + apply condition_under_config_CInt in Hc as [[_ Hc]|[[=] _]]. done.
Qed.

(** X4: a configuration passes [is_arc4_compliant] exactly when both of its
    guards are the constant 1: the two calls of [add_method_to_ast] with
    the literal 1 (lines 541-544) pass what [approval_cond] and
    [clear_state_cond] would have given. *)
Theorem is_arc4_compliant_iff_both_guards_1 (mc : MethodConfig) :
  is_arc4_compliant mc = true ↔
  approval_cond mc = Ok (CInt 1) ∧ clear_state_cond mc = Ok (CInt 1).
Proof.
  rewrite is_arc4_compliant_fields. unfold clear_state_cond. split.
  - intros [Hn Hc]. rewrite Hc. split; [by apply approval_cond_all_ALL|done].
  - intros [Ha Hc]. split.
    + apply approval_cond_CInt in Ha as [[[=] _]|[_ Hn]]. done.
    + apply condition_under_config_CInt in Hc as [[[=] _]|[_ Hc]]. done.
Qed.

Lemma length_omap_filter {A B} (f : A -> option B) (P : A -> Prop)
    `{∀ x, Decision (P x)} (l : list A) :
  Forall (fun x => is_Some (f x) ↔ P x) l ->
  length (omap f l) = length (filter P l).
Proof.
  induction 1 as [|x l Hx _ IH]; [done|].
  rewrite filter_cons. destruct (decide (P x)) as [HP|HP].
  - apply Hx in HP as [y Hy]. cbn. rewrite Hy. cbn. by rewrite IH.
  - cbn. destruct (f x) as [y|] eqn:Hy; [|done]. exfalso. apply HP, Hx. by eexists.
Qed.

Lemma kind_disjunct_is_Some cc oc :
  is_enumerant cc = true -> is_Some (kind_disjunct cc oc) ↔ cc ≠ NEVER.
Proof.
  intros H. destruct (is_enumerant_cases _ H) as [->|[->|[->| ->]]]; cbn;
    split; try done; intros _; by eexists.
Qed.

(** X5: when [approval_cond] is an expression, it is a disjunction that is
    never empty: it has one disjunct per approval kind whose permission is
    not NEVER, and there is such a kind; all five permissions are then
    enumerants. *)
Theorem approval_cond_disjunction_not_empty (mc : MethodConfig) (e : Expr) :
  approval_cond mc = Ok (CExpr e) ->
  ∃ cond_list,
    e = Or cond_list ∧
    cond_list ≠ [] ∧
    length cond_list = length (filter (fun k => snd k mc ≠ NEVER) approval_kinds) ∧
    forallb (fun k => is_enumerant (snd k mc)) approval_kinds = true.
Proof.
  intros He.
  destruct (forallb (fun k => is_enumerant (snd k mc)) approval_kinds) eqn:Hv.
  2:{ by rewrite (approval_cond_outside _ Hv) in He. }
  rewrite (approval_cond_of_enumerants _ Hv) in He. injection He as He.
  unfold approval_cond_by_spec in He.
  destruct (forallb (fun k => (snd k mc =? NEVER)%Z) approval_kinds) eqn:Hn; [done|].
  destruct (forallb (fun k => (snd k mc =? ALL)%Z) approval_kinds); [done|].
  injection He as <-. eexists. split; [done|].
  assert (Hlen : length (omap (fun k => kind_disjunct (snd k mc) (fst k))
                           (filter (fun k => snd k mc ≠ NEVER) approval_kinds)) =
                 length (filter (fun k => snd k mc ≠ NEVER) approval_kinds)).
  { rewrite omap_filter_None.
    - apply length_omap_filter. pose proof Hv as Hv'.
      apply Is_true_true in Hv'. rewrite forallb_True in Hv'.
      eapply Forall_impl; [exact Hv'|]. intros k Hk.
      apply kind_disjunct_is_Some. by apply Is_true_true.
    - intros k Hk. apply dec_stable in Hk. rewrite Hk. apply kind_disjunct_NEVER. }
  split; [|split; [exact Hlen|done]].
  intros Hnil. rewrite Hnil in Hlen. symmetry in Hlen.
  apply nil_length_inv in Hlen.
  assert (Hall : Forall (fun k : OnComplete * (MethodConfig -> CallConfig) =>
                           ¬ snd k mc ≠ NEVER) approval_kinds).
  { apply Forall_forall. intros k Hk Hne.
    eapply filter_nil_not_elem_of; [exact Hlen|exact Hne|exact Hk]. }
  assert (forallb (fun k => (snd k mc =? NEVER)%Z) approval_kinds = true);
    [|congruence].
  apply Is_true_true. rewrite forallb_True.
  eapply Forall_impl; [exact Hall|]. intros k Hk. apply dec_stable in Hk.
  apply Is_true_true. by apply Z.eqb_eq.
Qed.

(** ** Bare-call constructions *)

Lemma wrap_handler_bare_is_Ok h :
  is_Ok (wrap_handler false h) = bare_handler_ok h.
Proof.
  unfold wrap_handler, wrap_bare_handler, bare_handler_ok. cbn [negb].
  destruct h as [|e|s|a]; [done|..]; repeat case_bool_decide; done.
Qed.

Lemma bare_cond_body_cases cc w :
  (cc = ALL ∧ bare_cond_body cc w = Ok w) ∨
  (cc = CALL ∧
   bare_cond_body cc w = Ok (Seq [Assert (Txn application_id != Int 0); w])) ∨
  (cc = CREATE ∧
   bare_cond_body cc w = Ok (Seq [Assert (Txn application_id == Int 0); w])) ∨
  ((cc ∉ [CALL; CREATE; ALL]) ∧
   bare_cond_body cc w = Raise (TealInternalError Unexpected_CallConfig_of_bare_call)).
Proof.
  unfold bare_cond_body.
  destruct (Z.eqb_spec cc ALL) as [->|Ha]; [by left|].
  destruct (Z.eqb_spec cc CALL) as [->|Hc]; [right; by left|].
  destruct (Z.eqb_spec cc CREATE) as [->|Hr]; [right; right; by left|].
  right; right; right. split; [|done].
  rewrite !not_elem_of_cons. repeat split; try done. apply not_elem_of_nil.
Qed.

Lemma bare_cond_body_is_Ok cc w :
  is_Ok (bare_cond_body cc w) = bool_decide (cc ∈ [CALL; CREATE; ALL]).
Proof.
  destruct (bare_cond_body_cases cc w) as [[-> ->]|[[-> ->]|[[-> ->]|[Hn ->]]]];
    try done.
  by rewrite bool_decide_eq_false_2.
Qed.

(** X6: a [BareCallActions] is empty exactly when neither construction
    gives a program part: [approval_construction] and
    [clear_state_construction] both return None. *)
Theorem BareCallActions_is_empty_iff_no_construction (bc : BareCallActions) :
  BareCallActions_is_empty bc = true ↔
  approval_construction bc = Ok None ∧ clear_state_construction bc = Ok None.
Proof.
  unfold BareCallActions_is_empty, approval_construction, clear_state_construction.
  cbn [BareCallActions_fields forallb snd]. split.
  - rewrite !andb_true_iff. intros (H1 & H2 & H3 & H4 & H5 & H6 & _).
    by rewrite H1, H2, H3, H4, H5, H6.
  - intros [Ha Hc].
    destruct (OnCompleteAction_is_empty (bc_clear_state bc)).
    2:{ destruct (wrap_handler false _); [|done]. cbn in Hc.
        by destruct (bare_cond_body _ _). }
    match type of Ha with (if ?b then _ else _) = _ => destruct b eqn:Hall end.
    2:{ by destruct (approval_construction_loop _ _). }
    rewrite !andb_true_iff in Hall. destruct Hall as (H1 & H2 & H3 & H4 & H5 & _).
    by rewrite H1, H2, H3, H4, H5.
Qed.

(** X7: [clear_state_construction] returns exactly when the clear-state
    action is empty, or its handler is one the bare mode accepts and its
    permission is CALL, CREATE or ALL. It returns None exactly for an empty
    action; otherwise the wrapped handler, alone under ALL and after the
    assertion of the creation test under CALL or CREATE. The handler is
    wrapped before the permission is looked at: what it raises is the
    error of the wrapping, or, for a handler that wraps,
    [TealInternalError]. *)
Theorem clear_state_construction_spec (bc : BareCallActions) :
  is_Ok (clear_state_construction bc) = bare_action_ok (bc_clear_state bc) ∧
  (clear_state_construction bc = Ok None ↔
   OnCompleteAction_is_empty (bc_clear_state bc) = true) ∧
  (∀ body, clear_state_construction bc = Ok (Some body) ->
     ∃ w, wrap_handler false (action (bc_clear_state bc)) = Ok w ∧
       ((call_config (bc_clear_state bc) = ALL ∧ body = w) ∨
        (call_config (bc_clear_state bc) = CALL ∧
         body = Seq [Assert (Txn application_id != Int 0); w]) ∨
        (call_config (bc_clear_state bc) = CREATE ∧
         body = Seq [Assert (Txn application_id == Int 0); w]))) ∧
  (∀ e, clear_state_construction bc = Raise e ->
     wrap_handler false (action (bc_clear_state bc)) = Raise e ∨
     (bare_handler_ok (action (bc_clear_state bc)) = true ∧
      e = TealInternalError Unexpected_CallConfig_of_bare_call)).
Proof.
  unfold clear_state_construction, bare_action_ok.
  destruct (OnCompleteAction_is_empty (bc_clear_state bc)).
  { split; [done|]. split; [done|]. split; [done|]. done. }
  rewrite <- wrap_handler_bare_is_Ok.
  destruct (wrap_handler false (action (bc_clear_state bc))) as [w|e0].
  2:{ split; [done|]. split; [done|]. split; [done|]. intros e [= <-]. by left. }
  cbn [mbind Result_bind is_Ok orb andb].
  pose proof (bare_cond_body_is_Ok (call_config (bc_clear_state bc)) w) as Hok.
  destruct (bare_cond_body_cases (call_config (bc_clear_state bc)) w)
    as [[Hcc Hb]|[[Hcc Hb]|[[Hcc Hb]|[Hn Hb]]]]; rewrite Hb in *; cbn in *.
  - split; [done|]. split; [done|]. split; [|done].
    intros body [= <-]. exists w. split; [done|]. by left.
  - split; [done|]. split; [done|]. split; [|done].
    intros body [= <-]. exists w. split; [done|]. right. by left.
  - split; [done|]. split; [done|]. split; [|done].
    intros body [= <-]. exists w. split; [done|]. right. by right.
  - split; [done|]. split; [done|]. split; [done|].
    intros e [= <-]. by right.
Qed.

Lemma approval_construction_loop_arms bc
    (kinds : list (OnComplete * (BareCallActions -> OnCompleteAction)))
    (nodes nodes' : list CondNode) :
  approval_construction_loop ((fun k => (fst k, snd k bc)) <$> kinds) nodes = Ok nodes' ->
  ∃ new,
    nodes' = nodes ++ new ∧
    Forall2 (fun k n =>
               condition n = (Txn on_completion == EnumInt (fst k)) ∧
               ∃ w, wrap_handler false (action (snd k bc)) = Ok w ∧
                    bare_cond_body (call_config (snd k bc)) w = Ok (branch n))
      (filter (fun k => OnCompleteAction_is_empty (snd k bc) = false) kinds) new.
Proof.
  revert nodes. induction kinds as [|[oc field] kinds IH]; intros nodes H.
  - cbn in H. injection H as <-. exists []. by rewrite app_nil_r.
  - cbn [fmap list_fmap approval_construction_loop fst snd] in H.
    rewrite filter_cons. cbn [snd].
    destruct (OnCompleteAction_is_empty (field bc)) eqn:He.
    + rewrite decide_False by done. by apply IH.
    + rewrite decide_True by done.
      destruct (wrap_handler false (action (field bc))) as [w|] eqn:Hw; [|done].
      cbn [mbind Result_bind] in H.
      destruct (bare_cond_body (call_config (field bc)) w) as [body|] eqn:Hb; [|done].
      cbn [mbind Result_bind] in H.
      apply IH in H as (new & -> & HF).
      eexists (_ :: new). rewrite <- app_assoc. split; [done|].
      constructor; [|done]. split; [done|]. by exists w.
Qed.

Lemma approval_construction_loop_is_Ok bc
    (kinds : list (OnComplete * (BareCallActions -> OnCompleteAction)))
    (nodes : list CondNode) :
  is_Ok (approval_construction_loop ((fun k => (fst k, snd k bc)) <$> kinds) nodes) =
  forallb (fun k => bare_action_ok (snd k bc)) kinds.
Proof.
  revert nodes. induction kinds as [|[oc field] kinds IH]; intros nodes; [done|].
  cbn [fmap list_fmap approval_construction_loop fst snd forallb].
  unfold bare_action_ok at 1. cbn [snd].
  destruct (OnCompleteAction_is_empty (field bc)); [apply IH|].
  rewrite <- wrap_handler_bare_is_Ok.
  destruct (wrap_handler false (action (field bc))) as [w|]; [|done].
  cbn [mbind Result_bind is_Ok orb andb].
  rewrite <- (bare_cond_body_is_Ok _ w).
  destruct (bare_cond_body (call_config (field bc)) w); [|done].
  cbn [mbind Result_bind is_Ok andb]. apply IH.
Qed.

Lemma approval_construction_pairs bc :
  [(NoOp, bc_no_op bc); (OptIn, bc_opt_in bc); (CloseOut, bc_close_out bc);
   (UpdateApplication, bc_update_application bc);
   (DeleteApplication, bc_delete_application bc)] =
  (fun k => (fst k, snd k bc)) <$> bare_approval_kinds.
Proof. reflexivity. Qed.

Lemma is_empty_bare_action_ok oca :
  OnCompleteAction_is_empty oca = true -> bare_action_ok oca = true.
Proof. unfold bare_action_ok. by intros ->. Qed.

Lemma approval_construction_is_Ok bc :
  is_Ok (approval_construction bc) =
  forallb (fun k => bare_action_ok (snd k bc)) bare_approval_kinds.
Proof.
  unfold approval_construction. cbv zeta.
  match goal with |- is_Ok (if ?b then _ else _) = _ => destruct b eqn:Hall end.
  - cbn [forallb snd] in Hall. rewrite !andb_true_iff in Hall.
    destruct Hall as (H1 & H2 & H3 & H4 & H5 & _).
    cbn [bare_approval_kinds forallb snd].
    by rewrite !is_empty_bare_action_ok.
  - rewrite approval_construction_pairs.
    rewrite <- (approval_construction_loop_is_Ok bc bare_approval_kinds []).
    by destruct (approval_construction_loop _ _).
Qed.

(** X8: when [approval_construction] returns a program part, it is a
    [Cond] with one arm for each of the five approval actions that is not
    empty, in the order NoOp, OptIn, CloseOut, UpdateApplication,
    DeleteApplication; there is at least one arm; each arm is guarded by
    [Txn.on_completion() == oc] for its kind, so no guard appears twice,
    and its body is the wrapped handler of that action under the action's
    permission. The clear-state action has no arm. *)
Theorem approval_construction_arms (bc : BareCallActions) (e : Expr) :
  approval_construction bc = Ok (Some e) ->
  let kinds :=
    filter (fun k => OnCompleteAction_is_empty (snd k bc) = false) bare_approval_kinds in
  ∃ nodes,
    e = Cond (cond_arms nodes) ∧
    nodes ≠ [] ∧
    condition <$> nodes = (fun k => Txn on_completion == EnumInt (fst k)) <$> kinds ∧
    NoDup (condition <$> nodes) ∧
    Forall2 (fun k n =>
               ∃ w, wrap_handler false (action (snd k bc)) = Ok w ∧
                    bare_cond_body (call_config (snd k bc)) w = Ok (branch n))
      kinds nodes.
Proof.
  intros H kinds. unfold approval_construction in H. cbv zeta in H.
  match type of H with (if ?b then _ else _) = _ => destruct b eqn:Hall end; [done|].
  rewrite approval_construction_pairs in H, Hall.
  destruct (approval_construction_loop _ _) as [nodes|] eqn:Hl; [|done].
  cbn in H. injection H as <-.
  apply approval_construction_loop_arms in Hl as (new & -> & HF).
  cbn [app]. fold kinds in HF. exists new.
  assert (Hc : condition <$> new =
               (fun k => Txn on_completion == EnumInt (fst k)) <$> kinds).
  { clear -HF. induction HF as [|k n ks ns [Hk _] _ IH]; [done|].
    cbn. by rewrite Hk, IH. }
  split; [done|]. split; [|split; [done|split]].
  - intros ->. apply Forall2_nil_inv_r in HF.
    assert (Hk : forallb (fun p : OnComplete * OnCompleteAction =>
                            OnCompleteAction_is_empty (snd p))
                   ((fun k => (fst k, snd k bc)) <$> bare_approval_kinds) = true);
      [|congruence].
    apply Is_true_true. rewrite forallb_True, Forall_fmap.
    apply Forall_forall. intros k Hk. cbn.
    destruct (OnCompleteAction_is_empty (snd k bc)) eqn:He; [done|].
    exfalso. eapply filter_nil_not_elem_of; [exact HF| |exact Hk]. done.
  - rewrite Hc.
    replace ((fun k => Txn on_completion == EnumInt (fst k)) <$> kinds)
      with ((fun oc => Txn on_completion == EnumInt oc) <$> (fst <$> kinds))
      by (by rewrite <- list_fmap_compose).
    apply NoDup_fmap_2; [by intros a b [=]|].
    apply (sublist_NoDup (fst <$> kinds) (fst <$> bare_approval_kinds)).
    + cbn [bare_approval_kinds fmap list_fmap fst].
      repeat (apply NoDup_cons; split;
              [rewrite ?not_elem_of_cons; repeat split; try (by intros [=]);
               apply not_elem_of_nil|]).
      apply NoDup_nil_2.
    + apply fmap_sublist, sublist_filter.
  - eapply Forall2_impl; [exact HF|]. by intros k n [_ ?].
Qed.

(** ** The constructor *)

Lemma clear_state_construction_is_Ok bc :
  is_Ok (clear_state_construction bc) = bare_action_ok (bc_clear_state bc).
Proof.
  unfold clear_state_construction, bare_action_ok.
  destruct (OnCompleteAction_is_empty (bc_clear_state bc)); [done|].
  rewrite <- wrap_handler_bare_is_Ok.
  destruct (wrap_handler false (action (bc_clear_state bc))) as [w|]; [|done].
  cbn [mbind Result_bind is_Ok orb andb].
  rewrite <- (bare_cond_body_is_Ok _ w).
  by destruct (bare_cond_body _ w).
Qed.

(** X9: [Router.__init__] returns exactly when each of the six bare-call
    actions is empty or has a handler the bare mode accepts with a
    permission CALL, CREATE or ALL (always, without bare calls); and
    [approval_construction] returns exactly when this holds of the five
    approval actions. *)
Theorem Router_init_returns_iff_actions_accepted (name : string)
    (bare_calls : option BareCallActions) :
  is_Ok (Router_init name bare_calls) =
    match bare_calls with
    | None => true
    | Some bc => forallb bare_action_ok (BareCallActions_fields bc)
    end ∧
  (∀ bc, is_Ok (approval_construction bc) =
         forallb (fun k => bare_action_ok (snd k bc)) bare_approval_kinds).
Proof.
  split; [|apply approval_construction_is_Ok].
  destruct bare_calls as [bc|]; [|done]. unfold Router_init.
  destruct (BareCallActions_is_empty bc) eqn:He; cbn [negb].
  - unfold BareCallActions_is_empty in He.
    cbn [BareCallActions_fields forallb] in *. rewrite !andb_true_iff in He.
    destruct He as (H1 & H2 & H3 & H4 & H5 & H6 & _).
    by rewrite !is_empty_bare_action_ok.
  - pose proof (approval_construction_is_Ok bc) as Ha.
    pose proof (clear_state_construction_is_Ok bc) as Hc.
    cbn [bare_approval_kinds BareCallActions_fields forallb snd] in *.
    destruct (approval_construction bc) as [oa|]; cbn [mbind Result_bind is_Ok] in *.
    + destruct (clear_state_construction bc) as [oc|]; cbn [mbind Result_bind is_Ok] in *.
      * rewrite <- Hc. rewrite !andb_true_r in Ha.
        symmetry in Ha. rewrite !andb_true_iff in Ha.
        destruct Ha as (-> & -> & -> & -> & ->). done.
      * rewrite <- Hc. by rewrite andb_false_r.
    + destruct (bare_action_ok (bc_no_op bc)), (bare_action_ok (bc_opt_in bc)),
        (bare_action_ok (bc_close_out bc)),
        (bare_action_ok (bc_update_application bc)),
        (bare_action_ok (bc_delete_application bc)),
        (bare_action_ok (bc_clear_state bc)); done.
Qed.

(** X10: a router constructed without bare calls is the router with two
    empty trees and an empty registry, from which no program can be built;
    a router constructed with bare calls is that router exactly when the
    bare calls are empty. *)
Theorem Router_init_is_empty_router (name : string) (bc : BareCallActions) :
  Router_init name None = Ok (empty_router name) ∧
  (Router_init name (Some bc) = Ok (empty_router name) ↔
   BareCallActions_is_empty bc = true) ∧
  build_program (empty_router name) =
    Raise (TealInputError Cannot_build_program_with_an_empty_AST).
Proof.
  split; [done|]. split; [|done]. split.
  - intros Hi. destruct (BareCallActions_is_empty bc) eqn:He; [done|]. exfalso.
    destruct (Router_init_trees _ _ _ He Hi) as (oa & oc & Hoa & Hoc & Ha & Hc).
    destruct (bare_calls_some_construction _ _ _ He Hoa Hoc) as [[e ->]|[e ->]]; done.
  - intros He. unfold Router_init. by rewrite He.
Qed.

(** ** Registrations *)

Lemma approval_cond_guard cfg ca :
  approval_cond cfg = Ok ca -> ca = CInt 0 ∨ ca = CInt 1 ∨ ∃ c, ca = CExpr c.
Proof.
  destruct ca as [n|c]; [|intros _; right; right; by eexists].
  intros [[-> _]|[-> _]]%approval_cond_CInt; [by left|right; by left].
Qed.

Lemma clear_state_cond_guard cfg cc :
  clear_state_cond cfg = Ok cc -> cc = CInt 0 ∨ cc = CInt 1 ∨ ∃ c, cc = CExpr c.
Proof.
  destruct cc as [n|c]; [|intros _; right; right; by eexists].
  unfold clear_state_cond.
  intros [[-> _]|[-> _]]%condition_under_config_CInt; [by left|right; by left].
Qed.

Lemma guards_0_is_never cfg :
  approval_cond cfg = Ok (CInt 0) -> clear_state_cond cfg = Ok (CInt 0) ->
  is_never cfg = true.
Proof.
  intros Ha Hc. apply is_never_fields. split.
  - by apply approval_cond_CInt in Ha as [[_ Hn]|[[=] _]].
  - unfold clear_state_cond in Hc.
    by apply condition_under_config_CInt in Hc as [[_ Hc]|[[=] _]].
Qed.

Lemma method_entries_nil sig cond w :
  cond = CInt 0 ∨ cond = CInt 1 ∨ (∃ c, cond = CExpr c) ->
  method_entries sig cond w = [] ↔ cond = CInt 0.
Proof. intros [->|[->|[c ->]]]; by split. Qed.

Lemma add_method_to_ast_Ok self sig cond h w :
  wrap_handler true (HABIReturn h) = Ok w ->
  cond = CInt 0 ∨ cond = CInt 1 ∨ (∃ c, cond = CExpr c) ->
  add_method_to_ast self sig cond h =
  ({| conditions_n_branches := conditions_n_branches self ++ method_entries sig cond w |},
   Ok ()).
Proof.
  intros Hw [->|[->|[c ->]]]; unfold add_method_to_ast; rewrite ?Hw; try done.
  destruct self. cbn. by rewrite app_nil_r.
Qed.

Lemma add_method_to_ast_Raise self sig cond h e :
  wrap_handler true (HABIReturn h) = Raise e ->
  cond = CInt 1 ∨ (∃ c, cond = CExpr c) ->
  add_method_to_ast self sig cond h = (self, Raise e).
Proof. intros Hw [->|[c ->]]; unfold add_method_to_ast; by rewrite Hw. Qed.

(** The shortcut for a compliant configuration (lines 541-544) does what
    the general path does with the guards of the configuration. *)
Lemma feed_method_guards r sig h cfg ca cc :
  approval_cond cfg = Ok ca -> clear_state_cond cfg = Ok cc ->
  feed_method r sig h cfg =
  let '(ast, res) := add_method_to_ast (approval_ast r) sig ca h in
  let self := set_approval_ast r ast in
  match res with
  | Raise e => (self, Raise e)
  | Ok _ =>
      let '(ast, res) := add_method_to_ast (clear_state_ast self) sig cc h in
      (set_clear_state_ast self ast, res)
  end.
Proof.
  intros Ha Hc. unfold feed_method.
  destruct (is_arc4_compliant cfg) eqn:E.
  - apply is_arc4_compliant_fields in E as [E1 E2].
    rewrite (approval_cond_all_ALL _ E1) in Ha. injection Ha as <-.
    unfold clear_state_cond in Hc. rewrite E2 in Hc. by injection Hc as <-.
  - by rewrite Ha, Hc.
Qed.

Lemma feed_method_guard_raises r sig h cfg :
  is_Ok (approval_cond cfg) = false ∨ is_Ok (clear_state_cond cfg) = false ->
  ∃ e, feed_method r sig h cfg = (r, Raise e).
Proof.
  intros H. unfold feed_method.
  destruct (is_arc4_compliant cfg) eqn:E.
  - exfalso. apply is_arc4_compliant_fields in E as [E1 E2].
    rewrite (approval_cond_all_ALL _ E1) in H. unfold clear_state_cond in H.
    rewrite E2 in H. by destruct H.
  - destruct (approval_cond cfg); [|by eexists].
    destruct (clear_state_cond cfg); [|by eexists]. by destruct H.
Qed.

(** What feeding a method into the two trees comes to. *)
Lemma feed_method_outcome r sig h cfg :
  (∃ ca cc w,
     approval_cond cfg = Ok ca ∧ clear_state_cond cfg = Ok cc ∧
     wrap_handler true (HABIReturn h) = Ok w ∧
     feed_method r sig h cfg = (with_method_entries r sig ca cc w, Ok ())) ∨
  (∃ e, feed_method r sig h cfg = (r, Raise e)) ∨
  (approval_cond cfg = Ok (CInt 0) ∧ clear_state_cond cfg = Ok (CInt 0) ∧
   feed_method r sig h cfg = (r, Ok ())).
Proof.
  destruct (approval_cond cfg) as [ca|ea] eqn:Ha.
  2:{ right; left. apply feed_method_guard_raises. left. by rewrite Ha. }
  destruct (clear_state_cond cfg) as [cc|ec] eqn:Hc.
  2:{ right; left. apply feed_method_guard_raises. right. by rewrite Hc. }
  rewrite (feed_method_guards r sig h cfg ca cc Ha Hc).
  pose proof (approval_cond_guard _ _ Ha) as Hga.
  pose proof (clear_state_cond_guard _ _ Hc) as Hgc.
  destruct (wrap_handler true (HABIReturn h)) as [w|e] eqn:Hw.
  - left. exists ca, cc, w. repeat split; try done.
    rewrite (add_method_to_ast_Ok _ sig ca h w Hw Hga). cbn.
    by rewrite (add_method_to_ast_Ok _ sig cc h w Hw Hgc).
  - destruct Hga as [->|Hga].
    + rewrite add_method_to_ast_CInt_0. cbn -[add_method_to_ast].
      destruct Hgc as [->|Hgc].
      * right; right. rewrite add_method_to_ast_CInt_0. by destruct r.
      * right; left. exists e.
        rewrite (add_method_to_ast_Raise _ sig cc h e Hw Hgc). by destruct r.
    + right; left. exists e.
      rewrite (add_method_to_ast_Raise _ sig ca h e Hw Hga). by destruct r.
Qed.

(** X11: [add_method_handler] returns exactly when the signature is
    computed, the configuration is not never executed, the signature and
    its selector are new, both guards of the configuration are built and
    the handler wraps. The router then has the pair in its registry and
    each tree has grown by the entries of the method for its guard: none
    under the constant 0, the wrapped handler under the constant 1, the
    assertion of the guard then the wrapped handler otherwise; at least
    one tree has grown. *)
Theorem add_method_handler_returns (self : Router) (method_call : ABIReturnSubroutine)
    (overriding_name : option string) (method_config : MethodConfig) :
  (is_Ok (snd (add_method_handler self method_call overriding_name method_config)) = true ↔
   ∃ sig ca cc w,
     method_signature method_call overriding_name = Ok sig ∧
     is_never method_config = false ∧
     method_sig_to_selector self !! sig = None ∧
     method_selector_to_sig self !! selector_of sig = None ∧
     approval_cond method_config = Ok ca ∧
     clear_state_cond method_config = Ok cc ∧
     wrap_handler true (HABIReturn method_call) = Ok w) ∧
  (∀ sig ca cc w,
     method_signature method_call overriding_name = Ok sig ->
     is_never method_config = false ->
     method_sig_to_selector self !! sig = None ->
     method_selector_to_sig self !! selector_of sig = None ->
     approval_cond method_config = Ok ca ->
     clear_state_cond method_config = Ok cc ->
     wrap_handler true (HABIReturn method_call) = Ok w ->
     add_method_handler self method_call overriding_name method_config =
       (with_method_entries (record_method self sig (selector_of sig)) sig ca cc w,
        Ok ()) ∧
     (method_entries sig ca w ≠ [] ∨ method_entries sig cc w ≠ [])).
Proof.
  assert (Hgo : ∀ sig ca cc w,
     method_signature method_call overriding_name = Ok sig ->
     is_never method_config = false ->
     method_sig_to_selector self !! sig = None ->
     method_selector_to_sig self !! selector_of sig = None ->
     approval_cond method_config = Ok ca ->
     clear_state_cond method_config = Ok cc ->
     wrap_handler true (HABIReturn method_call) = Ok w ->
     add_method_handler self method_call overriding_name method_config =
       (with_method_entries (record_method self sig (selector_of sig)) sig ca cc w,
        Ok ()) ∧
     (method_entries sig ca w ≠ [] ∨ method_entries sig cc w ≠ [])).
  { intros sig ca cc w Hsig Hn Hs Hsel Ha Hc Hw. split.
    - unfold add_method_handler. rewrite Hsig, Hn, Hs, Hsel.
      destruct (feed_method_outcome (record_method self sig (selector_of sig)) sig
                  method_call method_config)
        as [(ca' & cc' & w' & Ha' & Hc' & Hw' & ->)|[[e He]|(Ha' & Hc' & _)]].
      + congruence.
      + exfalso. rewrite (feed_method_guards _ _ _ _ _ _ Ha Hc) in He.
        rewrite (add_method_to_ast_Ok _ sig ca _ w Hw (approval_cond_guard _ _ Ha)) in He.
        cbn in He.
        by rewrite (add_method_to_ast_Ok _ sig cc _ w Hw (clear_state_cond_guard _ _ Hc))
          in He.
      + by rewrite (guards_0_is_never _ Ha' Hc') in Hn.
    - destruct (approval_cond_guard _ _ Ha) as [->|Hca].
      + destruct (clear_state_cond_guard _ _ Hc) as [->|Hcc].
        * by rewrite (guards_0_is_never _ Ha Hc) in Hn.
        * right. by destruct Hcc as [->|[c ->]].
      + left. by destruct Hca as [->|[c ->]]. }
  split; [|exact Hgo]. split.
  - unfold add_method_handler.
    destruct (method_signature method_call overriding_name) as [sig|]; [|done].
    destruct (is_never method_config) eqn:Hn; [done|].
    destruct (method_sig_to_selector self !! sig) eqn:Hs; [done|].
    destruct (method_selector_to_sig self !! selector_of sig) eqn:Hsel; [done|].
    destruct (feed_method_outcome (record_method self sig (selector_of sig)) sig
                method_call method_config)
      as [(ca & cc & w & Ha & Hc & Hw & ->)|[[e ->]|(Ha & Hc & _)]].
    + intros _. by exists sig, ca, cc, w.
    + done.
    + by rewrite (guards_0_is_never _ Ha Hc) in Hn.
  - intros (sig & ca & cc & w & Hsig & Hn & Hs & Hsel & Ha & Hc & Hw).
    by destruct (Hgo sig ca cc w Hsig Hn Hs Hsel Ha Hc Hw) as [-> _].
Qed.

(** X12: when [add_method_handler] raises, both trees and the name are as
    before. The registry is as before too, unless the error came after the
    three checks (a guard that cannot be built, a handler that does not
    wrap): then the signature and its selector stay recorded, so that the
    contract lists a method no entry dispatches to. *)
Theorem add_method_handler_raise_keeps_trees (self : Router)
    (method_call : ABIReturnSubroutine) (overriding_name : option string)
    (method_config : MethodConfig) (e : Error) :
  snd (add_method_handler self method_call overriding_name method_config) = Raise e ->
  let r' := fst (add_method_handler self method_call overriding_name method_config) in
  approval_ast r' = approval_ast self ∧
  clear_state_ast r' = clear_state_ast self ∧
  name r' = name self ∧
  (r' = self ∨
   ∃ sig,
     method_signature method_call overriding_name = Ok sig ∧
     r' = record_method self sig (selector_of sig) ∧
     (sig ∉ contract_methods (contract_construct self)) ∧
     sig ∈ contract_methods (contract_construct r')).
Proof.
  unfold add_method_handler.
  destruct (method_signature method_call overriding_name) as [sig|];
    [|intros _; repeat split; by left].
  destruct (is_never method_config) eqn:Hn; [intros _; repeat split; by left|].
  destruct (method_sig_to_selector self !! sig) eqn:Hs;
    [intros _; repeat split; by left|].
  destruct (method_selector_to_sig self !! selector_of sig) eqn:Hsel;
    [intros _; repeat split; by left|].
  destruct (feed_method_outcome (record_method self sig (selector_of sig)) sig
              method_call method_config)
    as [(ca & cc & w & Ha & Hc & Hw & ->)|[[e' ->]|(Ha & Hc & _)]].
  - done.
  - intros _. cbn. repeat split. right. exists sig. repeat split.
    + cbn. by apply not_elem_of_dom.
    + cbn. apply elem_of_dom. rewrite lookup_insert_eq. by eexists.
  - by rewrite (guards_0_is_never _ Ha Hc) in Hn.
Qed.

Lemma add_method_handler_Ok_inv self h n cfg r' :
  add_method_handler self h n cfg = (r', Ok ()) ->
  ∃ sig ca cc w,
    method_signature h n = Ok sig ∧
    is_never cfg = false ∧
    method_sig_to_selector self !! sig = None ∧
    method_selector_to_sig self !! selector_of sig = None ∧
    approval_cond cfg = Ok ca ∧
    clear_state_cond cfg = Ok cc ∧
    wrap_handler true (HABIReturn h) = Ok w ∧
    r' = with_method_entries (record_method self sig (selector_of sig)) sig ca cc w.
Proof.
  unfold add_method_handler.
  destruct (method_signature h n) as [sig|]; [|done].
  destruct (is_never cfg) eqn:Hn; [done|].
  destruct (method_sig_to_selector self !! sig) eqn:Hs; [done|].
  destruct (method_selector_to_sig self !! selector_of sig) eqn:Hsel; [done|].
  destruct (feed_method_outcome (record_method self sig (selector_of sig)) sig h cfg)
    as [(ca & cc & w & Ha & Hc & Hw & ->)|[[e ->]|(Ha & Hc & _)]].
  - intros [= <-]. by exists sig, ca, cc, w.
  - done.
  - by rewrite (guards_0_is_never _ Ha Hc) in Hn.
Qed.

Lemma register_selectors r c :
  (∀ sig sel, method_sig_to_selector r !! sig = Some sel -> sel = selector_of sig) ->
  ∀ sig sel,
    method_sig_to_selector (register r c) !! sig = Some sel ->
    sel = selector_of sig ∧
    (is_Some (method_sig_to_selector r !! sig) ∨ registration_sig c = Some sig).
Proof.
  intros Hr sig sel. unfold register.
  destruct (add_method_handler_cases r (reg_method_call c) (reg_overriding_name c)
              (reg_method_config c))
    as [[-> _]|(sig' & Hsig & _ & _ & _ & _ & -> & _)].
  - intros H. split; [by apply Hr|]. left. by eexists.
  - destruct (decide (sig = sig')) as [->|Hne].
    + rewrite lookup_insert_eq. intros [= <-]. split; [done|].
      right. unfold registration_sig. by rewrite Hsig.
    + rewrite lookup_insert_ne by done. intros H. split; [by apply Hr|].
      left. by eexists.
Qed.

Lemma register_all_selectors r cs :
  (∀ sig sel, method_sig_to_selector r !! sig = Some sel -> sel = selector_of sig) ->
  ∀ sig sel,
    method_sig_to_selector (register_all r cs) !! sig = Some sel ->
    sel = selector_of sig ∧
    (is_Some (method_sig_to_selector r !! sig) ∨ sig ∈ omap registration_sig cs).
Proof.
  revert r. induction cs as [|c cs IH]; intros r Hr sig sel H.
  - cbn in H. split; [by apply Hr|]. left. by eexists.
  - cbn [register_all foldl] in H.
    assert (Hr' : ∀ sig sel, method_sig_to_selector (register r c) !! sig = Some sel ->
                             sel = selector_of sig).
    { intros g s Hg. by apply (register_selectors r c Hr g s). }
    destruct (IH (register r c) Hr' sig sel H) as [Hsel [[s Hs]|Hin]].
    + split; [done|].
      destruct (register_selectors r c Hr sig s Hs) as [_ [Hold|Hc]]; [by left|].
      right. rewrite omap_registration_sig_cons, Hc. by left.
    + split; [done|]. right. rewrite omap_registration_sig_cons.
      apply elem_of_app. by right.
Qed.

(** X13: in a router as constructed and after any registrations, whether
    they returned or raised, the two dictionaries hold the same pairs;
    every recorded signature is the signature of one of the
    registrations and is recorded with its own selector, the first four
    bytes of its checksum; and no two methods of the contract have the
    same selector. *)
Theorem registry_after_registrations (name : string)
    (bare_calls : option BareCallActions) (r : Router) (cs : list Registration) :
  Router_init name bare_calls = Ok r ->
  let r' := register_all r cs in
  (∀ sig sel,
     method_sig_to_selector r' !! sig = Some sel ↔
     method_selector_to_sig r' !! sel = Some sig) ∧
  (∀ sig sel,
     method_sig_to_selector r' !! sig = Some sel ->
     sel = String.substring 0 4 (checksum sig) ∧
     sig ∈ omap registration_sig cs) ∧
  (∀ sig1 sig2,
     sig1 ∈ contract_methods (contract_construct r') ->
     sig2 ∈ contract_methods (contract_construct r') ->
     selector_of sig1 = selector_of sig2 -> sig1 = sig2).
Proof.
  intros Hi r'.
  pose proof (register_all_consistent _ _ _ cs Hi) as Hc. fold r' in Hc.
  apply Router_init_registry in Hi as [H1 _].
  assert (Hr : ∀ sig sel, method_sig_to_selector r !! sig = Some sel ->
                          sel = selector_of sig).
  { intros sig sel. by rewrite H1, lookup_empty. }
  pose proof (register_all_selectors r cs Hr) as Hs. fold r' in Hs.
  split; [exact Hc|]. split.
  - intros sig sel H. destruct (Hs sig sel H) as [-> [[s Hold]|Hin]].
    + by rewrite H1, lookup_empty in Hold.
    + done.
  - cbn. intros sig1 sig2 [s1 E1]%elem_of_dom [s2 E2]%elem_of_dom Heq.
    destruct (Hs _ _ E1) as [-> _]. destruct (Hs _ _ E2) as [-> _].
    rewrite <- Heq in E2. apply Hc in E1, E2. congruence.
Qed.

Lemma Router_init_tree_sigs name bare_calls r :
  Router_init name bare_calls = Ok r ->
  omap entry_sig (conditions_n_branches (approval_ast r)) = [] ∧
  omap entry_sig (conditions_n_branches (clear_state_ast r)) = [].
Proof.
  unfold Router_init. destruct bare_calls as [bc|]; [|by intros [= <-]].
  destruct (BareCallActions_is_empty bc); cbn [negb]; [by intros [= <-]|].
  destruct (approval_construction bc) as [oa|]; [|done]. cbn [mbind Result_bind].
  destruct (clear_state_construction bc) as [oc|]; [|done]. cbn [mbind Result_bind].
  intros [= <-]. by destruct oa, oc.
Qed.

Lemma appended_entry_sigs sig old new :
  appended sig old new ->
  omap entry_sig new = omap entry_sig old ∨
  omap entry_sig new = omap entry_sig old ++ [sig].
Proof.
  intros [->|[body ->]]; [by left|]. right. by rewrite omap_app.
Qed.

(** The method entries of the two trees dispatch on pairwise distinct
    signatures, all of them recorded. *)
Lemma register_entry_sigs r c :
  let sigs_a r := omap entry_sig (conditions_n_branches (approval_ast r)) in
  let sigs_c r := omap entry_sig (conditions_n_branches (clear_state_ast r)) in
  NoDup (sigs_a r) ∧ NoDup (sigs_c r) ∧
  (∀ sig, sig ∈ sigs_a r ∨ sig ∈ sigs_c r -> is_Some (method_sig_to_selector r !! sig)) ->
  NoDup (sigs_a (register r c)) ∧ NoDup (sigs_c (register r c)) ∧
  (∀ sig, sig ∈ sigs_a (register r c) ∨ sig ∈ sigs_c (register r c) ->
          is_Some (method_sig_to_selector (register r c) !! sig)).
Proof.
  intros sigs_a sigs_c (Ha & Hc & Hin). unfold register.
  destruct (add_method_handler_cases r (reg_method_call c) (reg_overriding_name c)
              (reg_method_config c))
    as [[-> _]|(sig & _ & _ & Hnew & _ & _ & Hreg & _ & Hta & Htc)]; [done|].
  set (r' := fst (add_method_handler _ _ _ _)) in *.
  assert (Hna : sig ∉ sigs_a r).
  { intros H. destruct (Hin sig (or_introl H)) as [s Hs]. congruence. }
  assert (Hnc : sig ∉ sigs_c r).
  { intros H. destruct (Hin sig (or_intror H)) as [s Hs]. congruence. }
  apply appended_entry_sigs in Hta, Htc.
  fold (sigs_a r') (sigs_a r) in Hta. fold (sigs_c r') (sigs_c r) in Htc.
  assert (Hsub : ∀ g, g ∈ sigs_a r' ∨ g ∈ sigs_c r' ->
                      g = sig ∨ g ∈ sigs_a r ∨ g ∈ sigs_c r).
  { intros g [Hg|Hg].
    - destruct Hta as [E|E]; rewrite E in Hg; [by right; left|].
      apply elem_of_app in Hg as [Hg|Hg%list_elem_of_singleton];
        [by right; left|by left].
    - destruct Htc as [E|E]; rewrite E in Hg; [by right; right|].
      apply elem_of_app in Hg as [Hg|Hg%list_elem_of_singleton];
        [by right; right|by left]. }
  split; [|split].
  - destruct Hta as [->| ->]; [done|].
    apply NoDup_app. split; [done|]. split; [|apply NoDup_singleton].
    by intros g Hg ->%list_elem_of_singleton.
  - destruct Htc as [->| ->]; [done|].
    apply NoDup_app. split; [done|]. split; [|apply NoDup_singleton].
    by intros g Hg ->%list_elem_of_singleton.
  - intros g Hg. rewrite Hreg. destruct (Hsub g Hg) as [->|Hold].
    + rewrite lookup_insert_eq. by eexists.
    + destruct (decide (g = sig)) as [->|Hne];
        [rewrite lookup_insert_eq; by eexists|].
      rewrite lookup_insert_ne by done. by apply Hin.
Qed.

(** X14: in a router as constructed and after any registrations, no tree
    holds two entries for the same method signature, and every signature
    an entry dispatches on is a method of the contract. *)
Theorem trees_hold_each_method_once (name : string)
    (bare_calls : option BareCallActions) (r : Router) (cs : list Registration) :
  Router_init name bare_calls = Ok r ->
  let r' := register_all r cs in
  NoDup (omap entry_sig (conditions_n_branches (approval_ast r'))) ∧
  NoDup (omap entry_sig (conditions_n_branches (clear_state_ast r'))) ∧
  (∀ sig,
     sig ∈ omap entry_sig (conditions_n_branches (approval_ast r')) ∨
     sig ∈ omap entry_sig (conditions_n_branches (clear_state_ast r')) ->
     sig ∈ contract_methods (contract_construct r')).
Proof.
  intros Hi r'.
  apply Router_init_tree_sigs in Hi as [Ea Ec].
  assert (H0 : NoDup (omap entry_sig (conditions_n_branches (approval_ast r))) ∧
               NoDup (omap entry_sig (conditions_n_branches (clear_state_ast r))) ∧
               (∀ sig,
                  sig ∈ omap entry_sig (conditions_n_branches (approval_ast r)) ∨
                  sig ∈ omap entry_sig (conditions_n_branches (clear_state_ast r)) ->
                  is_Some (method_sig_to_selector r !! sig))).
  { rewrite Ea, Ec. split; [apply NoDup_nil_2|]. split; [apply NoDup_nil_2|].
    intros sig [H|H]; by apply elem_of_nil in H. }
  clear Ea Ec. unfold r'. clear r'. revert r H0.
  induction cs as [|c cs IH]; intros r H0.
  - destruct H0 as (Ha & Hc & Hin). split; [done|]. split; [done|].
    intros sig Hs. cbn. apply elem_of_dom. by apply Hin.
  - cbn [register_all foldl]. apply (IH (register r c)).
    by apply register_entry_sigs.
Qed.

(** X15: registering the same method twice in a row raises the second
    time, whatever the first call did, and leaves the router as the first
    call left it. *)
Theorem add_method_handler_twice (self : Router) (method_call : ABIReturnSubroutine)
    (overriding_name : option string) (method_config : MethodConfig) :
  let r1 := fst (add_method_handler self method_call overriding_name method_config) in
  fst (add_method_handler r1 method_call overriding_name method_config) = r1 ∧
  is_Ok (snd (add_method_handler r1 method_call overriding_name method_config)) = false.
Proof.
  intros r1.
  destruct (add_method_handler_cases self method_call overriding_name method_config)
    as [[E Hno]|(sig & Hsig & Hn & _ & _ & _ & Hreg & _)]; fold r1 in E || fold r1 in Hreg.
  - by rewrite E.
  - unfold add_method_handler. rewrite Hsig, Hn, Hreg, lookup_insert_eq. done.
Qed.


(** ** The marshaling of a method's arguments *)

Lemma omap_imap_Some {A B} (g : B -> option A) (f : nat -> A -> B) (l : list A) :
  (∀ i x, g (f i x) = Some x) -> omap g (imap f l) = l.
Proof.
  revert f. induction l as [|x l IH]; intros f H; [done|].
  rewrite imap_cons. cbn. rewrite H. cbn. f_equal. apply IH. intros i y. apply H.
Qed.

Lemma app_decode_instructions_written l :
  omap written (app_decode_instructions l) = l.
Proof. by apply omap_imap_Some. Qed.

Lemma txn_decode_instructions_written l :
  omap written (txn_decode_instructions l) = l.
Proof. by apply omap_imap_Some. Qed.

Lemma call_and_approve_written handler arg_vals :
  omap written (call_and_approve handler arg_vals) = [].
Proof. unfold call_and_approve. by destruct (abi_type_of handler). Qed.

(** The value objects the marshaling instructions write, in order: the
    decoded application arguments, the transaction arguments, and the
    targets of the destructuring. *)
Lemma decode_instructions_of_written arg_vals instrs :
  decode_instructions_of arg_vals = Ok instrs ->
  omap written instrs =
    app_arg_vals_tuplified (app_arg_vals_of arg_vals) ++
    txn_arg_vals_of arg_vals ++
    (if tuplify_of (app_arg_vals_of arg_vals)
     then slice_from (METHOD_ARG_NUM_CUTOFF - 1) arg_vals else []).
Proof.
  unfold decode_instructions_of. intros H.
  set (decodes := app_decode_instructions _) in *.
  set (sets := txn_decode_instructions _) in *.
  assert (E : (if bool_decide (0 < length (txn_arg_vals_of arg_vals))
               then decodes ++ sets else decodes) = decodes ++ sets).
  { case_bool_decide as Hk; [done|]. unfold sets.
    destruct (txn_arg_vals_of arg_vals); [by rewrite app_nil_r|cbn in Hk; lia]. }
  rewrite E in H. clear E.
  assert (Hds : omap written (decodes ++ sets) =
                app_arg_vals_tuplified (app_arg_vals_of arg_vals) ++
                txn_arg_vals_of arg_vals).
  { unfold decodes, sets.
    by rewrite omap_app, app_decode_instructions_written,
      txn_decode_instructions_written. }
  destruct (tuplify_of (app_arg_vals_of arg_vals)).
  - destruct (list_last _) as [t|]; [|done]. cbn [mbind Result_bind] in H.
    destruct (de_tuple_instructions _ _ _) as [l|] eqn:Hl; [|done].
    cbn [mbind Result_bind] in H. injection H as <-.
    apply de_tuple_instructions_shape in Hl as [_ Hl].
    by rewrite omap_app, Hds, Hl, <- app_assoc.
  - injection H as <-. by rewrite Hds, app_nil_r.
Qed.

(** When arguments are packed and indexing rejects the indexes outside the
    tuple, the instructions are built only for a method without
    transaction arguments. *)
Lemma decode_instructions_of_tuplify_no_txn arg_vals instrs :
  (1 <= METHOD_ARG_NUM_CUTOFF)%Z ->
  (∀ t j, tuple_length t <= j -> is_Ok (Tuple_getitem t j) = false) ->
  tuplify_of (app_arg_vals_of arg_vals) = true ->
  decode_instructions_of arg_vals = Ok instrs ->
  Forall (fun ats => ¬ is_Transaction ats) arg_vals.
Proof.
  intros Hc Hget Ht Hi.
  unfold decode_instructions_of in Hi.
  unfold app_arg_vals_tuplified in Hi. rewrite Ht in Hi.
  rewrite slice_to_nonneg, !slice_from_nonneg in Hi by lia.
  set (c := Z.to_nat (METHOD_ARG_NUM_CUTOFF - 1)) in *.
  rewrite list_last_snoc in Hi. cbn [mbind Result_bind] in Hi.
  destruct (de_tuple_instructions _ 0 (drop c arg_vals)) as [l|] eqn:Hl; [|done].
  pose proof (de_tuple_instructions_bounds _ _ _ _ (Hget _) Hl) as Hb.
  unfold tuple_length in Hb. cbn in Hb. rewrite length_fmap, !length_drop in Hb.
  assert (Hd : c < length (app_arg_vals_of arg_vals)).
  { unfold tuplify_of in Ht. apply bool_decide_eq_true in Ht. unfold c. lia. }
  assert (Hle : length (app_arg_vals_of arg_vals) <= length arg_vals)
    by apply length_filter.
  apply (length_filter_Forall (fun ats => ¬ is_Transaction ats)).
  fold (app_arg_vals_of arg_vals).
  destruct (decide (length arg_vals - c = 0)) as [|Hne]; [lia|].
  specialize (Hb (length arg_vals - c - 1)). lia.
Qed.

Lemma filter_nil_Forall {A} (P : A -> Prop) `{∀ x, Decision (P x)} (l : list A) :
  filter P l = [] -> Forall (fun x => ¬ P x) l.
Proof.
  intros Hf. apply Forall_forall. intros x Hx HP.
  by eapply filter_nil_not_elem_of.
Qed.

Lemma filter_partition_Permutation {A} (P : A -> Prop)
    `{HP : ∀ x, Decision (P x)} `{HN : ∀ x, Decision (¬ P x)} (l : list A) :
  filter (fun x => ¬ P x) l ++ filter P l ≡ₚ l.
Proof.
  induction l as [|x l IH]; [done|].
  rewrite !filter_cons.
  destruct (decide (P x)) as [Hx|Hx], (decide (¬ P x)) as [Hn|Hn]; try done.
  - rewrite <- Permutation_middle. by constructor.
  - cbn. by constructor.
Qed.

Lemma arg_vals_of_not_last ts :
  Forall (fun v => instance v ≠ last_arg) (arg_vals_of ts).
Proof.
  apply Forall_forall. intros v Hv.
  by apply elem_of_lookup_imap_1 in Hv as (i & t & -> & _).
Qed.

(** X17: with a cutoff of at least 1 and a tuple indexing that returns the
    elements inside the tuple and rejects the indexes outside it, the
    method mode of [wrap_handler] returns exactly for a routable ABI
    subroutine that has at most the cutoff of direct arguments or has no
    transaction argument: a method with more direct arguments than the
    cutoff and a transaction argument is never wrapped. *)
Theorem wrap_handler_method_returns_iff (h : Handler) :
  (1 <= METHOD_ARG_NUM_CUTOFF)%Z ->
  (∀ t j, tuple_length t <= j -> is_Ok (Tuple_getitem t j) = false) ->
  (∀ t j, j < tuple_length t -> Tuple_getitem t j = Ok (Tuple_element t j)) ->
  is_Ok (wrap_handler true h) = true ↔
  ∃ handler,
    h = HABIReturn handler ∧
    is_abi_routable handler = true ∧
    ((Z.of_nat (length (app_arg_vals_of (arg_vals_of (expected_arg_types handler))))
      <= METHOD_ARG_NUM_CUTOFF)%Z ∨
     txn_arg_vals_of (arg_vals_of (expected_arg_types handler)) = []).
Proof.
  intros Hc Hout Hin. split.
  - unfold wrap_handler, wrap_method_handler. cbn [negb].
    destruct h as [|e|s|handler]; try done.
    destruct (is_abi_routable handler) eqn:Hr; [|done]. cbn [negb].
    set (arg_vals := arg_vals_of (expected_arg_types handler)).
    destruct (decode_instructions_of arg_vals) as [instrs|] eqn:Hi; [|done].
    intros _. exists handler. split; [done|]. split; [done|].
    destruct (tuplify_of (app_arg_vals_of arg_vals)) eqn:Ht.
    + right. apply filter_none.
      eapply Forall_impl;
        [exact (decode_instructions_of_tuplify_no_txn _ _ Hc Hout Ht Hi)|].
      intros v Hv Hv'. by apply Hv.
    + left. unfold tuplify_of in Ht. apply bool_decide_eq_false in Ht.
      subst arg_vals. lia.
  - intros (handler & -> & Hr & Hcase).
    set (arg_vals := arg_vals_of (expected_arg_types handler)) in *.
    destruct (tuplify_of (app_arg_vals_of arg_vals)) eqn:Ht.
    + pose proof Ht as Ht'. unfold tuplify_of in Ht'.
      apply bool_decide_eq_true in Ht'.
      destruct Hcase as [Hd|Hk]; [lia|].
      assert (Hno : Forall (fun v => ¬ is_Transaction v) arg_vals).
      { apply filter_nil_Forall in Hk.
        eapply Forall_impl; [exact Hk|]. intros v Hv Hv'. by apply Hv. }
      assert (Happ : app_arg_vals_of arg_vals = arg_vals) by by apply filter_all.
      rewrite Happ in Ht'.
      by rewrite (wrap_method_handler_body handler _ Hr
                    (decode_instructions_of_packed _ Hc Hno Ht' Hin)).
    + by rewrite (wrap_method_handler_body handler _ Hr
                    (decode_instructions_of_plain _ Ht)).
Qed.

Lemma store_into_omap_decode_slot l :
  Forall (fun e => is_store_into e) l -> omap decode_slot l = [].
Proof. intros H. by apply omap_decode_slot_none, store_into_no_Decode. Qed.

(** X18: with a cutoff of at least 1, a wrapped method reads the
    call-argument slots 1, ..., min(d, cutoff), each once and in this
    order, [d] being its number of direct arguments: never slot 0, which
    holds the selector, and never a slot beyond the cutoff. *)
Theorem wrap_handler_reads_slots_up_to_cutoff (handler : ABIReturnSubroutine)
    (body : list Expr) :
  (1 <= METHOD_ARG_NUM_CUTOFF)%Z ->
  wrap_handler true (HABIReturn handler) = Ok (Seq body) ->
  omap decode_slot body =
    seq 1 (length (app_arg_vals_of (arg_vals_of (expected_arg_types handler)))
           `min` Z.to_nat METHOD_ARG_NUM_CUTOFF).
Proof.
  intros Hc (Hr & instrs & Hi & ->)%wrap_method_handler_inv.
  set (arg_vals := arg_vals_of (expected_arg_types handler)) in *.
  apply decode_instructions_of_shape in Hi as (de_tuple & -> & Hst).
  rewrite !omap_app, app_decode_instructions_slots.
  rewrite (omap_decode_slot_none _ (txn_decode_instructions_no_Decode _)).
  rewrite (store_into_omap_decode_slot _ Hst).
  rewrite (omap_decode_slot_none _ (call_and_approve_no_Decode _ _)).
  rewrite !app_nil_r. f_equal.
  unfold app_arg_vals_tuplified.
  destruct (tuplify_of (app_arg_vals_of arg_vals)) eqn:Ht; unfold tuplify_of in Ht.
  - apply bool_decide_eq_true in Ht.
    rewrite length_app, slice_to_nonneg, length_take by lia. cbn. lia.
  - apply bool_decide_eq_false in Ht. lia.
Qed.

(** X19: with a cutoff of at least 1 and an indexing that rejects the
    indexes outside the tuple, the instructions of a wrapped method that
    come before the call write every parameter of the method exactly once
    (and, when arguments are packed, the tuple they are read from): no
    parameter is left unset and none is written twice. The call then
    takes the parameters in declared order. *)
Theorem wrap_handler_writes_each_argument_once (handler : ABIReturnSubroutine)
    (body : list Expr) :
  (1 <= METHOD_ARG_NUM_CUTOFF)%Z ->
  (∀ t j, tuple_length t <= j -> is_Ok (Tuple_getitem t j) = false) ->
  wrap_handler true (HABIReturn handler) = Ok (Seq body) ->
  ∃ instrs,
    body = instrs ++ call_and_approve handler (arg_vals_of (expected_arg_types handler)) ∧
    filter (fun v => instance v ≠ last_arg) (omap written instrs) ≡ₚ
      arg_vals_of (expected_arg_types handler) ∧
    NoDup (instance <$> omap written instrs).
Proof.
  intros Hc Hout (Hr & instrs & Hi & ->)%wrap_method_handler_inv.
  set (arg_vals := arg_vals_of (expected_arg_types handler)) in *.
  exists instrs. split; [done|].
  pose proof (decode_instructions_of_written _ _ Hi) as Hw.
  set (tup := new_instance last_arg
                (TupleTypeSpec
                   (type_spec <$> slice_from (METHOD_ARG_NUM_CUTOFF - 1)
                                    (app_arg_vals_of arg_vals)))).
  assert (Hp : omap written instrs ≡ₚ
               (if tuplify_of (app_arg_vals_of arg_vals) then [tup] else []) ++ arg_vals).
  { rewrite Hw. unfold app_arg_vals_tuplified.
    destruct (tuplify_of (app_arg_vals_of arg_vals)) eqn:Ht.
    - pose proof (decode_instructions_of_tuplify_no_txn _ _ Hc Hout Ht Hi) as Hno.
      assert (Happ : app_arg_vals_of arg_vals = arg_vals) by by apply filter_all.
      assert (Htxn : txn_arg_vals_of arg_vals = []).
      { apply filter_none. eapply Forall_impl; [exact Hno|].
        intros v Hv Hv'. by apply Hv. }
      fold tup. rewrite Htxn, Happ.
      rewrite slice_to_nonneg, slice_from_nonneg by lia.
      cbn [app]. rewrite <- app_assoc. cbn [app].
      rewrite <- Permutation_middle. constructor. by rewrite take_drop.
    - rewrite app_nil_r. cbn [app]. apply filter_partition_Permutation. }
  assert (Hf : filter (fun v => instance v ≠ last_arg)
                 ((if tuplify_of (app_arg_vals_of arg_vals) then [tup] else []) ++
                  arg_vals) = arg_vals).
  { rewrite filter_app, (filter_all _ arg_vals (arg_vals_of_not_last _)).
    destruct (tuplify_of _); [|done].
    by rewrite filter_cons_False by (intros H; by apply H). }
  split.
  - by rewrite Hp, Hf.
  - rewrite Hp, fmap_app. apply NoDup_app. split; [|split].
    + destruct (tuplify_of _); [apply NoDup_singleton|apply NoDup_nil_2].
    + intros i Hi1 Hi2.
      destruct (tuplify_of _); [|by apply elem_of_nil in Hi1].
      apply list_elem_of_singleton in Hi1 as ->.
      apply list_elem_of_fmap in Hi2 as (v & Hv1 & Hv2).
      pose proof (arg_vals_of_not_last (expected_arg_types handler)) as Hnl.
      rewrite Forall_forall in Hnl. by apply (Hnl v Hv2).
    + apply arg_vals_of_NoDup.
Qed.

(** X20: whatever [wrap_handler] returns ends the program: it is the given
    expression when that already returns (in bare mode), and otherwise a
    sequence whose last element is [Approve]. A wrapped method is always
    such a sequence. *)
Theorem wrap_handler_ends_with_Approve (is_method_call : bool) (h : Handler) (w : Expr) :
  wrap_handler is_method_call h = Ok w ->
  (∃ e, is_method_call = false ∧ h = HExpr e ∧ expr_has_return e = true ∧ w = Given e) ∨
  (∃ body, w = Seq body ∧ last body = Some Approve).
Proof.
  unfold wrap_handler. destruct is_method_call; cbn [negb].
  - unfold wrap_method_handler. destruct h as [|e|s|a]; try done.
    destruct (is_abi_routable a); [|done]. cbn [negb].
    destruct (decode_instructions_of _) as [instrs|]; [|done]. cbn [mbind Result_bind].
    intros H. right.
    destruct (abi_type_of a); injection H as <-; eexists; (split; [done|]);
      by rewrite last_app.
  - unfold wrap_bare_handler. destruct h as [|e|s|a]; try done.
    + case_bool_decide; [done|]. intros [= <-].
      destruct (expr_has_return e) eqn:Hret.
      * left. by exists e.
      * right. by eexists.
    + repeat (case_bool_decide; [done|]). intros [= <-]. right. by eexists.
    + repeat (case_bool_decide; [done|]). intros [= <-]. right. by eexists.
Qed.

(** The guards of a configuration raise one error only. *)
Lemma approval_cond_error cfg e :
  approval_cond cfg = Raise e -> e = TealInternalError unexpected_CallConfig.
Proof.
  destruct (forallb (fun k => is_enumerant (snd k cfg)) approval_kinds) eqn:Hv.
  - by rewrite (approval_cond_of_enumerants _ Hv).
  - rewrite (approval_cond_outside _ Hv). by intros [= <-].
Qed.

Lemma clear_state_cond_error cfg e :
  clear_state_cond cfg = Raise e -> e = TealInternalError unexpected_CallConfig.
Proof.
  unfold clear_state_cond.
  destruct (is_enumerant (mc_clear_state cfg)) eqn:Hv.
  - by destruct (is_enumerant_cases _ Hv) as [->|[->|[->| ->]]].
  - rewrite (condition_under_config_outside _ Hv). by intros [= <-].
Qed.

Lemma feed_method_error r sig h cfg e :
  snd (feed_method r sig h cfg) = Raise e ->
  approval_cond cfg = Raise e ∨ clear_state_cond cfg = Raise e ∨
  wrap_handler true (HABIReturn h) = Raise e.
Proof.
  destruct (approval_cond cfg) as [ca|ea] eqn:Ha.
  2:{ unfold feed_method. destruct (is_arc4_compliant cfg) eqn:E.
      - apply is_arc4_compliant_fields in E as [E1 _].
        by rewrite (approval_cond_all_ALL _ E1) in Ha.
      - rewrite Ha. cbn. intros [= <-]. by left. }
  destruct (clear_state_cond cfg) as [cc|ec] eqn:Hc.
  2:{ unfold feed_method. destruct (is_arc4_compliant cfg) eqn:E.
      - apply is_arc4_compliant_fields in E as [_ E2].
        unfold clear_state_cond in Hc. by rewrite E2 in Hc.
      - rewrite Ha, Hc. cbn. intros [= <-]. right. by left. }
  rewrite (feed_method_guards r sig h cfg ca cc Ha Hc).
  pose proof (approval_cond_guard _ _ Ha) as Hga.
  pose proof (clear_state_cond_guard _ _ Hc) as Hgc.
  destruct (wrap_handler true (HABIReturn h)) as [w|e'] eqn:Hw.
  - rewrite (add_method_to_ast_Ok _ sig ca h w Hw Hga). cbn -[add_method_to_ast].
    by rewrite (add_method_to_ast_Ok _ sig cc h w Hw Hgc).
  - destruct Hga as [->|Hga].
    + rewrite add_method_to_ast_CInt_0. cbn -[add_method_to_ast].
      destruct Hgc as [->|Hgc]; [by rewrite add_method_to_ast_CInt_0|].
      rewrite (add_method_to_ast_Raise _ sig cc h e' Hw Hgc). cbn.
      intros [= <-]. right. by right.
    + rewrite (add_method_to_ast_Raise _ sig ca h e' Hw Hga). cbn.
      intros [= <-]. right. by right.
Qed.

(** X22: what [add_method_handler] raises is the error of the signature,
    one of its own three rejections, the [TealInternalError] of a
    permission that is no enumerant, or the error of the wrapping: the
    "Invalid condition input" arm of [add_method_to_ast] is never reached
    from it. *)
Theorem add_method_handler_errors (self : Router) (method_call : ABIReturnSubroutine)
    (overriding_name : option string) (method_config : MethodConfig) (e : Error) :
  snd (add_method_handler self method_call overriding_name method_config) = Raise e ->
  method_signature method_call overriding_name = Raise e ∨
  ∃ sig,
    method_signature method_call overriding_name = Ok sig ∧
    ((is_never method_config = true ∧ e = TealInputError (is_never_executed sig)) ∨
     (is_Some (method_sig_to_selector self !! sig) ∧
      e = TealInputError (re_registering_method sig)) ∨
     (∃ other,
        method_selector_to_sig self !! selector_of sig = Some other ∧
        e = TealInputError (has_hash_collision sig other)) ∨
     e = TealInternalError unexpected_CallConfig ∨
     wrap_handler true (HABIReturn method_call) = Raise e).
Proof.
  unfold add_method_handler.
  destruct (method_signature method_call overriding_name) as [sig|e0];
    [|cbn; intros [= <-]; by left].
  intros H. right. exists sig. split; [done|].
  destruct (is_never method_config) eqn:Hn.
  { cbn in H. injection H as <-. by left. }
  destruct (method_sig_to_selector self !! sig) eqn:Hs.
  { cbn in H. injection H as <-. right; left. split; [by eexists|done]. }
  destruct (method_selector_to_sig self !! selector_of sig) as [other|] eqn:Hsel.
  { cbn in H. injection H as <-. right; right; left. by exists other. }
  apply feed_method_error in H as [H|[H|H]].
  - right; right; right; left. by eapply approval_cond_error.
  - right; right; right; left. by eapply clear_state_cond_error.
  - right; right; right. by right.
Qed.

(** X23: a method registered through [Router.method] with the defaults of
    the decorator is dispatched in the approval program only, its entry
    asserting "NoOp and not a creation" before the wrapped handler; the
    clear-state tree is left as it was. *)
Theorem Router_method_defaults (self r' : Router) (wrapped_subroutine : ABIReturnSubroutine)
    (name : option string) :
  Router_method self wrapped_subroutine name CALL NEVER NEVER NEVER NEVER NEVER =
    (r', Ok ()) ->
  ∃ sig w,
    method_signature wrapped_subroutine name = Ok sig ∧
    wrap_handler true (HABIReturn wrapped_subroutine) = Ok w ∧
    conditions_n_branches (approval_ast r') =
      conditions_n_branches (approval_ast self) ++
      [{| condition := Txn_application_args 0 == MethodSignature sig;
          branch :=
            Seq [Assert (Or [And (Txn on_completion == EnumInt NoOp)
                               (Txn application_id != Int 0)]);
                 w] |}] ∧
    conditions_n_branches (clear_state_ast r') =
      conditions_n_branches (clear_state_ast self).
Proof.
  unfold Router_method.
  intros (sig & ca & cc & w & Hsig & _ & _ & _ & Ha & Hc & Hw & ->)%add_method_handler_Ok_inv.
  vm_compute in Ha. injection Ha as <-.
  vm_compute in Hc. injection Hc as <-.
  exists sig, w. split; [done|]. split; [done|]. split; [done|].
  cbn. by rewrite app_nil_r.
Qed.

End Router.

(** * Worked instances *)

(** C1, at a void method that takes a transaction and then sixteen
    [uint64], with cutoff 15. The packed arguments are the fifteenth and
    sixteenth direct arguments ([arg_vals[15]] and [arg_vals[16]]), but the
    destructuring slices [arg_vals], not the direct arguments, at position
    14 and so has three targets, starting at the fourteenth direct argument
    ([arg_vals[14]]), which was decoded from its own slot 14. With an
    indexing that checks its bound the wrapping raises at index 2 of the
    two-element tuple; with one that does not, element 0 is stored into the
    fourteenth direct argument, element 1 into the fifteenth and an element
    2 into the sixteenth. *)
Theorem wrap_handler_packing_with_txn_arg :
  let arg_vals := arg_vals_of (expected_arg_types txn_then_16) in
  let a i := new_instance (arg_val i) uint64 in
  let tup := new_instance last_arg (TupleTypeSpec [uint64; uint64]) in
  drop 14 (app_arg_vals_of arg_vals) = [a 15; a 16] ∧
  wrap_handler 15 Tuple_getitem_checked true (HABIReturn txn_then_16) =
    Raise (TealInputError (raised_outside "Index out of bounds")) ∧
  (∃ body,
     wrap_handler 15 Tuple_getitem_unchecked true (HABIReturn txn_then_16) =
       Ok (Seq body) ∧
     body !! 13 = Some (Decode (a 14) (Txn_application_args 14)) ∧
     body !! 14 = Some (Decode tup (Txn_application_args 15)) ∧
     filter (fun e => is_store_into e) body =
       [store_of tup 0 (a 14); store_of tup 1 (a 15); store_of tup 2 (a 16)]) ∧
  (∀ Tuple_getitem body,
     wrap_handler 15 Tuple_getitem true (HABIReturn txn_then_16) = Ok (Seq body) ->
     omap written (filter (fun e => is_store_into e) body) = [a 14; a 15; a 16]).
Proof.
  intros arg_vals a tup. split; [reflexivity|]. split; [reflexivity|]. split.
  - eexists. split; [reflexivity|]. repeat split.
  - intros G body H.
    apply wrap_method_handler_inv in H as (_ & instrs & Hi & ->).
    unfold decode_instructions_of in Hi. vm_compute in Hi.
    destruct (G _ 0) as [e0|]; [|done].
    destruct (G _ 1) as [e1|]; [|done].
    destruct (G _ 2) as [e2|]; [|done].
    injection Hi as <-. reflexivity.
Qed.

(** The default configuration: NoOp on an existing application. *)
Lemma approval_cond_spec_default :
  forallb (fun k => is_enumerant (snd k MethodConfig_default)) approval_kinds = true ∧
  approval_cond MethodConfig_default =
    Ok (CExpr (Or [And (Txn on_completion == EnumInt NoOp)
                       (Txn application_id != Int 0)])) ∧
  clear_state_cond MethodConfig_default = Ok (CInt 0).
Proof.
  split; [reflexivity|].
  destruct (approval_cond_spec MethodConfig_default) as (_ & _ & H & _ & _ & _ & Hc).
  split; [exact (H eq_refl)|exact Hc].
Defined.

(** [add(uint64,uint64)uint64]: two decodes, from slots 1 and 2. *)
Lemma wrap_handler_decodes_direct_args_add :
  is_abi_routable add_method = true ∧
  (Z.of_nat (length (app_arg_vals_of (arg_vals_of (expected_arg_types add_method))))
   <= 15)%Z ∧
  ∃ body,
    wrap_handler 15 Tuple_getitem_checked true (HABIReturn add_method) = Ok (Seq body) ∧
    filter (fun e => is_Decode e) body =
      [Decode (new_instance (arg_val 0) uint64) (Txn_application_args 1);
       Decode (new_instance (arg_val 1) uint64) (Txn_application_args 2)] ∧
    omap decode_slot body = [1; 2].
Proof.
  split; [reflexivity|]. split; [vm_compute; discriminate|].
  destruct (wrap_handler_decodes_direct_args 15 Tuple_getitem_checked example_decode
              add_method) as (body & H1 & H2 & _ & _ & H5 & _);
    [reflexivity|vm_compute; discriminate|].
  exists body. split; [exact H1|]. split; [exact H2|exact H5].
Defined.

(** C2 as stated, at [deposit(pay,uint64)void] with cutoff 15: the [uint64]
    is the parameter at position 1 of the method and the only direct
    argument; the one decode instruction reads it from slot 1, and nothing
    reads it from slot 2, its parameter position plus one. *)
Lemma direct_arg_slot_is_not_parameter_position_plus_one :
  let arg_vals := arg_vals_of (expected_arg_types deposit_method) in
  let amount := new_instance (arg_val 1) uint64 in
  arg_vals !! 1 = Some amount ∧
  is_Transaction amount = false ∧
  (Z.of_nat (length (app_arg_vals_of arg_vals)) <= 15)%Z ∧
  ∃ body,
    wrap_handler 15 Tuple_getitem_checked true (HABIReturn deposit_method) =
      Ok (Seq body) ∧
    filter (fun e => is_Decode e) body = [Decode amount (Txn_application_args 1)] ∧
    Decode amount (Txn_application_args (1 + 1)) ∉ body.
Proof.
  intros arg_vals amount. split; [reflexivity|]. split; [reflexivity|].
  split; [vm_compute; discriminate|].
  eexists. split; [reflexivity|]. split; [reflexivity|].
  intros Hin. repeat (apply elem_of_cons in Hin as [[=]|Hin]).
  by apply elem_of_nil in Hin.
Qed.

(** [swap(uint64,pay,axfer)void]: the payment is the transaction two places
    before the call, the transfer the one just before it. *)
Lemma wrap_handler_resolves_txn_args_swap :
  ∃ body,
    wrap_handler 15 Tuple_getitem_checked true (HABIReturn pay_and_transfer) =
      Ok (Seq body) ∧
    filter (fun e => is_Transaction_set e) body =
      [Transaction_set (new_instance (arg_val 1) (TransactionTypeSpec "pay"))
         (BinaryExpr op_minus (Txn group_index) (Int 2));
       Transaction_set (new_instance (arg_val 2) (TransactionTypeSpec "axfer"))
         (BinaryExpr op_minus (Txn group_index) (Int 1))] ∧
    filter (fun e => is_Decode e) body =
      [Decode (new_instance (arg_val 0) uint64) (Txn_application_args 1)].
Proof.
  destruct (wrap_handler_resolves_txn_args 15 Tuple_getitem_checked example_decode
              pay_and_transfer) as (Hany & _ & _).
  eexists. split; [reflexivity|]. split; [|reflexivity].
  eapply proj1, Hany. reflexivity.
Defined.

(** Registering [add(uint64,uint64)uint64] in a new router. *)
Lemma add_method_handler_registry_add :
  let sig := "add(uint64,uint64)uint64" in
  let out :=
    add_method_handler 15 Tuple_getitem_checked example_checksum (empty_router "app")
      add_method None MethodConfig_default in
  method_signature add_method None = Ok sig ∧
  registry_consistent (empty_router "app") ∧
  snd out = Ok () ∧
  method_sig_to_selector (fst out) = <[sig := "add("]> ∅ ∧
  method_selector_to_sig (fst out) = <["add(" := sig]> ∅ ∧
  registry_consistent (fst out).
Proof.
  intros sig out.
  assert (Hc : registry_consistent (empty_router "app")).
  { intros g s. cbn. rewrite !lookup_empty. split; discriminate. }
  assert (Hok : snd out = Ok ()) by reflexivity.
  destruct (add_method_handler_registry 15 Tuple_getitem_checked example_checksum
              (empty_router "app") add_method None MethodConfig_default sig
              eq_refl Hc) as (_ & _ & _ & _ & Hnew & Hc').
  destruct (Hnew Hok) as (_ & _ & H1 & H2).
  split; [reflexivity|]. split; [exact Hc|]. split; [exact Hok|].
  split; [exact H1|]. split; [exact H2|exact Hc'].
Defined.

(** A router given a bare NoOp action for existing applications. *)
Lemma Router_init_bare_call_entry_first_no_op :
  let bare_calls :=
    BareCallActions_no_op {| action := HExpr log_expr; call_config := CALL |} in
  let on_no_op :=
    Cond [(Txn on_completion == EnumInt NoOp,
           Seq [Assert (Txn application_id != Int 0);
                Seq [Given log_expr; Approve]])] in
  BareCallActions_is_empty bare_calls = false ∧
  ∃ r,
    Router_init 15 Tuple_getitem_checked "app" (Some bare_calls) = Ok r ∧
    conditions_n_branches (approval_ast r) =
      [{| condition := Txn application_args_length == Int 0; branch := on_no_op |}] ∧
    conditions_n_branches (clear_state_ast r) = [] ∧
    ∀ cs : list Registration,
      ∃ sigs_a methods_a,
        sigs_a `sublist_of` omap registration_sig cs ∧
        conditions_n_branches
          (approval_ast (register_all 15 Tuple_getitem_checked example_checksum r cs)) =
          {| condition := Txn application_args_length == Int 0; branch := on_no_op |}
            :: methods_a ∧
        condition <$> methods_a =
          (fun sig => Txn_application_args 0 == MethodSignature sig) <$> sigs_a.
Proof.
  intros bare_calls on_no_op. split; [reflexivity|].
  eexists. split; [reflexivity|]. split; [reflexivity|]. split; [reflexivity|].
  intros cs.
  edestruct (Router_init_bare_call_entry_first 15 Tuple_getitem_checked example_checksum
               "app" bare_calls) as (oa & oc & _ & _ & _ & _ & _ & _ & Hreg);
    [reflexivity|reflexivity|].
  destruct (Hreg cs) as (sa & _ & ma & _ & Hsa & _ & Ha & Hca & _).
  exists sa, ma. split; [exact Hsa|]. split; [exact Ha|exact Hca].
Defined.

(** The same router builds an approval program and no clear-state
    program. *)
Lemma program_construction_bare_no_op :
  ∃ r,
    Router_init 15 Tuple_getitem_checked "app"
      (Some (BareCallActions_no_op {| action := HExpr log_expr; call_config := CALL |})) =
      Ok r ∧
    is_Ok (program_construction (approval_ast r)) = true ∧
    program_construction (clear_state_ast r) =
      Raise (TealInputError Cannot_build_program_with_an_empty_AST) ∧
    build_program r = Raise (TealInputError Cannot_build_program_with_an_empty_AST).
Proof.
  destruct (program_construction_spec 15 Tuple_getitem_checked) as (_ & _ & _ & _ & H).
  destruct (H "app"%string (HExpr log_expr) CALL
              (Seq [Given log_expr; Approve])
              (Seq [Assert (Txn application_id != Int 0);
                    Seq [Given log_expr; Approve]])
              eq_refl eq_refl)
    as (oca & r & Hoca & Hr & Ha & _ & _ & Hc & Hb).
  injection Hoca as <-.
  exists r. split; [exact Hr|]. split; [by rewrite Ha|]. split; [exact Hc|exact Hb].
Defined.

(** A router with no bare call and only [add(uint64,uint64)uint64] under
    the default configuration: the method is registered, and the build
    raises. *)
Lemma clear_state_NEVER_default_add :
  let out :=
    add_method_handler 15 Tuple_getitem_checked example_checksum (empty_router "app")
      add_method None MethodConfig_default in
  Router_init 15 Tuple_getitem_checked "app" None = Ok (empty_router "app") ∧
  snd out = Ok () ∧
  length (conditions_n_branches (approval_ast (fst out))) = 1 ∧
  conditions_n_branches (clear_state_ast (fst out)) = [] ∧
  build_program (fst out) =
    Raise (TealInputError Cannot_build_program_with_an_empty_AST).
Proof.
  intros out.
  destruct (clear_state_NEVER_builds_no_clear_state_program 15 Tuple_getitem_checked
              example_checksum) as (_ & _ & Hbuild).
  split; [reflexivity|]. split; [reflexivity|]. split; [reflexivity|].
  split; [reflexivity|].
  apply (Hbuild "app"%string None (empty_router "app")
           [{| reg_method_call := add_method; reg_overriding_name := None;
               reg_method_config := MethodConfig_default |}]).
  - reflexivity.
  - by left.
  - by repeat constructor.
Defined.

(** Registering the method of C1 in a new router, with an indexing that
    checks its bound: the call raises from the wrapping, after the
    signature and its selector were recorded. *)
Lemma add_method_handler_raises_after_recording :
  let out :=
    add_method_handler 15 Tuple_getitem_checked example_checksum (empty_router "app")
      txn_then_16 None MethodConfig_default in
  snd out = Raise (TealInputError (raised_outside "Index out of bounds")) ∧
  ∃ sig,
    method_signature txn_then_16 None = Ok sig ∧
    method_sig_to_selector (fst out) !! sig = Some "f(tx"%string ∧
    method_selector_to_sig (fst out) !! "f(tx"%string = Some sig.
Proof. split; [reflexivity|]. eexists. repeat split; reflexivity. Qed.

(** ** Instances of the further properties *)

(** The default configuration: one disjunct, for NoOp. *)
Lemma approval_cond_disjunction_not_empty_default :
  ∃ e,
    approval_cond MethodConfig_default = Ok (CExpr e) ∧
    ∃ cond_list, e = Or cond_list ∧ cond_list ≠ [] ∧ length cond_list = 1.
Proof.
  eexists. split; [reflexivity|].
  destruct (approval_cond_disjunction_not_empty MethodConfig_default _ eq_refl)
    as (l & H1 & H2 & H3 & _).
  exists l. split; [exact H1|]. split; [exact H2|exact H3].
Defined.

(** A bare NoOp action for every caller: one arm, guarded by the NoOp
    test. *)
Lemma approval_construction_arms_no_op :
  ∃ e,
    approval_construction 15 Tuple_getitem_checked
      (BareCallActions_no_op {| action := HExpr log_expr; call_config := ALL |}) =
      Ok (Some e) ∧
    ∃ nodes,
      e = Cond (cond_arms nodes) ∧
      nodes ≠ [] ∧
      condition <$> nodes = [Txn on_completion == EnumInt NoOp].
Proof.
  eexists. split; [reflexivity|].
  destruct (approval_construction_arms 15 Tuple_getitem_checked
              (BareCallActions_no_op {| action := HExpr log_expr; call_config := ALL |})
              _ eq_refl) as (nodes & H1 & H2 & H3 & _).
  exists nodes. split; [exact H1|]. split; [exact H2|exact H3].
Defined.

(** The method of C1 in a new router: the registration raises from the
    wrapping, the trees stay empty, and the contract lists the method. *)
Lemma add_method_handler_raise_keeps_trees_txn_then_16 :
  let out :=
    add_method_handler 15 Tuple_getitem_checked example_checksum (empty_router "app")
      txn_then_16 None MethodConfig_default in
  snd out = Raise (TealInputError (raised_outside "Index out of bounds")) ∧
  approval_ast (fst out) = approval_ast (empty_router "app") ∧
  clear_state_ast (fst out) = clear_state_ast (empty_router "app") ∧
  ∃ sig,
    method_signature txn_then_16 None = Ok sig ∧
    sig ∈ contract_methods (contract_construct (fst out)).
Proof.
  intros out.
  assert (Hr : snd out = Raise (TealInputError (raised_outside "Index out of bounds")))
    by reflexivity.
  destruct (add_method_handler_raise_keeps_trees 15 Tuple_getitem_checked
              example_checksum (empty_router "app") txn_then_16 None
              MethodConfig_default _ Hr) as (Ha & Hc & _ & Hreg).
  split; [exact Hr|]. split; [exact Ha|]. split; [exact Hc|].
  destruct Hreg as [Hsame|(sig & Hsig & _ & _ & Hin)].
  - exfalso. apply (f_equal (fun r => size (method_sig_to_selector r))) in Hsame.
    revert Hsame. vm_compute. discriminate.
  - exists sig. split; [exact Hsig|exact Hin].
Defined.

(** A new router after the registration of [add(uint64,uint64)uint64]. *)
Lemma registry_after_registrations_add :
  Router_init 15 Tuple_getitem_checked "app" None = Ok (empty_router "app") ∧
  ∀ sig sel,
    method_sig_to_selector
      (register_all 15 Tuple_getitem_checked example_checksum (empty_router "app")
         [{| reg_method_call := add_method; reg_overriding_name := None;
             reg_method_config := MethodConfig_default |}]) !! sig = Some sel ->
    sel = String.substring 0 4 (example_checksum sig).
Proof.
  split; [reflexivity|]. intros sig sel H.
  destruct (registry_after_registrations 15 Tuple_getitem_checked example_checksum
              "app" None (empty_router "app")
              [{| reg_method_call := add_method; reg_overriding_name := None;
                  reg_method_config := MethodConfig_default |}] eq_refl)
    as (_ & Hsel & _).
  exact (proj1 (Hsel sig sel H)).
Defined.

(** The same router: [add] registered twice, then [swap]. *)
Lemma trees_hold_each_method_once_add_twice :
  Router_init 15 Tuple_getitem_checked "app" None = Ok (empty_router "app") ∧
  NoDup (omap entry_sig
           (conditions_n_branches
              (approval_ast
                 (register_all 15 Tuple_getitem_checked example_checksum
                    (empty_router "app")
                    [{| reg_method_call := add_method; reg_overriding_name := None;
                        reg_method_config := MethodConfig_default |};
                     {| reg_method_call := add_method; reg_overriding_name := None;
                        reg_method_config := arc4_compliant |};
                     {| reg_method_call := pay_and_transfer; reg_overriding_name := None;
                        reg_method_config := MethodConfig_default |}])))).
Proof.
  split; [reflexivity|].
  exact (proj1 (trees_hold_each_method_once 15 Tuple_getitem_checked example_checksum
                  "app" None (empty_router "app") _ eq_refl)).
Defined.


(** An indexing that checks its bound, with cutoff 15: the method of C1,
    with sixteen direct arguments and a transaction, is not wrapped;
    [add], with two direct arguments, is. *)
Lemma wrap_handler_method_returns_iff_checked :
  (1 <= 15)%Z ∧
  (∀ t j, tuple_length t <= j -> is_Ok (Tuple_getitem_checked t j) = false) ∧
  (∀ t j, j < tuple_length t -> Tuple_getitem_checked t j = Ok (Tuple_element t j)) ∧
  is_Ok (wrap_handler 15 Tuple_getitem_checked true (HABIReturn txn_then_16)) ≠ true ∧
  is_Ok (wrap_handler 15 Tuple_getitem_checked true (HABIReturn add_method)) = true.
Proof.
  assert (H1 : (1 <= 15)%Z) by discriminate.
  assert (H2 : ∀ t j, tuple_length t <= j -> is_Ok (Tuple_getitem_checked t j) = false).
  { intros t j Hj. unfold Tuple_getitem_checked.
    destruct (decide (j < tuple_length t)); [lia|reflexivity]. }
  assert (H3 : ∀ t j, j < tuple_length t ->
                      Tuple_getitem_checked t j = Ok (Tuple_element t j)).
  { intros t j Hj. unfold Tuple_getitem_checked.
    destruct (decide (j < tuple_length t)); [reflexivity|lia]. }
  split; [exact H1|]. split; [exact H2|]. split; [exact H3|]. split.
  - intros H.
    apply (proj1 (wrap_handler_method_returns_iff 15 Tuple_getitem_checked
                    (HABIReturn txn_then_16) H1 H2 H3)) in H
      as (handler & Hh & _ & [Hd|Hk]).
    + injection Hh as <-. revert Hd. vm_compute. intros Hd. apply Hd. reflexivity.
    + injection Hh as <-. revert Hk. vm_compute. discriminate.
  - apply (proj2 (wrap_handler_method_returns_iff 15 Tuple_getitem_checked
                    (HABIReturn add_method) H1 H2 H3)).
    exists add_method. split; [reflexivity|]. split; [reflexivity|].
    left. vm_compute. discriminate.
Defined.

(** Sixteen [uint64] with cutoff 15: slots 1 to 15 are read. *)
Lemma wrap_handler_reads_slots_up_to_cutoff_sixteen :
  (1 <= 15)%Z ∧
  ∃ body,
    wrap_handler 15 Tuple_getitem_checked true (HABIReturn sixteen_uint64) =
      Ok (Seq body) ∧
    omap decode_slot body = seq 1 15.
Proof.
  assert (H1 : (1 <= 15)%Z) by discriminate.
  split; [exact H1|]. eexists. split; [reflexivity|].
  exact (wrap_handler_reads_slots_up_to_cutoff 15 Tuple_getitem_checked sixteen_uint64
           _ H1 eq_refl).
Defined.

(** [swap(uint64,pay,axfer)void]: the three parameters are each written
    once before the call. *)
Lemma wrap_handler_writes_each_argument_once_swap :
  (1 <= 15)%Z ∧
  (∀ t j, tuple_length t <= j -> is_Ok (Tuple_getitem_checked t j) = false) ∧
  ∃ body instrs,
    wrap_handler 15 Tuple_getitem_checked true (HABIReturn pay_and_transfer) =
      Ok (Seq body) ∧
    body = instrs ++
           call_and_approve pay_and_transfer
             (arg_vals_of (expected_arg_types pay_and_transfer)) ∧
    NoDup (instance <$> omap written instrs).
Proof.
  assert (H1 : (1 <= 15)%Z) by discriminate.
  assert (H2 : ∀ t j, tuple_length t <= j -> is_Ok (Tuple_getitem_checked t j) = false).
  { intros t j Hj. unfold Tuple_getitem_checked.
    destruct (decide (j < tuple_length t)); [lia|reflexivity]. }
  split; [exact H1|]. split; [exact H2|]. eexists.
  destruct (wrap_handler_writes_each_argument_once 15 Tuple_getitem_checked
              pay_and_transfer _ H1 H2 eq_refl) as (instrs & Hb & _ & Hnd).
  exists instrs. split; [reflexivity|]. split; [exact Hb|exact Hnd].
Defined.

(** [add(uint64,uint64)uint64], wrapped as a method. *)
Lemma wrap_handler_ends_with_Approve_add :
  ∃ body,
    wrap_handler 15 Tuple_getitem_checked true (HABIReturn add_method) = Ok (Seq body) ∧
    last body = Some Approve.
Proof.
  destruct (wrap_handler_ends_with_Approve 15 Tuple_getitem_checked true
              (HABIReturn add_method) _ eq_refl)
    as [(e & Hm & _)|(body & Hb & Hl)]; [discriminate Hm|].
  exists body. split; [|exact Hl]. rewrite <- Hb. reflexivity.
Defined.

(** Sixteen [uint64] with cutoff 15: the fifteenth and the sixteenth are
    read as one tuple from slot 15. *)
Lemma wrap_handler_packs_trailing_args_sixteen :
  is_abi_routable sixteen_uint64 = true ∧
  (1 <= 15)%Z ∧
  Forall (fun v => ¬ is_Transaction v) (arg_vals_of (expected_arg_types sixteen_uint64)) ∧
  (15 < Z.of_nat (length (arg_vals_of (expected_arg_types sixteen_uint64))))%Z ∧
  (∀ t j, j < tuple_length t -> Tuple_getitem_checked t j = Ok (Tuple_element t j)) ∧
  omap decode_slot
    (app_decode_instructions
       (take 14 (arg_vals_of (expected_arg_types sixteen_uint64)) ++
        [new_instance last_arg (TupleTypeSpec [uint64; uint64])])) = seq 1 15.
Proof.
  assert (H1 : (1 <= 15)%Z) by discriminate.
  assert (H2 : Forall (fun v => ¬ is_Transaction v)
                 (arg_vals_of (expected_arg_types sixteen_uint64))).
  { apply Forall_forall. intros v Hv.
    apply elem_of_lookup_imap_1 in Hv as (i & t & Hv & Ht). rewrite Hv.
    apply lookup_replicate in Ht as [Ht _]. rewrite Ht. exact (fun H => H). }
  assert (H3 : (15 < Z.of_nat (length (arg_vals_of (expected_arg_types sixteen_uint64))))%Z)
    by reflexivity.
  assert (H4 : ∀ t j, j < tuple_length t ->
                      Tuple_getitem_checked t j = Ok (Tuple_element t j)).
  { intros t j Hj. unfold Tuple_getitem_checked.
    destruct (decide (j < tuple_length t)); [reflexivity|lia]. }
  split; [reflexivity|]. split; [exact H1|]. split; [exact H2|]. split; [exact H3|].
  split; [exact H4|].
  exact (proj1 (proj2 (wrap_handler_packs_trailing_args 15 Tuple_getitem_checked
                         example_decode sixteen_uint64 eq_refl H1 H2 H3 H4))).
Defined.

(** The method of C1: the error is the one of its wrapping. *)
Lemma add_method_handler_errors_txn_then_16 :
  snd (add_method_handler 15 Tuple_getitem_checked example_checksum (empty_router "app")
         txn_then_16 None MethodConfig_default) =
    Raise (TealInputError (raised_outside "Index out of bounds")) ∧
  wrap_handler 15 Tuple_getitem_checked true (HABIReturn txn_then_16) =
    Raise (TealInputError (raised_outside "Index out of bounds")).
Proof.
  assert (Hr : snd (add_method_handler 15 Tuple_getitem_checked example_checksum
                      (empty_router "app") txn_then_16 None MethodConfig_default) =
               Raise (TealInputError (raised_outside "Index out of bounds")))
    by reflexivity.
  split; [exact Hr|].
  destruct (add_method_handler_errors 15 Tuple_getitem_checked example_checksum
              (empty_router "app") txn_then_16 None MethodConfig_default _ Hr)
    as [Hs|(sig & _ & [[Hn _]|[[_ He]|[(other & _ & He)|[He|Hw]]]])].
  - discriminate Hs.
  - discriminate Hn.
  - discriminate He.
  - discriminate He.
  - discriminate He.
  - exact Hw.
Defined.

(** [add(uint64,uint64)uint64] through the decorator, in a new router. *)
Lemma Router_method_defaults_add :
  let out :=
    Router_method 15 Tuple_getitem_checked example_checksum (empty_router "app")
      add_method None CALL NEVER NEVER NEVER NEVER NEVER in
  out = (fst out, Ok ()) ∧
  length (conditions_n_branches (approval_ast (fst out))) = 1 ∧
  conditions_n_branches (clear_state_ast (fst out)) = [].
Proof.
  intros out.
  assert (H : out = (fst out, Ok ())) by reflexivity.
  destruct (Router_method_defaults 15 Tuple_getitem_checked example_checksum
              (empty_router "app") (fst out) add_method None H)
    as (sig & w & _ & _ & Ha & Hc).
  split; [exact H|]. split; [|exact Hc].
  rewrite Ha. reflexivity.
Defined.
